(** * Browser ECG analyzer: the Python signal-processing script of
      [src/services/ecgWorker.ts], embedded and verified.

    The worker loads a Python script into Pyodide and calls
    [process_ecg_complete] on the voltages it receives.  This file embeds
    that script function by function, under the names of the script.

    Numbers.  The signal path of the script (filters, derivative,
    integration, thresholds, morphology, variability) is modelled in
    exact rationals [Q].  A value the script obtains through [np.sqrt]
    or [np.std] is kept in the closed form [c * sqrt r] (type [surd])
    and compared exactly; that these comparisons are the ones of the
    real numbers is proved ([surd_ltb_spec] and its neighbours).
    Rounding error, [inf] and [nan] are outside this part of the model:
    a statement that involves a division is made where NumPy's result is
    finite, and a comparison is the comparison of the exact values.

    Double precision.  The rhythm classifier and the heart-rate metrics
    of the detector, whose results are numbers the script reports and
    compares with thresholds, are embedded a second time in the module
    [Binary64]: every operation is rounded to the nearest double as
    IEEE 754 binary64 rounds it, in the order in which NumPy sums.  The
    exponent range is not bounded there, and a division by zero, which
    NumPy answers with [inf] or [nan], is outside the model.

    Effects.  The script prints when [verbose] is set and raises Python
    exceptions: functions that print live in [Py], a state-and-error
    monad over the standard output; functions that only raise live in
    [result].

    Library code.  The output of SciPy's IIR filters and [np.log10] are
    not rational, so these are an interface ([Kernels]); the argument
    checks SciPy performs before filtering are written out, and so are
    the NumPy routines with rational results.  Two instances run the
    script: [passthrough], whose filters return their input, and
    [scipy_tabulated], which answers the detector's band-pass call on
    two recordings with the array SciPy returns for them.

    Around the script.  The TypeScript that feeds the script and reads
    its results follows the script in both halves of the file: the
    validation of a parsed recording ([src/services/dataParser.ts]),
    the request of the worker, and the processor that posts it and
    transforms the reply ([ecgProcessor.ts]). *)

From Stdlib Require Import Reals Qreals Lra.
From Stdlib Require Import ZArith QArith Qabs Qround List String Bool Lia Lqa.
From Stdlib Require Import Sorted Qpower SpecFloat.
Import ListNotations.
Local Open Scope Q_scope.

(** ** Errors and the two monads of the script *)

Inductive py_error : Type :=
| ValueError
| ZeroDivisionError
| IndexError
| RuntimeError
| LoopDiverges.   (* a [while] that does not end within its bound *)

Inductive result (A : Type) : Type :=
| Ok (x : A)
| Raise (e : py_error).

Arguments Ok {A} x.
Arguments Raise {A} e.

Class Monad (M : Type -> Type) : Type := {
  ret  : forall {A}, A -> M A;
  bind : forall {A B}, M A -> (A -> M B) -> M B
}.

Notation "x <- m ;; k" := (bind m (fun x => k))
  (at level 61, m at next level, right associativity).
Notation "' pat <- m ;; k" := (bind m (fun x => match x with pat => k end))
  (at level 61, pat pattern, m at next level, right associativity).
Notation "m ;;; k" := (bind m (fun _ => k))
  (at level 61, right associativity).

#[export] Instance result_monad : Monad result := {
  ret := fun A x => Ok x;
  bind := fun A B m k => match m with Raise e => Raise e | Ok x => k x end
}.

(** What the script prints when [verbose] is set.  The text of a line is
    fixed by its constructor and the values it carries. *)
Inductive log_line : Type :=
| LogBanner
| LogTitle
| LogPreprocessInput (n : Z) (fs : Q)
| LogDetectorStart (n : Z)
| LogPeaks (n : Z)
| LogHeartRate (bpm : Q)
| LogRhythm (label : string)
| LogConfidence (c : Q).

Definition stdout : Type := list log_line.

(** A script function that prints: it runs on the current standard
    output, extends it, and returns a value or raises. *)
Definition Py (A : Type) : Type := stdout -> result A * stdout.

#[export] Instance Py_monad : Monad Py := {
  ret := fun A x out => (Ok x, out);
  bind := fun A B m k out =>
            match m out with
            | (Raise e, out') => (Raise e, out')
            | (Ok x, out') => k x out'
            end
}.

Definition print (l : log_line) : Py unit := fun out => (Ok tt, out ++ [l]).
Definition lift {A} (r : result A) : Py A := fun out => (r, out).
Definition when (b : bool) (m : Py unit) : Py unit := if b then m else ret tt.

(** ** Python and NumPy primitives *)

Definition Qltb (x y : Q) : bool := negb (Qle_bool y x).

(** [int(x)]: truncation toward zero. *)
Definition py_int (x : Q) : Z := Z.quot (Qnum x) (Z.pos (Qden x)).

Definition len {A} (l : list A) : Z := Z.of_nat (List.length l).

(** Python's [/] on Python numbers raises on a zero divisor. *)
Definition py_div (a b : Q) : result Q :=
  if Qeq_bool b 0 then Raise ZeroDivisionError else Ok (a / b).

(** A slice bound, as [slice.indices] normalises it. *)
Definition slice_bound (n i : Z) : Z :=
  if (i <? 0)%Z then Z.max 0 (i + n) else Z.min i n.

(** [l[start:stop]] *)
Definition py_slice {A} (l : list A) (start stop : Z) : list A :=
  let a := slice_bound (len l) start in
  let b := slice_bound (len l) stop in
  firstn (Z.to_nat (b - a)) (skipn (Z.to_nat a) l).

(** [l[start:]] *)
Definition py_slice_from {A} (l : list A) (start : Z) : list A :=
  skipn (Z.to_nat (slice_bound (len l) start)) l.

(** [l[i]], negative indices counting from the end. *)
Definition py_get {A} (l : list A) (i : Z) : result A :=
  let j := if (i <? 0)%Z then (i + len l)%Z else i in
  if (j <? 0)%Z then Raise IndexError
  else match nth_error l (Z.to_nat j) with
       | Some x => Ok x
       | None => Raise IndexError
       end.

(** [l[i]] for an index the caller keeps inside [0, len l); zero
    elsewhere, which is also the padding of a convolution. *)
Definition at_ (l : list Q) (i : Z) : Q :=
  if (i <? 0)%Z then 0 else nth (Z.to_nat i) l 0.

(** [range(n)] *)
Definition range (n : Z) : list Z := map Z.of_nat (seq 0 (Z.to_nat n)).

(** A sum, kept in lowest terms ([Qred] leaves the value unchanged). *)
Fixpoint Qsum (l : list Q) : Q :=
  match l with
  | [] => 0
  | x :: t => Qred (x + Qsum t)
  end.

Definition np_mean (l : list Q) : Q := Qsum l / inject_Z (len l).

Definition sq_dev (l : list Q) : list Q :=
  let m := np_mean l in map (fun x => (x - m) * (x - m)) l.

Definition np_var (l : list Q) : Q := np_mean (sq_dev l).

Fixpoint np_diff (l : list Q) : list Q :=
  match l with
  | a :: (b :: _) as t => (b - a) :: np_diff t
  | _ => []
  end.

Fixpoint np_diffZ (l : list Z) : list Z :=
  match l with
  | a :: (b :: _) as t => (b - a)%Z :: np_diffZ t
  | _ => []
  end.

(** [np.argmax]/[np.argmin] on a non-empty array: the first extremum. *)
Fixpoint arg_from (better : Q -> Q -> bool) (best : Q) (besti i : Z)
  (l : list Q) : Z :=
  match l with
  | [] => besti
  | x :: t => if better x best then arg_from better x i (i + 1)%Z t
              else arg_from better best besti (i + 1)%Z t
  end.

Definition argmax (l : list Q) : Z :=
  match l with
  | [] => 0%Z
  | x :: t => arg_from (fun a b => Qltb b a) x 0%Z 1%Z t
  end.

Definition argmin (l : list Q) : Z :=
  match l with
  | [] => 0%Z
  | x :: t => arg_from Qltb x 0%Z 1%Z t
  end.

Definition np_argmax (l : list Q) : result Z :=
  match l with
  | [] => Raise ValueError
  | _ => Ok (argmax l)
  end.

Definition np_argmin (l : list Q) : result Z :=
  match l with
  | [] => Raise ValueError
  | _ => Ok (argmin l)
  end.

(** [np.std(x, ddof)]'s radicand: the sum of squared deviations over
    [len x - ddof]. *)
Definition var_ddof (ddof : Z) (l : list Q) : Q :=
  Qsum (sq_dev l) / inject_Z (len l - ddof).

(** ** Square roots in closed form

    [mk_surd c r] stands for the real number [c * sqrt r], [0 <= r].  The
    map [x |-> x * |x|] is strictly increasing on the reals, and sends
    [c * sqrt r] to the rational [c * |c| * r]: comparing these signed
    squares compares the numbers. *)
Record surd : Type := mk_surd { coef : Q; radicand : Q }.

Definition surd_of_Q (q : Q) : surd := mk_surd q 1.
Definition np_sqrt (r : Q) : surd := mk_surd 1 r.
Definition np_std (l : list Q) : surd := np_sqrt (np_var l).
Definition np_std_ddof1 (l : list Q) : surd := np_sqrt (var_ddof 1 l).

Definition surd_scale (s : surd) (q : Q) : surd :=
  mk_surd (coef s * q) (radicand s).
Definition surd_div (s : surd) (q : Q) : surd :=
  mk_surd (coef s / q) (radicand s).
(** [q / (c * sqrt r) = q / (c * r) * sqrt r] *)
Definition Q_div_surd (q : Q) (s : surd) : surd :=
  mk_surd (q / (coef s * radicand s)) (radicand s).

Definition signed_sq (q : Q) : Q := q * Qabs q.
Definition surd_ssq (s : surd) : Q := signed_sq (coef s) * radicand s.

(** The real number a surd stands for, and the signed square on the
    reals. *)
Definition surd_val (s : surd) : R :=
  (Q2R (coef s) * sqrt (Q2R (radicand s)))%R.

Definition Rsigned_sq (x : R) : R := (x * Rabs x)%R.

(** [s < c], [c < s], [c <= s] for a surd [s] and a rational [c]. *)
Definition surd_ltb (s : surd) (c : Q) : bool :=
  Qltb (surd_ssq s) (signed_sq c).
Definition surd_gtb (s : surd) (c : Q) : bool :=
  Qltb (signed_sq c) (surd_ssq s).
Definition surd_geb (s : surd) (c : Q) : bool :=
  Qle_bool (signed_sq c) (surd_ssq s).

(** [needle in hay] on Python strings. *)
Fixpoint contains (needle hay : string) : bool :=
  String.prefix needle hay ||
  match hay with
  | EmptyString => false
  | String _ t => contains needle t
  end.

(** ** Rhythm analysis: [detect_arrhythmia] *)

Record arrhythmia_metrics : Type := {
  cv : surd;
  mean_hr : Q;
  mean_rr_ms : option Q;        (* absent with fewer than three peaks *)
  std_rr_ms : option surd
}.

Definition rr_intervals_s (r_peaks : list Z) (fs : Q) : list Q :=
  map (fun d => inject_Z d / fs) (np_diffZ r_peaks).

Definition rate_tier (mean_hr : Q) : string :=
  if Qltb mean_hr 60 then "Bradycardia"%string
  else if Qltb 100 mean_hr then "Tachycardia"%string
  else "Normal Sinus Rhythm"%string.

Definition detect_arrhythmia (r_peaks : list Z) (fs : Q) (verbose : bool)
  : string * arrhythmia_metrics :=
  if (len r_peaks <? 3)%Z then
    ("Insufficient data"%string,
     {| cv := surd_of_Q 0; mean_hr := 0;
        mean_rr_ms := None; std_rr_ms := None |})
  else
    (* Calculate RR interval statistics *)
    let rr_intervals := rr_intervals_s r_peaks fs in
    let mean_rr := np_mean rr_intervals in
    let std_rr := np_std rr_intervals in
    let cv := if Qltb 0 mean_rr then surd_div std_rr mean_rr
              else surd_of_Q 0 in
    let hr_values := map (fun rr => 60 / rr) rr_intervals in
    let mean_hr := np_mean hr_values in
    (* Rate-based classification *)
    let rhythm_status := rate_tier mean_hr in
    (* Override with irregularity assessment (higher priority) *)
    let rhythm_status :=
      if surd_geb cv 0.15 then "Flagged: Irregular Rhythm"%string
      else if surd_geb cv 0.08 && contains "Normal" rhythm_status
           then "Borderline: Mild Irregularity"%string
           else rhythm_status in
    (rhythm_status,
     {| cv := cv; mean_hr := mean_hr;
        mean_rr_ms := Some (mean_rr * 1000);
        std_rr_ms := Some (surd_scale std_rr 1000) |}).

(** ** Waveform morphology: [measure_qrs_width] *)

Record qrs_metrics : Type := {
  mean_qrs_ms : Q;
  std_qrs_ms : surd;
  qrs_interpretation : string
}.

(** Q-wave onset: [for i in range(r_local, 0, -1)] with its [else]
    clause; [n] is the current [i]. *)
Fixpoint q_onset_scan (segment : list Q) (r_local : Z) (n : nat)
  : result Z :=
  match n with
  | O => Ok 0%Z                          (* else: q_onset = 0 *)
  | S n' =>
      let i := Z.of_nat n in
      if (i <? r_local - 2)%Z then
        a <- py_get segment i ;;
        b <- py_get segment (i - 1) ;;
        let slope := Qabs (a - b) in
        if Qltb slope 0.005 then Ok i    (* q_onset = i; break *)
        else q_onset_scan segment r_local n'
      else q_onset_scan segment r_local n'
  end.

(** S-wave offset: [for i in range(s_point_global, len(segment) - 1)];
    [k] iterations remain and [i] is the current index. *)
Fixpoint s_offset_scan (segment : list Q) (i : Z) (k : nat) : result Z :=
  match k with
  | O => Ok (len segment - 1)%Z
  | S k' =>
      a <- py_get segment (i + 1) ;;
      b <- py_get segment i ;;
      let slope := Qabs (a - b) in
      if Qltb slope 0.005 then Ok i      (* s_offset = i; break *)
      else s_offset_scan segment (i + 1) k'
  end.

(** One pass of [for r_idx in r_peaks]: the width retained for this
    peak, if any. *)
Definition qrs_width_at (signal_array : list Q) (fs : Q) (r_idx : Z)
  : result (option Q) :=
  (* Define search window around R-peak *)
  let pre_window := py_int (0.05 * fs) in
  let post_window := py_int (0.08 * fs) in
  let start_search := Z.max 0 (r_idx - pre_window) in
  let end_search := Z.min (len signal_array) (r_idx + post_window) in
  let segment := py_slice signal_array start_search end_search in
  if (len segment <? 5)%Z then Ok None
  else
    let r_local := (r_idx - start_search)%Z in
    q_onset <- q_onset_scan segment r_local (Z.to_nat r_local) ;;
    let s_search_segment := py_slice_from segment r_local in
    s_point_local <- np_argmin s_search_segment ;;
    let s_point_global := (r_local + s_point_local)%Z in
    s_offset <- s_offset_scan segment s_point_global
                  (Z.to_nat (len segment - 1 - s_point_global)) ;;
    width_ms <- py_div (inject_Z ((s_offset - q_onset) * 1000)) fs ;;
    (* Physiological range filter *)
    if Qltb 40 width_ms && Qltb width_ms 200 then Ok (Some width_ms)
    else Ok None.

(** The list [qrs_widths] once the loop is over. *)
Fixpoint qrs_widths_loop (signal_array : list Q) (fs : Q) (r_peaks : list Z)
  : result (list Q) :=
  match r_peaks with
  | [] => Ok []
  | r_idx :: rest =>
      w <- qrs_width_at signal_array fs r_idx ;;
      ws <- qrs_widths_loop signal_array fs rest ;;
      Ok (match w with Some width_ms => width_ms :: ws | None => ws end)
  end.

Definition measure_qrs_width (ecg_signal : list Q) (r_peaks : list Z)
  (fs : Q) (verbose : bool) : result qrs_metrics :=
  if (len r_peaks <? 2)%Z then
    Ok {| mean_qrs_ms := 0; std_qrs_ms := surd_of_Q 0;
          qrs_interpretation := "Insufficient data" |}
  else
    qrs_widths <- qrs_widths_loop ecg_signal fs r_peaks ;;
    match qrs_widths with
    | [] => Ok {| mean_qrs_ms := 80; std_qrs_ms := surd_of_Q 0;
                  qrs_interpretation := "Could not detect" |}
    | _ =>
        let mean_qrs := np_mean qrs_widths in
        (* Clinical interpretation *)
        let status :=
          if Qle_bool 120 mean_qrs then "Wide QRS (BBB/Ventricular)"%string
          else if Qle_bool mean_qrs 60 then "Narrow (Normal)"%string
          else "Normal"%string in
        Ok {| mean_qrs_ms := mean_qrs; std_qrs_ms := np_std qrs_widths;
              qrs_interpretation := status |}
    end.

(** ** Waveform morphology: [calculate_qt_interval] *)

Record qt_metrics : Type := {
  mean_qt_ms : Q;
  mean_qtc_bazett_ms : surd;
  qt_risk_flag : bool;
  qt_interpretation : string
}.

(** One pass of [for i in range(len(r_peaks) - 1)] at [r_idx =
    r_peaks[i]]: the QT value retained, if any.  ([rr_sec] is computed by
    the script and not used.) *)
Definition qt_at (signal_array : list Q) (fs : Q) (r_idx : Z)
  : result (option Q) :=
  (* Define T-wave search window *)
  let t_start := (r_idx + py_int (0.04 * fs))%Z in
  let t_end_window := (r_idx + py_int (0.45 * fs))%Z in
  if (len signal_array <=? t_end_window)%Z then Ok None
  else
    (* Locate T-wave peak *)
    let t_window := py_slice signal_array t_start t_end_window in
    if (len t_window =? 0)%Z then Ok None
    else
      t_peak_local <- np_argmax t_window ;;
      let t_peak_idx := (t_start + t_peak_local)%Z in
      (* Find maximum downslope (tangent method) *)
      let slope_search_len := py_int (0.1 * fs) in
      let slope_search :=
        py_slice signal_array t_peak_idx (t_peak_idx + slope_search_len) in
      if (len slope_search <? 2)%Z then Ok None
      else
        let slopes := np_diff slope_search in
        min_slope_idx <- np_argmin slopes ;;
        max_slope <- py_get slopes min_slope_idx ;;
        if Qeq_bool max_slope 0 then Ok None
        else
          (* Calculate tangent-baseline intersection *)
          let slope_point_idx := (t_peak_idx + min_slope_idx)%Z in
          slope_point_val <- py_get signal_array slope_point_idx ;;
          let t_end_idx :=
            inject_Z slope_point_idx - slope_point_val / max_slope in
          let q_start_idx := (r_idx - py_int (0.03 * fs))%Z in
          let qt_ms := (t_end_idx - inject_Z q_start_idx) / fs * 1000 in
          (* Physiological range filter *)
          if Qltb 200 qt_ms && Qltb qt_ms 600 then Ok (Some qt_ms)
          else Ok None.

Fixpoint qt_loop (signal_array : list Q) (fs : Q) (r_idxs : list Z)
  : result (list Q) :=
  match r_idxs with
  | [] => Ok []
  | r_idx :: rest =>
      q <- qt_at signal_array fs r_idx ;;
      qs <- qt_loop signal_array fs rest ;;
      Ok (match q with Some qt_ms => qt_ms :: qs | None => qs end)
  end.

Definition calculate_qt_interval (ecg_signal : list Q) (r_peaks : list Z)
  (fs : Q) (verbose : bool) : result qt_metrics :=
  if (len r_peaks <? 3)%Z then
    Ok {| mean_qt_ms := 0; mean_qtc_bazett_ms := surd_of_Q 0;
          qt_risk_flag := false; qt_interpretation := "N/A" |}
  else
    qt_ms_list <- qt_loop ecg_signal fs (removelast r_peaks) ;;
    let mean_qt := match qt_ms_list with
                   | [] => 0
                   | _ => np_mean qt_ms_list
                   end in
    let rr_intervals := rr_intervals_s r_peaks fs in
    let mean_rr := if (0 <? len rr_intervals)%Z then np_mean rr_intervals
                   else 1 in
    (* Bazett's correction *)
    let qtc_bazett := if Qltb 0 mean_rr
                      then Q_div_surd mean_qt (np_sqrt mean_rr)
                      else surd_of_Q 0 in
    Ok {| mean_qt_ms := mean_qt;
          mean_qtc_bazett_ms := qtc_bazett;
          qt_risk_flag := surd_gtb qtc_bazett 470;
          qt_interpretation :=
            if surd_ltb qtc_bazett 450 then "Normal"%string
            else if surd_ltb qtc_bazett 500 then "Prolonged QTc"%string
            else "High Risk (Long QT)"%string |}.

(** ** Heart rate variability: [calculate_hrv_metrics] *)

Record hrv_metrics : Type := {
  sdnn_ms : surd;
  rmssd_ms : surd;
  pnn50_percent : Q;
  hrv_interpretation : string;
  (* keys that only some of the three returned dictionaries carry *)
  mean_nn_ms : option Q;
  cv_percent : option surd;
  sdsd_ms : option surd;
  pnn20_percent : option Q;
  nn_count : option Z;
  ectopic_removed : option Z
}.

Definition calculate_hrv_metrics (r_peaks : list Z) (fs : Q)
  (verbose : bool) : hrv_metrics :=
  if (len r_peaks <? 3)%Z then
    {| sdnn_ms := surd_of_Q 0; rmssd_ms := surd_of_Q 0; pnn50_percent := 0;
       hrv_interpretation := "Insufficient data";
       mean_nn_ms := Some 0; cv_percent := Some (surd_of_Q 0);
       sdsd_ms := None; pnn20_percent := None; nn_count := None;
       ectopic_removed := None |}
  else
    (* Calculate RR intervals *)
    let rr_samples := np_diffZ r_peaks in
    let rr_ms := map (fun d => inject_Z d / fs * 1000) rr_samples in
    (* Apply physiological filter (40-200 bpm range) *)
    let nn_intervals :=
      filter (fun x => Qltb 300 x && Qltb x 1500) rr_ms in
    if (len nn_intervals <? 2)%Z then
      {| sdnn_ms := surd_of_Q 0; rmssd_ms := surd_of_Q 0;
         pnn50_percent := 0;
         hrv_interpretation := "High noise level - unstable RR";
         mean_nn_ms := None; cv_percent := None;
         sdsd_ms := None; pnn20_percent := None; nn_count := None;
         ectopic_removed := None |}
    else
      (* Standard deviation of NN intervals *)
      let sdnn := np_std_ddof1 nn_intervals in
      (* Root mean square of successive differences *)
      let diff_nn := np_diff nn_intervals in
      let rmssd := np_sqrt (np_mean (map (fun d => d * d) diff_nn)) in
      (* Percentage of successive differences > 50 ms *)
      let nn50 := len (filter (fun d => Qltb 50 (Qabs d)) diff_nn) in
      let pnn50 := if (0 <? len diff_nn)%Z
                   then inject_Z nn50 / inject_Z (len diff_nn) * 100
                   else 0 in
      let mean_nn := np_mean nn_intervals in
      let cv := surd_scale (surd_div sdnn mean_nn) 100 in
      (* Clinical interpretation (adjusted for short-term recordings) *)
      let interpretation :=
        if surd_ltb sdnn 20 then "Low HRV (Reduced variability)"%string
        else if surd_ltb sdnn 100
             then "Normal range for short-term recording"%string
             else "High Variability"%string in
      {| sdnn_ms := sdnn; rmssd_ms := rmssd; pnn50_percent := pnn50;
         hrv_interpretation := interpretation;
         mean_nn_ms := Some mean_nn; cv_percent := Some cv;
         sdsd_ms := Some (if (0 <? len diff_nn)%Z then np_std diff_nn
                          else surd_of_Q 0);
         pnn20_percent := Some 0;
         nn_count := Some (len nn_intervals);
         ectopic_removed := Some (len rr_ms - len nn_intervals)%Z |}.

(** ** SciPy and NumPy routines of the two filtering stages *)

(** The coefficient arrays [(b, a)] a design routine returns are not
    rational; a design is kept as the call that produced it. *)
Inductive iir_design : Type :=
| Butter (N : nat) (low high : Q)      (* butter(N, [low, high], 'band') *)
| Notch (w0 Qf : Q).                   (* iirnotch(w0, Qf) *)

(** [max(len(a), len(b))] of a design. *)
Definition ntaps (ba : iir_design) : Z :=
  match ba with
  | Butter N _ _ => 2 * Z.of_nat N + 1
  | Notch _ _ => 3
  end.

(** The numerical part of the library: the zero-phase filter output for
    a design, and the decimal logarithm. *)
Class Kernels : Type := {
  filtfilt_kernel : iir_design -> list Q -> list Q;
  np_log10 : Q -> Q;
  (* [filtfilt] returns an array of the shape of [x] *)
  filtfilt_kernel_length :
    forall ba x, List.length (filtfilt_kernel ba x) = List.length x
}.

(** [signal.butter]: "Digital filter critical frequencies must be
    0 < Wn < 1". *)
Definition butter (N : nat) (low high : Q) : result iir_design :=
  if Qltb 0 low && Qltb low 1 && Qltb 0 high && Qltb high 1
  then Ok (Butter N low high)
  else Raise ValueError.

(** [signal.iirnotch]: rejects [w0 > 1.0 or w0 < 0.0]. *)
Definition iirnotch (w0 Qf : Q) : result iir_design :=
  if Qltb 1 w0 || Qltb w0 0 then Raise ValueError
  else Ok (Notch w0 Qf).

(** [signal.filtfilt] with its default padding [3 * max(len(a), len(b))]:
    "The length of the input vector x must be greater than padlen". *)
Definition filtfilt `{Kernels} (ba : iir_design) (x : list Q)
  : result (list Q) :=
  if (len x <=? 3 * ntaps ba)%Z then Raise ValueError
  else Ok (filtfilt_kernel ba x).

(** [x[i]] with the index moved to the nearest valid one. *)
Definition nearest (x : list Q) (i : Z) : Q :=
  at_ x (Z.max 0 (Z.min i (len x - 1))).

(** [uniform_filter1d(x, size, mode='nearest')]: the mean over the window
    [i - size // 2 .. i - size // 2 + size - 1]. *)
Definition moving_average (x : list Q) (size : Z) : list Q :=
  map (fun i =>
         Qsum (map (fun j => nearest x (i - size / 2 + j)) (range size))
         / inject_Z size)
      (range (len x)).

Definition uniform_filter1d (x : list Q) (size : Z) : result (list Q) :=
  if (size <? 1)%Z then Raise RuntimeError     (* "incorrect filter size" *)
  else Ok (moving_average x size).

(** Element-wise [x - y]. *)
Definition np_sub (x y : list Q) : list Q :=
  map (fun p => fst p - snd p) (combine x y).

(** [np.convolve(a, v, mode='same')]: the centre of the full
    convolution, of length [max(len a, len v)]. *)
Definition full_conv (a v : list Q) (t : Z) : Q :=
  Qsum (map (fun j => at_ v j * at_ a (t - j)) (range (len v))).

Definition convolve_same (a v : list Q) : list Q :=
  let off := ((Z.min (len a) (len v) - 1) / 2)%Z in
  map (fun k => full_conv a v (k + off)) (range (Z.max (len a) (len v))).

Definition np_convolve_same (a v : list Q) : result (list Q) :=
  match a, v with
  | [], _ | _, [] => Raise ValueError        (* "cannot be empty" *)
  | _, _ => Ok (convolve_same a v)
  end.

(** [np.sort] by insertion. *)
Fixpoint insert_sorted (x : Q) (l : list Q) : list Q :=
  match l with
  | [] => [x]
  | y :: t => if Qle_bool x y then x :: l else y :: insert_sorted x t
  end.

Definition np_sort (l : list Q) : list Q := fold_right insert_sorted [] l.

(** [np.percentile(l, p)], linear interpolation between the two order
    statistics around the position [(len l - 1) * p / 100]. *)
Definition np_percentile (l : list Q) (p : Q) : Q :=
  let sorted := np_sort l in
  let virtual := inject_Z (len l - 1) * (p / 100) in
  let previous := Qfloor virtual in
  let next := Z.min (previous + 1) (len l - 1) in
  let gamma := virtual - inject_Z previous in
  at_ sorted previous + (at_ sorted next - at_ sorted previous) * gamma.

(** ** Preprocessing: [preprocess_ecg] *)

Record filter_metrics : Type := {
  snr_db : Q;
  confidence_score : Q;
  signal_std : surd
}.

(** Python's [max(0, min(100, x))]. *)
Definition clamp_0_100 (x : Q) : Q :=
  let m := if Qltb x 100 then x else 100 in
  if Qltb 0 m then m else 0.

Definition preprocess_ecg `{Kernels} (raw_signal : list Q) (fs : Q)
  (verbose : bool) : Py (list Q * filter_metrics) :=
  when verbose (print (LogPreprocessInput (len raw_signal) fs)) ;;;
  let signal_array := raw_signal in
  (* Bandpass filter: 0.5-40 Hz *)
  let nyquist := fs / 2 in
  low_cutoff <- lift (py_div 0.5 nyquist) ;;
  high_cutoff <- lift (py_div 40 nyquist) ;;
  ba_band <- lift (butter 4 low_cutoff high_cutoff) ;;
  filtered <- lift (filtfilt ba_band signal_array) ;;
  (* Notch filter: 60 Hz *)
  let notch_freq := 60 in
  w0 <- lift (py_div notch_freq nyquist) ;;
  ba_notch <- lift (iirnotch w0 30) ;;
  notched <- lift (filtfilt ba_notch filtered) ;;
  (* Baseline wander removal via moving average subtraction *)
  let window_samples := py_int (0.2 * fs) in
  baseline <- lift (uniform_filter1d notched window_samples) ;;
  let cleaned := np_sub notched baseline in
  (* Signal quality estimation via SNR *)
  let signal_power := np_var cleaned in
  let noise_removed := np_sub signal_array cleaned in
  let noise_power := np_var noise_removed in
  let snr_db := if Qeq_bool noise_power 0 then 100
                else 10 * np_log10 (signal_power / noise_power) in
  (* Map SNR (typical range: 5-25 dB) to confidence percentage *)
  let quality_percent := clamp_0_100 ((snr_db - 5) * 5) in
  ret (cleaned,
       {| snr_db := snr_db; confidence_score := quality_percent;
          signal_std := np_std cleaned |}).

(** ** QRS detection: [pan_tompkins_detector] *)

Record detection_metrics : Type := {
  num_peaks : Z;
  avg_heart_rate_bpm : Q;
  avg_rr_interval_s : option Q;     (* absent with fewer than two peaks *)
  rr_std_s : option surd;
  final_threshold : Q
}.

(** Five-point derivative, written into an array of zeros for
    [2 <= i < len - 2]. *)
Definition five_point_derivative (filtered_qrs : list Q) (fs : Q) : list Q :=
  map (fun i =>
         if (2 <=? i)%Z && (i <? len filtered_qrs - 2)%Z then
           (- at_ filtered_qrs (i - 2) - 2 * at_ filtered_qrs (i - 1)
            + 2 * at_ filtered_qrs (i + 1) + at_ filtered_qrs (i + 2))
           / (8 / fs)
         else 0)
      (range (len filtered_qrs)).

(** [np.ones(n) / n] *)
Definition boxcar (n : Z) : list Q := repeat (1 / inject_Z n) (Z.to_nat n).

(** The variables of the adaptive-thresholding loop. *)
Record detector_state : Type := {
  st_i : Z;
  st_threshold : Q;
  st_r_peaks : list Z;
  st_signal_peaks : list Q;
  st_noise_peaks : list Q
}.

(** [i += 1] *)
Definition advance (st : detector_state) : detector_state :=
  {| st_i := st_i st + 1; st_threshold := st_threshold st;
     st_r_peaks := st_r_peaks st; st_signal_peaks := st_signal_peaks st;
     st_noise_peaks := st_noise_peaks st |}.

Section ThresholdLoop.

Variables (integrated signal_array : list Q) (fs : Q).

Definition refractory_samples : Z := py_int (0.2 * fs).
Definition search_window : Z := py_int (0.08 * fs).

Definition is_local_max (i : Z) : bool :=
  Qltb (at_ integrated (i - 1)) (at_ integrated i)
  && Qltb (at_ integrated (i + 1)) (at_ integrated i).

(** [len(r_peaks) == 0 or (i - r_peaks[-1]) > refractory_samples] *)
Definition refractory_ok (r_peaks : list Z) (i : Z) : bool :=
  (len r_peaks =? 0)%Z
  || (refractory_samples <? i - last r_peaks 0%Z)%Z.

Definition local_signal (i : Z) : list Q :=
  py_slice signal_array (Z.max 0 (i - search_window))
                        (Z.min (len signal_array) (i + search_window)).

Definition actual_peak_idx (i : Z) : Z :=
  (Z.max 0 (i - search_window) + argmax (local_signal i))%Z.

(** [peak_val > (np.std(signal_array) * 0.5)] *)
Definition amplitude_ok (peak_val : Q) : bool :=
  surd_ltb (surd_scale (np_std signal_array) 0.5) peak_val.

(** The threshold after a peak is accepted. *)
Definition updated_threshold (signal_peaks noise_peaks : list Q) : Q :=
  let avg_signal_peak := np_mean (py_slice_from signal_peaks (-8)) in
  let avg_noise_peak :=
    match noise_peaks with
    | [] => 0
    | _ => np_mean (py_slice_from noise_peaks (-8))
    end in
  avg_noise_peak + 0.40 * (avg_signal_peak - avg_noise_peak).

(** One pass through the body of [while i < len(integrated) - 1]. *)
Definition loop_body (st : detector_state) : detector_state :=
  let i := st_i st in
  (* Detect local maxima in integrated signal *)
  if is_local_max i then
    if Qltb (st_threshold st) (at_ integrated i) then
      (* Enforce refractory period *)
      if refractory_ok (st_r_peaks st) i then
        (* Localize actual R-peak in original signal *)
        if (0 <? len (local_signal i))%Z then
          let peak_val := at_ signal_array (actual_peak_idx i) in
          (* Amplitude validation *)
          if amplitude_ok peak_val then
            let signal_peaks := st_signal_peaks st ++ [at_ integrated i] in
            {| st_i := i + refractory_samples;          (* continue *)
               st_threshold :=
                 updated_threshold signal_peaks (st_noise_peaks st);
               st_r_peaks := st_r_peaks st ++ [actual_peak_idx i];
               st_signal_peaks := signal_peaks;
               st_noise_peaks := st_noise_peaks st |}
          else advance st
        else advance st
      else advance st
    else
      advance
        {| st_i := i; st_threshold := st_threshold st;
           st_r_peaks := st_r_peaks st;
           st_signal_peaks := st_signal_peaks st;
           st_noise_peaks := st_noise_peaks st ++ [at_ integrated i] |}
  else advance st.

(** The [while] loop, at most [fuel] passes. *)
Fixpoint while_loop (fuel : nat) (st : detector_state)
  : option detector_state :=
  if (st_i st <? len integrated - 1)%Z then
    match fuel with
    | O => None
    | S fuel' => while_loop fuel' (loop_body st)
    end
  else Some st.

Definition initial_state : detector_state :=
  let robust_max := np_percentile integrated 98 in
  {| st_i := 1; st_threshold := 0.6 * robust_max;
     st_r_peaks := []; st_signal_peaks := []; st_noise_peaks := [] |}.

(** Adaptive thresholding with refractory period: every pass moves [i]
    forward, so [len(integrated)] passes are enough. *)
Definition adaptive_thresholding : option detector_state :=
  while_loop (List.length integrated) initial_state.

End ThresholdLoop.

(** Calculate heart rate metrics *)
Definition heart_rate_metrics (r_peaks : list Z) (fs threshold : Q)
  : detection_metrics :=
  if (2 <=? len r_peaks)%Z then
    let rr_intervals := rr_intervals_s r_peaks fs in
    let avg_rr := np_mean rr_intervals in
    let avg_bpm := if Qltb 0 avg_rr then 60 / avg_rr else 0 in
    {| num_peaks := len r_peaks;
       avg_heart_rate_bpm := avg_bpm;
       avg_rr_interval_s := Some avg_rr;
       rr_std_s := Some (np_std rr_intervals);
       final_threshold := threshold |}
  else
    {| num_peaks := len r_peaks; avg_heart_rate_bpm := 0;
       avg_rr_interval_s := None; rr_std_s := None;
       final_threshold := threshold |}.

Definition pan_tompkins_detector `{Kernels} (ecg_signal : list Q) (fs : Q)
  (verbose : bool) : Py (list Z * detection_metrics) :=
  when verbose (print (LogDetectorStart (len ecg_signal))) ;;;
  let signal_array := ecg_signal in
  (* Bandpass filter: 5-15 Hz (optimized for QRS complex) *)
  let nyquist := fs / 2 in
  low <- lift (py_div 5 nyquist) ;;
  high <- lift (py_div 15 nyquist) ;;
  ba_qrs <- lift (butter 2 low high) ;;
  filtered_qrs <- lift (filtfilt ba_qrs signal_array) ;;
  (* Five-point derivative *)
  let derivative := five_point_derivative filtered_qrs fs in
  (* Squaring function *)
  let squared := map (fun d => d * d) derivative in
  (* Moving window integration (120 ms window) *)
  let window_size := py_int (0.120 * fs) in
  integrated <- lift (np_convolve_same squared (boxcar window_size)) ;;
  (* Adaptive thresholding with refractory period *)
  match adaptive_thresholding integrated signal_array fs with
  | None => lift (Raise LoopDiverges)
  | Some st =>
      let r_peaks := st_r_peaks st in
      ret (r_peaks, heart_rate_metrics r_peaks fs (st_threshold st))
  end.

(** ** Complete pipeline: [process_ecg_complete] *)

Definition wct_label : string :=
  "Wide-Complex Tachycardia - URGENT EVALUATION".
Definition wct_warning : string :=
  "Wide QRS with tachycardia requires immediate assessment".
Definition low_hrv_warning : string :=
  "Low HRV detected - consider cardiac risk assessment".

(** The "Clinical interpretation" block: the final rhythm label and the
    list [warnings], from the label of the classifier and the metrics. *)
Definition clinical_interpretation (rhythm_status : string)
  (detection : detection_metrics) (qrs : qrs_metrics) (qt : qt_metrics)
  (hrv : hrv_metrics) : string * list string :=
  let enhanced_rhythm := rhythm_status in
  let warnings : list string := [] in
  let '(enhanced_rhythm, warnings) :=
    if Qltb 120 (mean_qrs_ms qrs) then
      if Qltb 100 (avg_heart_rate_bpm detection) then
        (wct_label, warnings ++ [wct_warning])
      else (enhanced_rhythm, warnings ++ [qrs_interpretation qrs])
    else (enhanced_rhythm, warnings) in
  let warnings :=
    if qt_risk_flag qt then warnings ++ [qt_interpretation qt]
    else warnings in
  let warnings :=
    if surd_gtb (sdnn_ms hrv) 0 && surd_ltb (sdnn_ms hrv) 50
    then warnings ++ [low_hrv_warning]
    else warnings in
  (enhanced_rhythm, warnings).

(** The dictionary formatted for the UI. *)
Record ui_metrics : Type := {
  bpm : Q;
  rhythmStatus : string;
  confidence : Q;
  sdnn : surd;
  rmssd : surd;
  qtcBazett : surd;
  qrsWidth : Q;
  pnn50 : Q;
  clinicalWarnings : list string
}.

Record results : Type := {
  res_cleaned_signal : list Q;
  res_r_peak_indices : list Z;
  res_metrics : ui_metrics;
  res_filter_metrics : filter_metrics;
  res_detection_metrics : detection_metrics;
  res_arrhythmia_metrics : arrhythmia_metrics;
  res_qrs_metrics : qrs_metrics;
  res_qt_metrics : qt_metrics;
  res_hrv_metrics : hrv_metrics;
  res_rhythm_status : string;
  res_clinical_warnings : list string;
  res_sample_rate : Q;
  res_num_samples : Z
}.

Definition process_ecg_complete `{Kernels} (raw_voltages : list Q)
  (sample_rate : Q) (verbose : bool) : Py results :=
  when verbose (print LogBanner ;;; print LogTitle ;;; print LogBanner) ;;;
  let raw_signal := raw_voltages in
  (* Signal preprocessing *)
  ' (cleaned_signal, filter_m) <-
      preprocess_ecg raw_signal sample_rate verbose ;;
  (* R-peak detection *)
  ' (r_peaks, detection_m) <-
      pan_tompkins_detector cleaned_signal sample_rate verbose ;;
  (* Rhythm classification *)
  let '(rhythm_status, arrhythmia_m) :=
    detect_arrhythmia r_peaks sample_rate verbose in
  (* Morphology analysis *)
  qrs_m <- lift (measure_qrs_width cleaned_signal r_peaks sample_rate
                   verbose) ;;
  qt_m <- lift (calculate_qt_interval cleaned_signal r_peaks sample_rate
                  verbose) ;;
  let hrv_m := calculate_hrv_metrics r_peaks sample_rate verbose in
  (* Clinical interpretation *)
  let '(enhanced_rhythm, warnings) :=
    clinical_interpretation rhythm_status detection_m qrs_m qt_m hrv_m in
  (* Format for UI consumption *)
  let ui := {| bpm := avg_heart_rate_bpm detection_m;
               rhythmStatus := enhanced_rhythm;
               confidence := confidence_score filter_m;
               sdnn := sdnn_ms hrv_m;
               rmssd := rmssd_ms hrv_m;
               qtcBazett := mean_qtc_bazett_ms qt_m;
               qrsWidth := mean_qrs_ms qrs_m;
               pnn50 := pnn50_percent hrv_m;
               clinicalWarnings := warnings |} in
  when verbose (print LogBanner ;;;
                print (LogPeaks (len r_peaks)) ;;;
                print (LogHeartRate (bpm ui)) ;;;
                print (LogRhythm (rhythmStatus ui)) ;;;
                print (LogConfidence (confidence ui)) ;;;
                print LogBanner) ;;;
  ret {| res_cleaned_signal := cleaned_signal;
         res_r_peak_indices := r_peaks;
         res_metrics := ui;
         res_filter_metrics := filter_m;
         res_detection_metrics := detection_m;
         res_arrhythmia_metrics := arrhythmia_m;
         res_qrs_metrics := qrs_m;
         res_qt_metrics := qt_m;
         res_hrv_metrics := hrv_m;
         res_rhythm_status := enhanced_rhythm;
         res_clinical_warnings := warnings;
         res_sample_rate := sample_rate;
         res_num_samples := len raw_signal |}.

(** A library instance to run the script on: filters that return their
    input unchanged, and a logarithm that is constantly zero. *)
Definition passthrough : Kernels :=
  {| filtfilt_kernel := fun _ x => x; np_log10 := fun _ => 0;
     filtfilt_kernel_length := fun _ _ => eq_refl |}.

(** The array [integrated] of the detector, once SciPy has accepted the
    arguments. *)
Definition qrs_integrated `{Kernels} (ecg_signal : list Q) (fs : Q) : list Q :=
  let nyquist := fs / 2 in
  let filtered_qrs :=
    filtfilt_kernel (Butter 2 (5 / nyquist) (15 / nyquist)) ecg_signal in
  let derivative := five_point_derivative filtered_qrs fs in
  let squared := map (fun d => d * d) derivative in
  convolve_same squared (boxcar (py_int (0.120 * fs))).

(** The array [cleaned] of the preprocessor, once SciPy has accepted the
    arguments, and the error a stage raises otherwise. *)
Definition preprocess_cleaned `{Kernels} (raw_signal : list Q) (fs : Q)
  : list Q :=
  let nyquist := fs / 2 in
  let filtered :=
    filtfilt_kernel (Butter 4 (0.5 / nyquist) (40 / nyquist)) raw_signal in
  let notched := filtfilt_kernel (Notch (60 / nyquist) 30) filtered in
  np_sub notched (moving_average notched (py_int (0.2 * fs))).

Definition argument_error (fs : Q) : py_error :=
  if Qeq_bool fs 0 then ZeroDivisionError else ValueError.

(** The first two stages of [process_ecg_complete]: preprocessing
    followed by the QRS detector. *)
Definition preprocess_and_detect `{Kernels} (raw_signal : list Q)
  (sample_rate : Q) (verbose : bool) : Py (list Z * detection_metrics) :=
  ' (cleaned_signal, _) <- preprocess_ecg raw_signal sample_rate verbose ;;
  pan_tompkins_detector cleaned_signal sample_rate verbose.

(** [y] is [x] with every sample multiplied by [beta]. *)
Definition scaled (beta : Q) (x y : list Q) : Prop :=
  Forall2 (fun a b => b == beta * a) x y.

(** ** Double precision

    The two functions whose results the script reports as numbers,
    [detect_arrhythmia] and the heart-rate metrics of the detector, once
    more with every operation rounded as IEEE 754 binary64 rounds it: to
    the nearest number with a 53-bit significand, ties to the even
    significand.  A double is the rational it stands for.  The exponent
    is not bounded: no overflow, underflow, [inf] or [nan], and a
    quotient by zero is outside the model. *)
Module Binary64.

(** The integer nearest to [y], the even one of two. *)
Definition round_half_even (y : Q) : Z :=
  let n := Qnum y in
  let d := Zpos (Qden y) in
  let q := (n / d)%Z in
  match (2 * (n mod d) ?= d)%Z with
  | Lt => q
  | Eq => if Z.even q then q else (q + 1)%Z
  | Gt => (q + 1)%Z
  end.

Definition pow2 (e : Z) : Q := 2 ^ e.

(** The exponent of the last place of [x <> 0]: the [e] with
    [2^52 <= |x| / 2^e < 2^53]. *)
Definition exponent (x : Q) : Z :=
  let e0 := (Z.log2 (Z.abs (Qnum x)) - Z.log2 (Zpos (Qden x)) - 53)%Z in
  if Qle_bool (pow2 53) (Qabs x * pow2 (- e0)) then (e0 + 1)%Z else e0.

(** The double nearest to [x]. *)
Definition round (x : Q) : Q :=
  if Qeq_bool x 0 then 0
  else
    let e := exponent x in
    Qred (inject_Z (round_half_even (x * pow2 (- e))) * pow2 e).

(** The unit roundoff, and the factor one rounding can cost. *)
Definition u : Q := pow2 (-53).
Definition eta : Q := u / (1 - u).

(** [(1 + eta) ^ k] *)
Fixpoint factor (k : nat) : Q :=
  match k with
  | O => 1
  | S k' => (1 + eta) * factor k'
  end.

(** [x] and [y], neither negative, are within [k] roundings of each
    other: each is at most [(1 + eta) ^ k] times the other. *)
Definition within (k : nat) (x y : Q) : Prop :=
  0 <= x /\ 0 <= y /\ x <= factor k * y /\ y <= factor k * x.

(** The unit in the last place of [x]. *)
Definition ulp (x : Q) : Q := pow2 (exponent x).

Definition fadd (x y : Q) : Q := round (x + y).
Definition fsub (x y : Q) : Q := round (x - y).
Definition fmul (x y : Q) : Q := round (x * y).
Definition fdiv (x y : Q) : Q := round (x / y).

(** An integer converted to a double. *)
Definition of_int (z : Z) : Q := round (inject_Z z).

(** [np.sqrt] on a double that is not negative (a variance): the double
    nearest to the square root. *)
Definition fsqrt (x : Q) : Q :=
  if Qle_bool x 0 then 0
  else
    (* [2^l <= x < 2^(l+1)], and [2^104 <= x / 4^e < 2^106] *)
    let l0 := (Z.log2 (Qnum x) - Z.log2 (Zpos (Qden x)) - 1)%Z in
    let l := if Qle_bool (pow2 (l0 + 1)) x then (l0 + 1)%Z else l0 in
    let e := ((l - 104) / 2)%Z in
    let y := x * pow2 (- (2 * e)) in
    let m := Z.sqrt (Qfloor y) in
    let m' := match y * 4 ?= inject_Z ((2 * m + 1) * (2 * m + 1)) with
              | Lt => m
              | Eq => if Z.even m then m else (m + 1)%Z
              | Gt => (m + 1)%Z
              end in
    Qred (inject_Z m' * pow2 e).

(** *** NumPy's sum of a contiguous array of doubles

    [np.add.reduce] adds the pairwise sum of the array to its initial
    value 0.  The pairwise sum runs through fewer than 8 numbers in
    order; up to 128 numbers it keeps 8 running sums, adds them as a
    tree and then adds what is left over; above 128 it halves the array
    at a multiple of 8. *)

(** [for (i = 0; i < n; i++) res += a[i]] *)
Definition sum_from (res : Q) (a : list Q) : Q := fold_left fadd a res.

(** [r[j] += a[i + j]], [j = 0 .. 7] *)
Fixpoint add_lanes (r a : list Q) : list Q :=
  match r, a with
  | x :: r', y :: a' => fadd x y :: add_lanes r' a'
  | _, _ => r
  end.

(** [for (i = 8; i < n - (n % 8); i += 8)], as many times as [blocks]
    says; the running sums and what is left of the array. *)
Fixpoint add_blocks (blocks : nat) (r a : list Q) : list Q * list Q :=
  match blocks with
  | O => (r, a)
  | S blocks' => add_blocks blocks' (add_lanes r (firstn 8 a)) (skipn 8 a)
  end.

(** [((r[0] + r[1]) + (r[2] + r[3])) + ((r[4] + r[5]) + (r[6] + r[7]))] *)
Definition add_tree (r : list Q) : Q :=
  match r with
  | [r0; r1; r2; r3; r4; r5; r6; r7] =>
      fadd (fadd (fadd r0 r1) (fadd r2 r3)) (fadd (fadd r4 r5) (fadd r6 r7))
  | _ => 0
  end.

Definition pairwise_block (a : list Q) : Q :=
  let '(r, rest) :=
    add_blocks (List.length a / 8 - 1) (firstn 8 a) (skipn 8 a) in
  sum_from (add_tree r) rest.

(** [fuel] bounds the depth of the halving. *)
Fixpoint pairwise_sum (fuel : nat) (a : list Q) : Q :=
  let n := List.length a in
  if (n <? 8)%nat then sum_from 0 a
  else if (n <=? 128)%nat then pairwise_block a
  else
    match fuel with
    | O => 0
    | S fuel' =>
        let n2 := (n / 2 - (n / 2) mod 8)%nat in
        fadd (pairwise_sum fuel' (firstn n2 a))
             (pairwise_sum fuel' (skipn n2 a))
    end.

Definition np_sum (a : list Q) : Q :=
  fadd 0 (pairwise_sum (List.length a) a).

(** [np.mean]: the sum over the count. *)
Definition np_mean (a : list Q) : Q := fdiv (np_sum a) (of_int (len a)).

(** [np.var]: the mean is subtracted, the deviations are squared and
    summed, the sum is divided by the count. *)
Definition np_var (a : list Q) : Q :=
  let arrmean := fdiv (np_sum a) (of_int (len a)) in
  let x := map (fun v => fsub v arrmean) a in
  let x := map (fun v => fmul v v) x in
  fdiv (np_sum x) (of_int (len a)).

Definition np_std (a : list Q) : Q := fsqrt (np_var a).

(** [np.diff(r_peaks) / fs] *)
Definition rr_intervals_s (r_peaks : list Z) (fs : Q) : list Q :=
  map (fun d => fdiv (of_int d) fs) (np_diffZ r_peaks).

(** The literals [0.15] and [0.08] of the script are doubles. *)
Definition irregular_cv : Q := round 0.15.
Definition borderline_cv : Q := round 0.08.

Definition detect_arrhythmia (r_peaks : list Z) (fs : Q) (verbose : bool)
  : string * arrhythmia_metrics :=
  if (len r_peaks <? 3)%Z then
    ("Insufficient data"%string,
     {| cv := surd_of_Q 0; mean_hr := 0;
        mean_rr_ms := None; std_rr_ms := None |})
  else
    (* Calculate RR interval statistics *)
    let rr_intervals := rr_intervals_s r_peaks fs in
    let mean_rr := np_mean rr_intervals in
    let std_rr := np_std rr_intervals in
    let cv := if Qltb 0 mean_rr then fdiv std_rr mean_rr else 0 in
    let hr_values := map (fun rr => fdiv 60 rr) rr_intervals in
    let mean_hr := np_mean hr_values in
    (* Rate-based classification *)
    let rhythm_status := rate_tier mean_hr in
    (* Override with irregularity assessment (higher priority) *)
    let rhythm_status :=
      if Qle_bool irregular_cv cv then "Flagged: Irregular Rhythm"%string
      else if Qle_bool borderline_cv cv && contains "Normal" rhythm_status
           then "Borderline: Mild Irregularity"%string
           else rhythm_status in
    (rhythm_status,
     {| cv := surd_of_Q cv; mean_hr := mean_hr;
        mean_rr_ms := Some (fmul mean_rr 1000);
        std_rr_ms := Some (surd_of_Q (fmul std_rr 1000)) |}).

(** The classifier as the specification words it: [cv = std_rr /
    mean_rr]; the irregularity check first, then the rate tier, a
    normal tier with [cv >= 0.08] becoming borderline. *)
Definition cv_spec (r_peaks : list Z) (fs : Q) : Q :=
  fdiv (np_std (rr_intervals_s r_peaks fs))
       (np_mean (rr_intervals_s r_peaks fs)).

Definition mean_hr_spec (r_peaks : list Z) (fs : Q) : Q :=
  np_mean (map (fun rr => fdiv 60 rr) (rr_intervals_s r_peaks fs)).

Definition classify_rhythm_spec (r_peaks : list Z) (fs : Q) : string :=
  if (len r_peaks <? 3)%Z then "Insufficient data"%string
  else if Qle_bool irregular_cv (cv_spec r_peaks fs)
  then "Flagged: Irregular Rhythm"%string
  else if Qltb (mean_hr_spec r_peaks fs) 60 then "Bradycardia"%string
  else if Qltb 100 (mean_hr_spec r_peaks fs) then "Tachycardia"%string
  else if Qle_bool borderline_cv (cv_spec r_peaks fs)
  then "Borderline: Mild Irregularity"%string
  else "Normal Sinus Rhythm"%string.

(** Calculate heart rate metrics *)
Definition heart_rate_metrics (r_peaks : list Z) (fs threshold : Q)
  : detection_metrics :=
  if (2 <=? len r_peaks)%Z then
    let rr_intervals := rr_intervals_s r_peaks fs in
    let avg_rr := np_mean rr_intervals in
    let avg_bpm := if Qltb 0 avg_rr then fdiv 60 avg_rr else 0 in
    {| num_peaks := len r_peaks;
       avg_heart_rate_bpm := avg_bpm;
       avg_rr_interval_s := Some avg_rr;
       rr_std_s := Some (surd_of_Q (np_std rr_intervals));
       final_threshold := threshold |}
  else
    {| num_peaks := len r_peaks; avg_heart_rate_bpm := 0;
       avg_rr_interval_s := None; rr_std_s := None;
       final_threshold := threshold |}.

End Binary64.

(** *** The same steps in the Standard Library's IEEE 754 binary64 *)

Definition ieee_of_int (z : Z) : spec_float :=
  binary_normalize 53 1024 z 0 false.
Definition ieee_add : spec_float -> spec_float -> spec_float :=
  SFadd 53 1024.
Definition ieee_sub : spec_float -> spec_float -> spec_float :=
  SFsub 53 1024.
Definition ieee_mul : spec_float -> spec_float -> spec_float :=
  SFmul 53 1024.
Definition ieee_div : spec_float -> spec_float -> spec_float :=
  SFdiv 53 1024.
Definition ieee_sqrt : spec_float -> spec_float := SFsqrt 53 1024.

(** The number a finite double stands for. *)
Definition ieee_value (x : spec_float) : option Q :=
  match x with
  | S754_zero _ => Some 0
  | S754_finite s m e =>
      Some (Qred ((if s then -1 else 1) * inject_Z (Zpos m) * Binary64.pow2 e))
  | _ => None
  end.

(** [np.sum] of two doubles: from [-0.0] in order, added to [0.0]. *)
Definition ieee_sum2 (a b : spec_float) : spec_float :=
  ieee_add (S754_zero false) (ieee_add (ieee_add (S754_zero true) a) b).

(** [np.mean] and [np.std] of two doubles. *)
Definition ieee_mean2 (a b : spec_float) : spec_float :=
  ieee_div (ieee_sum2 a b) (ieee_of_int 2).

Definition ieee_std2 (a b : spec_float) : spec_float :=
  let arrmean := ieee_div (ieee_sum2 a b) (ieee_of_int 2) in
  let xa := ieee_sub a arrmean in
  let xb := ieee_sub b arrmean in
  ieee_sqrt (ieee_div (ieee_sum2 (ieee_mul xa xa) (ieee_mul xb xb))
               (ieee_of_int 2)).

(** The heart rate and the coefficient of variation of three peaks. *)
Definition ieee_avg_bpm3 (p0 p1 p2 fs : Z) : spec_float :=
  let rr1 := ieee_div (ieee_of_int (p1 - p0)) (ieee_of_int fs) in
  let rr2 := ieee_div (ieee_of_int (p2 - p1)) (ieee_of_int fs) in
  ieee_div (ieee_of_int 60) (ieee_mean2 rr1 rr2).

Definition ieee_cv3 (p0 p1 p2 fs : Z) : spec_float :=
  let rr1 := ieee_div (ieee_of_int (p1 - p0)) (ieee_of_int fs) in
  let rr2 := ieee_div (ieee_of_int (p2 - p1)) (ieee_of_int fs) in
  ieee_div (ieee_std2 rr1 rr2) (ieee_mean2 rr1 rr2).

(** Pseudo-random doubles to compare the two roundings on: a linear
    congruential sequence gives signs, significands and exponents. *)
Fixpoint lcg (n : nat) (s : Z) : list Z :=
  match n with
  | O => []
  | S n' =>
      let s' := ((s * 6364136223846793005 + 1442695040888963407)
                   mod 2 ^ 64)%Z in
      s' :: lcg n' s'
  end.

(** A double with 53 significant bits and an exponent of its last place
    between -84 and 43. *)
Definition sample_double (s : Z) : spec_float :=
  S754_finite (Z.odd (s / 2 ^ 63))
    (Z.to_pos (2 ^ 52 + (s / 2 ^ 6) mod 2 ^ 52)) (s mod 128 - 84).

Definition same_value (x : spec_float) (q : Q) : bool :=
  match ieee_value x with
  | Some v => Qeq_bool v q
  | None => false
  end.

Definition value_of (x : spec_float) : Q :=
  match ieee_value x with
  | Some v => v
  | None => 0
  end.

(** Sum, difference, product, quotient and square root agree. *)
Definition agree_on (a b : spec_float) : bool :=
  same_value (ieee_add a b) (Binary64.fadd (value_of a) (value_of b))
  && same_value (ieee_sub a b) (Binary64.fsub (value_of a) (value_of b))
  && same_value (ieee_mul a b) (Binary64.fmul (value_of a) (value_of b))
  && same_value (ieee_div a b) (Binary64.fdiv (value_of a) (value_of b))
  && same_value (ieee_sqrt (SFabs a)) (Binary64.fsqrt (Qabs (value_of a))).

Fixpoint agree_on_pairs (l : list Z) : bool :=
  match l with
  | s :: (t :: _) as l' =>
      agree_on (sample_double s) (sample_double t) && agree_on_pairs l'
  | _ => true
  end.

(** [mean(diff(r_peaks))], in samples. *)
Definition mean_diff (r_peaks : list Z) : Q :=
  np_mean (map inject_Z (np_diffZ r_peaks)).

(** Consecutive peaks are more than [refractory_samples - search_window]
    samples apart. *)
Definition spaced (fs : Q) (r_peaks : list Z) : Prop :=
  Forall (fun d => (refractory_samples fs - search_window fs < d)%Z)
         (np_diffZ r_peaks).

(** A value of [noise_peaks] entered at a strict local maximum. *)
Definition from_local_max (integrated : list Q) (x : Q) : Prop :=
  exists j, is_local_max integrated j = true /\ x = at_ integrated j.

(** A script function whose value and printed lines do not depend on
    what is already on standard output. *)
Definition insensitive {A} (m : Py A) : Prop :=
  exists (r : result A) (printed : stdout),
    forall out, m out = (r, out ++ printed).

(** Two states of the thresholding loop, the second on a signal scaled
    by [alpha]: same position and peaks, threshold and recorded peak
    values scaled by [alpha * alpha]. *)
Definition scaled_state (alpha : Q) (st st' : detector_state) : Prop :=
  st_i st' = st_i st
  /\ st_r_peaks st' = st_r_peaks st
  /\ st_threshold st' == alpha * alpha * st_threshold st
  /\ scaled (alpha * alpha) (st_signal_peaks st) (st_signal_peaks st')
  /\ scaled (alpha * alpha) (st_noise_peaks st) (st_noise_peaks st').

(** ** Sample inputs *)

Definition zeros (k : nat) : list Q := repeat 0 k.

(** A flat recording of 100 samples. *)
Definition flat_line : list Q := zeros 100.

(** Peak lists: two peaks, and five peaks about 0.8 to 1 s apart at
    250 Hz. *)
Definition two_peaks : list Z := [20; 60]%Z.
Definition five_peaks : list Z := [100; 300; 550; 750; 1000]%Z.

(** The three dictionaries the morphology functions return without
    measuring. *)
Definition qrs_insufficient : qrs_metrics :=
  {| mean_qrs_ms := 0; std_qrs_ms := surd_of_Q 0;
     qrs_interpretation := "Insufficient data" |}.

Definition qrs_could_not_detect : qrs_metrics :=
  {| mean_qrs_ms := 80; std_qrs_ms := surd_of_Q 0;
     qrs_interpretation := "Could not detect" |}.

Definition qt_not_available : qt_metrics :=
  {| mean_qt_ms := 0; mean_qtc_bazett_ms := surd_of_Q 0;
     qt_risk_flag := false; qt_interpretation := "N/A" |}.

(** Metric bundles: a wide QRS, a fast and a slow detection result, and
    the HRV bundle of a short peak list. *)
Definition wide_qrs : qrs_metrics :=
  {| mean_qrs_ms := 140; std_qrs_ms := surd_of_Q 0;
     qrs_interpretation := "Wide QRS (BBB/Ventricular)" |}.

Definition detection_at (rate : Q) : detection_metrics :=
  {| num_peaks := 10; avg_heart_rate_bpm := rate;
     avg_rr_interval_s := Some (60 / rate); rr_std_s := Some (surd_of_Q 0);
     final_threshold := 1 |}.

Definition hrv_short : hrv_metrics := calculate_hrv_metrics two_peaks 250 false.

(** A recording of 87 samples at 250 Hz with two deep, narrow troughs,
    each next to a broad positive wave: the energy of the derivative is
    at the troughs, the maximum of the signal on the waves between. *)
Definition close_beats : list Q :=
  zeros 1 ++ [-20; -20] ++ zeros 5
  ++ [2; 4; 6; 8; 10; 12; 14; 16; 18; 20; 22; 24;
      22; 20; 18; 16; 14; 12; 10; 8; 6; 4; 2]
  ++ zeros 16 ++ [2; 4; 6; 8; 10; 12; 14; 16; 14; 12; 10; 8; 6; 4; 2]
  ++ zeros 1 ++ [-20; -20] ++ zeros 20 ++ [-1] ++ zeros 1.

(** The peak list of a detector run, if it returned. *)
Definition detected_peaks (run : result (list Z * detection_metrics) * stdout)
  : option (list Z) :=
  match fst run with
  | Ok (r_peaks, _) => Some r_peaks
  | Raise _ => None
  end.

(** A small integrated signal with two bumps, and the loop at the second
    bump right after a peak was accepted at the first. *)
Definition two_bumps : list Q := [0; 5; 0; 5; 0].

Definition at_second_bump : detector_state :=
  {| st_i := 3; st_threshold := 1; st_r_peaks := [1%Z];
     st_signal_peaks := [5]; st_noise_peaks := [] |}.

(** A strip of 50 samples: one sample short of [window_samples + 1] at
    250 Hz. *)
Definition short_strip : list Q := zeros 20 ++ [1; 2; 3; 2; 1] ++ zeros 25.

(** The cleaned signal of a preprocessing run, if it returned. *)
Definition cleaned_of (run : result (list Q * filter_metrics) * stdout)
  : option (list Q) :=
  match fst run with
  | Ok (cleaned, _) => Some cleaned
  | Raise _ => None
  end.

(** Arrays for the thresholding loop alone, 100 samples at 250 Hz: an
    integrated signal with strict local maxima 10 at 20 and 90, and a
    signal that is zero except for two samples of 5 at 39 and 70. *)
Definition integrated_20_90 : list Q :=
  zeros 20 ++ [10] ++ zeros 69 ++ [10] ++ zeros 9.

Definition spikes_39_70 : list Q :=
  zeros 39 ++ [5] ++ zeros 30 ++ [5] ++ zeros 29.

(** ** Further notions used in the properties *)

(** A peak that indexes the signal and passed the amplitude gate. *)
Definition gated_peak (signal_array : list Q) (p : Z) : Prop :=
  (0 <= p < len signal_array)%Z
  /\ amplitude_ok signal_array (at_ signal_array p) = true.

(** ** Notions for whole runs of the pipeline *)

(** [m] returns [x] after printing exactly [printed], whatever the
    standard output it starts on. *)
Definition runs {A} (m : Py A) (x : A) (printed : stdout) : Prop :=
  forall out, m out = (Ok x, out ++ printed).

(** Two script functions with the same outcome on any two standard
    outputs. *)
Definition same_result {A} (m1 m2 : Py A) : Prop :=
  forall out1 out2, fst (m1 out1) = fst (m2 out2).

(** The lines of a verbose run of [process_ecg_complete] that returns
    [res]. *)
Definition pipeline_log (raw_voltages : list Q) (sample_rate : Q)
  (res : results) : stdout :=
  [LogBanner; LogTitle; LogBanner;
   LogPreprocessInput (len raw_voltages) sample_rate;
   LogDetectorStart (len (res_cleaned_signal res));
   LogBanner;
   LogPeaks (len (res_r_peak_indices res));
   LogHeartRate (bpm (res_metrics res));
   LogRhythm (rhythmStatus (res_metrics res));
   LogConfidence (confidence (res_metrics res));
   LogBanner].

(** The string literals of the script for rhythm labels and for
    warnings. *)
Definition rhythm_labels : list string :=
  ["Insufficient data"; "Bradycardia"; "Tachycardia"; "Normal Sinus Rhythm";
   "Flagged: Irregular Rhythm"; "Borderline: Mild Irregularity";
   wct_label]%string.

Definition warning_texts : list string :=
  [wct_warning; "Wide QRS (BBB/Ventricular)"; "Prolonged QTc";
   "High Risk (Long QT)"; low_hrv_warning]%string.

(** * The TypeScript side

    JavaScript numbers are rationals here as Python floats are above
    (finite samples and rates); where the code itself produces
    [Infinity] or [NaN], the type [js_number] has them. *)

Inductive js_number : Type :=
| NaN
| NegInfinity
| Finite (q : Q)
| Infinity.

(** [a < b] *)
Definition js_ltb (a b : js_number) : bool :=
  match a, b with
  | NaN, _ | _, NaN => false
  | NegInfinity, NegInfinity => false
  | NegInfinity, _ => true
  | Finite x, Finite y => Qltb x y
  | Finite _, Infinity => true
  | Finite _, NegInfinity => false
  | Infinity, _ => false
  end.

(** [a !== b] *)
Definition js_neqb (a b : js_number) : bool :=
  match a, b with
  | NaN, _ | _, NaN => true
  | NegInfinity, NegInfinity => false
  | Infinity, Infinity => false
  | Finite x, Finite y => negb (Qeq_bool x y)
  | _, _ => true
  end.

(** [a - b] *)
Definition js_sub (a b : js_number) : js_number :=
  match a, b with
  | NaN, _ | _, NaN => NaN
  | Finite x, Finite y => Finite (x - y)
  | Infinity, Infinity => NaN
  | NegInfinity, NegInfinity => NaN
  | Infinity, _ => Infinity
  | NegInfinity, _ => NegInfinity
  | Finite _, Infinity => NegInfinity
  | Finite _, NegInfinity => Infinity
  end.

(** ** dataParser.ts *)

Inductive ecg_format : Type := mitbih | csv | xml | unknown.

(** [ParsedECGData], without the optional [metadata]. *)
Record ParsedECGData : Type := {
  voltages : list Q;
  sampleRate : Q;
  duration : js_number;
  format : ecg_format
}.

(** The lines of the row loop of [parseMITBIH_CSV] that turn the number
    read from the lead column into a stored voltage: ADC to millivolt
    conversion, then clamping of outliers. *)
Definition mitbih_voltage (voltage : Q) : Q :=
  (* ADC to millivolt conversion for raw MIT-BIH data *)
  let voltage := if Qltb 100 voltage then (voltage - 1024) / 200
                 else voltage in
  (* Clamp outliers *)
  let voltage := if Qltb 5 voltage then 5 else voltage in
  let voltage := if Qltb voltage (-5) then -5 else voltage in
  voltage.

(** [parseMITBIH_CSV] from its row loop on.  [lead_values] holds, for
    each line after the header, what [parseFloat] gave for the lead
    column: [None] for a line the loop skips (blank, fewer than two
    values, or not a number).  [None] as a result is the [throw] on an
    empty [voltages]. *)
Definition parseMITBIH_rows (lead_values : list (option Q))
  : option ParsedECGData :=
  let sampleRate := 360 in
  let voltages :=
    flat_map (fun v => match v with
                       | Some voltage => [mitbih_voltage voltage]
                       | None => []
                       end) lead_values in
  if (len voltages =? 0)%Z then None
  else
    let duration := inject_Z (len voltages) / sampleRate in
    Some {| voltages := voltages; sampleRate := sampleRate;
            duration := Finite duration; format := mitbih |}.

Definition warn_short : string :=
  "Very short signal (< 100 samples). Results may be unreliable.".
Definition warn_large : string :=
  "Voltage values seem unusually large. Data might be in raw ADC units instead of mV.".
Definition warn_small : string :=
  "Voltage values seem unusually small. Check units.".
Definition warn_flat : string :=
  "Signal appears flat (no variation detected).".
Definition warn_rate_low : string :=
  "Sample rate < 100 Hz. ECG analysis requires at least 100 Hz.".
Definition warn_rate_high : string :=
  "Sample rate > 1000 Hz. Consider downsampling for performance.".
Definition warn_duration : string :=
  "Signal duration < 2 seconds. At least 4-5 seconds recommended for reliable analysis.".

(** [if (c) warnings.push(w)] *)
Definition push_if (c : bool) (w : string) (warnings : list string)
  : list string :=
  if c then warnings ++ [w] else warnings.

(** The loop that computes the amplitude range: [(max, min)]. *)
Definition amplitude_range (voltages : list Q) : js_number * js_number :=
  fold_left
    (fun '(max, min) v =>
       (if js_ltb max (Finite v) then Finite v else max,
        if js_ltb (Finite v) min then Finite v else min))
    voltages (NegInfinity, Infinity).

Definition validateECGData (data : ParsedECGData) : bool * list string :=
  let warnings : list string := [] in
  let warnings :=
    push_if (len (voltages data) <? 100)%Z warn_short warnings in
  (* Compute amplitude range *)
  let '(max, min) := amplitude_range (voltages data) in
  let warnings :=
    push_if (js_ltb (Finite 100) max || js_ltb min (Finite (-100)))
            warn_large warnings in
  let warnings :=
    push_if (js_ltb max (Finite 0.1) && js_ltb (Finite (-0.1)) min
             && js_neqb max min)
            warn_small warnings in
  let range := js_sub max min in
  let warnings := push_if (js_ltb range (Finite 0.001)) warn_flat warnings in
  let warnings :=
    push_if (Qltb (sampleRate data) 100) warn_rate_low warnings in
  let warnings :=
    push_if (Qltb 1000 (sampleRate data)) warn_rate_high warnings in
  let warnings :=
    push_if (js_ltb (duration data) (Finite 2)) warn_duration warnings in
  let valid :=
    (len warnings =? 0)%Z
    || forallb (fun w => negb (contains "requires" w)) warnings in
  (valid, warnings).

(** ** ecgProcessor.ts: from Python results to application data *)

(** [normalizeRhythmStatus] *)
Definition normalizeRhythmStatus (status : string) : string :=
  if contains "Wide-Complex" status then "Wide-Complex Tachycardia"
  else if contains "Normal Sinus" status then "Normal Sinus Rhythm"
  else if contains "Bradycardia" status then "Bradycardia"
  else if contains "Tachycardia" status then "Tachycardia"
  else if contains "Irregular" status || contains "Flagged" status
       then "Flagged: Irregular Rhythm"
  else "Analyzing...".

(** [Math.max] and [Math.min] on two finite numbers. *)
Definition Math_max (a b : Q) : Q := if Qltb a b then b else a.
Definition Math_min (a b : Q) : Q := if Qltb b a then b else a.

(** [calculateConfidence], on a finite [snr_db]. *)
Definition calculateConfidence (filterMetrics : filter_metrics) : Q :=
  let snr_db := snr_db filterMetrics in
  if Qle_bool 30 snr_db then 98
  else if Qle_bool 25 snr_db then 95
  else if Qle_bool 20 snr_db then 92
  else if Qle_bool 15 snr_db then 87
  else if Qle_bool 10 snr_db then 80
  else Math_max 60 (Math_min 95 (60 + snr_db * 2)).

Record ECGPoint : Type := {
  time : Q;
  voltage : Q;
  clean : Q;
  isPeak : bool
}.

(** [PatientMetrics], without [lastScanDate] (the clock). *)
Record PatientMetrics : Type := {
  pm_bpm : Q;
  pm_rhythmStatus : string;
  pm_confidence : Q;
  pm_qrsWidth : option Q;
  pm_qtcBazett : option surd;
  pm_sdnn : option surd;
  pm_rmssd : option surd;
  pm_pnn50 : option Q;
  pm_clinicalWarnings : list string
}.

Record ProcessingResult : Type := {
  pr_data : list ECGPoint;
  pr_metrics : PatientMetrics;
  pr_filter_metrics : filter_metrics;
  pr_detection_metrics : detection_metrics;
  pr_arrhythmia_metrics : arrhythmia_metrics;
  pr_qrs_metrics : qrs_metrics;
  pr_qt_metrics : qt_metrics;
  pr_hrv_metrics : hrv_metrics
}.

(** [x.toFixed(3)]: the multiple of 0.001 nearest to the double [x], the
    larger magnitude on a tie. *)
Definition toFixed3 (x : Q) : Q :=
  let round_up y := inject_Z (Qfloor (y * 1000 + (1 # 2))) / 1000 in
  if Qltb x 0 then - round_up (- x) else round_up x.

(** [x || undefined] on a number: zero is falsy. *)
Definition or_undefined (x : Q) : option Q :=
  if Qeq_bool x 0 then None else Some x.

Definition surd_or_undefined (s : surd) : option surd :=
  if Qeq_bool (surd_ssq s) 0 then None else Some s.

(** [peakSet.has(i)] *)
Definition has (peakSet : list Z) (i : Z) : bool :=
  existsb (Z.eqb i) peakSet.

(** [transformResults], for a non-zero [sample_rate]. *)
Definition transformResults (pythonResults : results) : ProcessingResult :=
  let cleaned_signal := res_cleaned_signal pythonResults in
  let sample_rate := res_sample_rate pythonResults in
  (* Build ECGPoint array *)
  let peakSet := res_r_peak_indices pythonResults in
  let data :=
    map (fun i =>
           {| (* parseFloat((i / sample_rate).toFixed(3)) *)
              time :=
                Binary64.round
                  (toFixed3 (Binary64.fdiv (inject_Z i) sample_rate));
              voltage := at_ cleaned_signal i;
              clean := at_ cleaned_signal i;
              isPeak := has peakSet i |})
        (range (len cleaned_signal)) in
  (* Format metrics *)
  let metrics :=
    {| pm_bpm := avg_heart_rate_bpm (res_detection_metrics pythonResults);
       pm_rhythmStatus :=
         normalizeRhythmStatus (res_rhythm_status pythonResults);
       pm_confidence :=
         calculateConfidence (res_filter_metrics pythonResults);
       pm_qrsWidth :=
         or_undefined (mean_qrs_ms (res_qrs_metrics pythonResults));
       pm_qtcBazett :=
         surd_or_undefined
           (mean_qtc_bazett_ms (res_qt_metrics pythonResults));
       pm_sdnn := surd_or_undefined (sdnn_ms (res_hrv_metrics pythonResults));
       pm_rmssd :=
         surd_or_undefined (rmssd_ms (res_hrv_metrics pythonResults));
       pm_pnn50 :=
         or_undefined (pnn50_percent (res_hrv_metrics pythonResults));
       pm_clinicalWarnings := res_clinical_warnings pythonResults |} in
  {| pr_data := data; pr_metrics := metrics;
     pr_filter_metrics := res_filter_metrics pythonResults;
     pr_detection_metrics := res_detection_metrics pythonResults;
     pr_arrhythmia_metrics := res_arrhythmia_metrics pythonResults;
     pr_qrs_metrics := res_qrs_metrics pythonResults;
     pr_qt_metrics := res_qt_metrics pythonResults;
     pr_hrv_metrics := res_hrv_metrics pythonResults |}.

(** ** The way from a request to the Python pipeline *)

Record ProcessingConfig : Type := {
  cfg_sampleRate : option Q;
  cfg_verbose : option bool
}.

(** [config.sampleRate || 250]: a missing or zero rate is replaced. *)
Definition sampleRate_or (config : ProcessingConfig) (default : Q) : Q :=
  match cfg_sampleRate config with
  | Some fs => if Qeq_bool fs 0 then default else fs
  | None => default
  end.

(** [config.verbose || false] *)
Definition verbose_or_false (config : ProcessingConfig) : bool :=
  match cfg_verbose config with
  | Some v => v
  | None => false
  end.

(** The configuration [ECGProcessor.processECG] posts to the worker. *)
Definition posted_config (config : ProcessingConfig) : ProcessingConfig :=
  {| cfg_sampleRate := Some (sampleRate_or config 250);
     cfg_verbose := Some (verbose_or_false config) |}.

(** The configuration [processECGFile] asks for. *)
Definition file_config (parsedData : ParsedECGData) : ProcessingConfig :=
  {| cfg_sampleRate := Some (sampleRate parsedData);
     cfg_verbose := Some true |}.

(** The messages of the worker to the main thread, with the fields
    [data], [error] and [requestId] that the processor reads; an absent
    [requestId] is the empty string, which is as falsy. *)
Inductive MainThreadMessage : Type :=
| PYODIDE_LOADING_PROGRESS
| PYODIDE_READY
| ECG_PROCESSED (data : results) (requestId : string)
| PREPROCESSING_COMPLETE (requestId : string)
| ERROR (error : py_error) (requestId : string)
| OTHER_MESSAGE.

(** The worker's [processECG], once Pyodide is ready: the message it
    posts. *)
Definition worker_processECG `{Kernels} (rawVoltages : list Q)
  (config : ProcessingConfig) (requestId : string) (out : stdout)
  : MainThreadMessage * stdout :=
  match process_ecg_complete rawVoltages (sampleRate_or config 250)
          (verbose_or_false config) out with
  | (Ok results, out') => (ECG_PROCESSED results requestId, out')
  | (Raise error, out') => (ERROR error requestId, out')
  end.

(** ** ecgProcessor.ts: the state of the processor

    The fields of the class, with the callbacks of [pendingRequests]
    left out: what the calls and the messages do to [status], to the
    keys of the map and to the two nullable fields. *)

Inductive WorkerStatus : Type :=
| uninitialized
| initializing
| ready
| processing
| error.

Record ECGProcessor : Type := {
  worker : bool;                    (* a [Worker], or [null] *)
  status : WorkerStatus;
  pendingRequests : list string;    (* the keys of the map *)
  initializationPromise : bool      (* a promise, or [null] *)
}.

Definition Map_has (m : list string) (k : string) : bool :=
  existsb (String.eqb k) m.
Definition Map_set (m : list string) (k : string) : list string :=
  if Map_has m k then m else m ++ [k].
Definition Map_delete (m : list string) (k : string) : list string :=
  filter (fun k' => negb (String.eqb k k')) m.

(** [isReady] *)
Definition isReady (p : ECGProcessor) : bool :=
  match status p with
  | ready => true
  | _ => false
  end.

(** [initialize]; [worker_ok] tells whether the [try] block, which
    creates the worker, runs through. *)
Definition initialize (worker_ok : bool) (p : ECGProcessor) : ECGProcessor :=
  if initializationPromise p then p
  else if isReady p then p
  else if worker_ok then
    {| worker := true; status := initializing;
       pendingRequests := Map_set (pendingRequests p) "__init__";
       initializationPromise := true |}
  else
    {| worker := worker p; status := error;
       pendingRequests := pendingRequests p;
       initializationPromise := true |}.

(** What a call of [processECG] or [preprocessOnly] does at once: it
    throws, or it posts its request to the worker. *)
Inductive call_outcome : Type :=
| Threw (message : string)
| Posted (config : ProcessingConfig) (requestId : string).

Definition processECG (config : ProcessingConfig) (requestId : string)
  (p : ECGProcessor) : call_outcome * ECGProcessor :=
  if negb (isReady p) then
    (Threw "ECGProcessor not initialized. Call initialize() first.", p)
  else if negb (worker p) then (Threw "Worker not available", p)
  else
    (Posted (posted_config config) requestId,
     {| worker := worker p; status := processing;
        pendingRequests := Map_set (pendingRequests p) requestId;
        initializationPromise := initializationPromise p |}).

Definition preprocessOnly (config : ProcessingConfig) (requestId : string)
  (p : ECGProcessor) : call_outcome * ECGProcessor :=
  if negb (isReady p) then (Threw "ECGProcessor not initialized", p)
  else if negb (worker p) then (Threw "Worker not available", p)
  else
    (Posted config requestId,
     {| worker := worker p; status := status p;
        pendingRequests := Map_set (pendingRequests p) requestId;
        initializationPromise := initializationPromise p |}).

(** [handleWorkerMessage] *)
Definition handleWorkerMessage (e : MainThreadMessage) (p : ECGProcessor)
  : ECGProcessor :=
  match e with
  | PYODIDE_LOADING_PROGRESS => p
  | PYODIDE_READY =>
      {| worker := worker p;
         (* the [onComplete] of the initialisation request *)
         status := if Map_has (pendingRequests p) "__init__" then ready
                   else status p;
         pendingRequests := Map_delete (pendingRequests p) "__init__";
         initializationPromise := initializationPromise p |}
  | ECG_PROCESSED _ requestId | PREPROCESSING_COMPLETE requestId =>
      {| worker := worker p; status := ready;
         pendingRequests := Map_delete (pendingRequests p) requestId;
         initializationPromise := initializationPromise p |}
  | ERROR _ requestId =>
      let pending :=
        if String.eqb requestId "" then pendingRequests p
        else Map_delete (pendingRequests p) requestId in
      {| worker := worker p; status := error;
         pendingRequests := Map_delete pending "__init__";
         initializationPromise := initializationPromise p |}
  | OTHER_MESSAGE => p
  end.

(** [shutdown] *)
Definition shutdown (p : ECGProcessor) : ECGProcessor :=
  {| worker := false; status := uninitialized; pendingRequests := [];
     initializationPromise := false |}.

(** The calls a client can make, other than [shutdown]. *)
Inductive api_call : Type :=
| Call_initialize (worker_ok : bool)
| Call_processECG (config : ProcessingConfig) (requestId : string)
| Call_preprocessOnly (config : ProcessingConfig) (requestId : string).

Definition run_call (c : api_call) (p : ECGProcessor)
  : option call_outcome * ECGProcessor :=
  match c with
  | Call_initialize worker_ok => (None, initialize worker_ok p)
  | Call_processECG config requestId =>
      let '(o, p') := processECG config requestId p in (Some o, p')
  | Call_preprocessOnly config requestId =>
      let '(o, p') := preprocessOnly config requestId p in (Some o, p')
  end.

(** A sequence of calls: what each call did, and the processor after
    the last. *)
Fixpoint run_calls (cs : list api_call) (p : ECGProcessor)
  : list (option call_outcome) * ECGProcessor :=
  match cs with
  | [] => ([], p)
  | c :: rest =>
      let '(o, p') := run_call c p in
      let '(os, p'') := run_calls rest p' in
      (o :: os, p'')
  end.

(** One request from [processECG] to the reply of the worker: the
    processor after the reply was handled. *)
Definition process_round_trip `{Kernels} (rawVoltages : list Q)
  (config : ProcessingConfig) (requestId : string) (out : stdout)
  (p : ECGProcessor) : ECGProcessor :=
  match processECG config requestId p with
  | (Threw _, p') => p'
  | (Posted posted requestId', p') =>
      handleWorkerMessage
        (fst (worker_processECG rawVoltages posted requestId' out)) p'
  end.

(** The texts [validateECGData] has literals for, and the values of the
    type [PatientMetrics['rhythmStatus']]. *)
Definition validation_texts : list string :=
  [warn_short; warn_large; warn_small; warn_flat; warn_rate_low;
   warn_rate_high; warn_duration].

Definition rhythm_statuses : list string :=
  ["Normal Sinus Rhythm"; "Flagged: Irregular Rhythm"; "Bradycardia";
   "Tachycardia"; "Wide-Complex Tachycardia"; "Analyzing..."]%string.

(** ** Sample recordings *)

(** What [parseMITBIH_CSV] makes of an ADC count of 1000, a skipped
    line and a reading of 50. *)
Definition mitbih_sample : ParsedECGData :=
  {| voltages := [mitbih_voltage 1000; mitbih_voltage 50];
     sampleRate := 360;
     duration := Finite (inject_Z 2 / 360);
     format := mitbih |}.

(** A flat recording of 100 samples at 100 Hz, and one of 20 samples at
    250 Hz. *)
Definition slow_recording : ParsedECGData :=
  {| voltages := flat_line; sampleRate := 100;
     duration := Finite 1; format := csv |}.

Definition brief_recording : ParsedECGData :=
  {| voltages := zeros 20; sampleRate := 250;
     duration := Finite (20 / 250); format := csv |}.

(** A call that posted nothing to the worker. *)
Definition refused (o : option call_outcome) : Prop :=
  match o with
  | Some (Posted _ _) => False
  | _ => True
  end.

(** A processor that is ready, with nothing pending. *)
Definition ready_processor : ECGProcessor :=
  {| worker := true; status := ready; pendingRequests := [];
     initializationPromise := true |}.

(** What [calculate_qt_interval] returns for five peaks on the flat
    line, where no slope is found. *)
Definition qt_of_flat_line : qt_metrics :=
  match calculate_qt_interval flat_line five_peaks 250 false with
  | Ok m => m
  | Raise _ => qt_not_available
  end.

(** ** SciPy's band-pass on two recordings

    Two recordings at 100 Hz, flat but for unit spikes, and the array
    SciPy returns for the detector's filter call on each,
    [filtfilt(b, a, x)] with [b, a = butter(2, [0.1, 0.3], btype='band')],
    to ten decimals.  The comparisons the detector makes on them are decided by
    margins above one part in ten thousand. *)

(** [n] samples, 1 at the indices [spikes] and 0 elsewhere. *)
Definition unit_spikes (n : Z) (spikes : list Z) : list Q :=
  map (fun i => if existsb (Z.eqb i) spikes then 1 else 0) (range n).

Definition two_spikes : list Q := unit_spikes 40 [9; 28]%Z.
Definition three_beats : list Q := unit_spikes 90 [9; 43; 71]%Z.

Definition two_spikes_band : list Q :=
  [(-0.0011317067); (-0.0111515552); (-0.0348090087); (-0.0745868105);
   (-0.1151840789); (-0.1263778810); (-0.0790064239); 0.0291420861;
   0.1518850034; 0.2112161661; 0.1655617518; 0.0543623661; (-0.0465402742);
   (-0.0926099681); (-0.0860746154); (-0.0536497817); (-0.0213652612);
   (-0.0015222545); 0.0060589633; 0.0052348353; (-0.0038219700);
   (-0.0246626156); (-0.0572621283); (-0.0892252662); (-0.0944929694);
   (-0.0463168037); 0.0575887290; 0.1726711717; 0.2227688933; 0.1675676647;
   0.0471764883; (-0.0620407515); (-0.1148311377); (-0.1126478472);
   (-0.0819278191); (-0.0493869541); (-0.0286905946); (-0.0203374133);
   (-0.0185742802); (-0.0178870610)].

Definition three_beats_band : list Q :=
  [(-0.0002640110); (-0.0095006007); (-0.0323979323); (-0.0715348022);
   (-0.1116902153); (-0.1227120040); (-0.0755359929); 0.0318818675;
   0.1531212837; 0.2099671982; 0.1608711186; 0.0457578639; (-0.0585274547);
   (-0.1062181681); (-0.0987494320); (-0.0632148439); (-0.0273856235);
   (-0.0057333757); 0.0013717772; 0.0009259653; (-0.0000142864);
   0.0018622770; 0.0061850549; 0.0109781993; 0.0146399229; 0.0166979739;
   0.0174064886; 0.0169562981; 0.0151027411; 0.0115403823; 0.0066980991;
   0.0021515674; (-0.0001210115); 0.0002894483; 0.0001438080;
   (-0.0075247188); (-0.0296293936); (-0.0657422090); (-0.1013520653);
   (-0.1086283523); (-0.0603486146); 0.0451306362; 0.1622436100;
   0.2141415446; 0.1604666991; 0.0418349167; (-0.0646936448);
   (-0.1134176848); (-0.1059177037); (-0.0693860853); (-0.0316011503);
   (-0.0069787428); 0.0041181250; 0.0084492491; 0.0123790389; 0.0180029071;
   0.0234830042; 0.0258018078; 0.0235718646; 0.0181747066; 0.0126215133;
   0.0087431400; 0.0044366619; (-0.0066697550); (-0.0313421682);
   (-0.0692212721); (-0.1058909427); (-0.1135674226); (-0.0650469875);
   0.0412684923; 0.1597018569; 0.2132236624; 0.1612546456; 0.0441921608;
   (-0.0610789056); (-0.1089707688); (-0.1011315847); (-0.0648241932);
   (-0.0279543104); (-0.0051285513); 0.0031317118; 0.0036646929;
   0.0033727890; 0.0054045869; 0.0091905018; 0.0125224093; 0.0136248711;
   0.0121052112; 0.0087634709; 0.0048515191].

Fixpoint Qlist_eqb (x y : list Q) : bool :=
  match x, y with
  | [], [] => true
  | a :: x', b :: y' => Qeq_bool a b && Qlist_eqb x' y'
  | _, _ => false
  end.

(** The values of [table] in place of those of [x], as far as both
    reach. *)
Fixpoint tabulated (table x : list Q) : list Q :=
  match table with
  | [] => x
  | v :: table' =>
      match x with
      | [] => []
      | _ :: x' => v :: tabulated table' x'
      end
  end.

Fixpoint tabulated_length (table x : list Q)
  : List.length (tabulated table x) = List.length x :=
  match table with
  | [] => eq_refl
  | v :: table' =>
      match x with
      | [] => eq_refl
      | _ :: x' => f_equal S (tabulated_length table' x')
      end
  end.

(** The tabulated output of a filter call; no table for any other
    call. *)
Definition filter_table (ba : iir_design) (x : list Q) : list Q :=
  match ba with
  | Butter 2 low high =>
      if Qeq_bool low 0.1 && Qeq_bool high 0.3 then
        if Qlist_eqb x two_spikes then two_spikes_band
        else if Qlist_eqb x three_beats then three_beats_band
        else []
      else []
  | _ => []
  end.

(** A library instance that answers the two tabulated calls as SciPy
    does, and leaves every other input unchanged. *)
Definition scipy_tabulated : Kernels :=
  {| filtfilt_kernel := fun ba x => tabulated (filter_table ba x) x;
     np_log10 := fun _ => 0;
     filtfilt_kernel_length :=
       fun ba x => tabulated_length (filter_table ba x) x |}.

(** * Properties *)

(** ** Comparisons and sums *)

Lemma Qltb_lt (x y : Q) : Qltb x y = true <-> x < y.
Proof.
  unfold Qltb. rewrite negb_true_iff, <- not_true_iff_false, Qle_bool_iff.
  split; [apply Qnot_le_lt | apply Qlt_not_le].
Qed.

Lemma Qltb_ge (x y : Q) : Qltb x y = false <-> y <= x.
Proof.
  unfold Qltb. rewrite negb_false_iff. apply Qle_bool_iff.
Qed.

Lemma Qsum_cons (x : Q) (t : list Q) : Qsum (x :: t) == x + Qsum t.
Proof.
  change (Qsum (x :: t)) with (Qred (x + Qsum t)). apply Qred_correct.
Qed.

Lemma Qsum_pos (l : list Q) :
  l <> [] -> Forall (fun x => 0 < x) l -> 0 < Qsum l.
Proof.
  intros Hne Hall. induction Hall as [|x t Hx Ht IH]; [congruence|].
  rewrite Qsum_cons. destruct t as [|y t'].
  - simpl. lra.
  - assert (0 < Qsum (y :: t')) by (apply IH; discriminate). lra.
Qed.

Lemma np_mean_pos (l : list Q) :
  l <> [] -> Forall (fun x => 0 < x) l -> 0 < np_mean l.
Proof.
  intros Hne Hall. unfold np_mean.
  apply Qlt_shift_div_l.
  - destruct l; [congruence|]. unfold len. simpl List.length.
    change 0 with (inject_Z 0). rewrite <- Zlt_Qlt. lia.
  - rewrite Qmult_0_l. now apply Qsum_pos.
Qed.

(** ** Surds are compared as the real numbers they stand for *)

Lemma Rsigned_sq_lt (x y : R) : (x < y)%R -> (Rsigned_sq x < Rsigned_sq y)%R.
Proof.
  intros Hxy. unfold Rsigned_sq.
  destruct (Rle_lt_dec 0 x) as [Hx|Hx]; destruct (Rle_lt_dec 0 y) as [Hy|Hy].
  - rewrite !Rabs_pos_eq by assumption. Lra.nra.
  - Lra.lra.
  - rewrite (Rabs_left x Hx), (Rabs_pos_eq y Hy). Lra.nra.
  - rewrite (Rabs_left x Hx), (Rabs_left y Hy). Lra.nra.
Qed.

Lemma Rsigned_sq_lt_iff (x y : R) :
  (Rsigned_sq x < Rsigned_sq y)%R <-> (x < y)%R.
Proof.
  split; [|apply Rsigned_sq_lt].
  intros H. destruct (Rlt_le_dec x y) as [Hlt|Hle]; [exact Hlt|].
  destruct Hle as [Hgt|Heq].
  - apply Rsigned_sq_lt in Hgt. Lra.lra.
  - subst. Lra.lra.
Qed.

Lemma Q2R_Qabs (q : Q) : Q2R (Qabs q) = Rabs (Q2R q).
Proof.
  destruct (Qlt_le_dec q 0) as [Hq|Hq].
  - rewrite (Qeq_eqR _ _ (Qabs_neg q (Qlt_le_weak _ _ Hq))), Q2R_opp.
    apply Qlt_Rlt in Hq. rewrite RMicromega.Q2R_0 in Hq.
    now rewrite Rabs_left.
  - rewrite (Qeq_eqR _ _ (Qabs_pos q Hq)).
    apply Qle_Rle in Hq. rewrite RMicromega.Q2R_0 in Hq.
    now rewrite Rabs_pos_eq.
Qed.

Lemma Q2R_signed_sq (q : Q) : Q2R (signed_sq q) = Rsigned_sq (Q2R q).
Proof. unfold signed_sq, Rsigned_sq. now rewrite Q2R_mult, Q2R_Qabs. Qed.

Lemma Q2R_surd_ssq (s : surd) :
  0 <= radicand s -> Q2R (surd_ssq s) = Rsigned_sq (surd_val s).
Proof.
  intros Hr. apply Qle_Rle in Hr. rewrite RMicromega.Q2R_0 in Hr.
  unfold surd_ssq, surd_val. rewrite Q2R_mult, Q2R_signed_sq.
  unfold Rsigned_sq. rewrite Rabs_mult.
  rewrite (Rabs_pos_eq (sqrt _)) by apply sqrt_pos.
  pose proof (sqrt_sqrt _ Hr) as Hs.
  transitivity (Q2R (coef s) * Rabs (Q2R (coef s))
                * (sqrt (Q2R (radicand s)) * sqrt (Q2R (radicand s))))%R.
  - now rewrite Hs.
  - ring.
Qed.

Lemma surd_ltb_spec (s : surd) (c : Q) :
  0 <= radicand s -> (surd_ltb s c = true <-> (surd_val s < Q2R c)%R).
Proof.
  intros Hr. unfold surd_ltb. rewrite Qltb_lt.
  rewrite <- Rsigned_sq_lt_iff, <- Q2R_signed_sq, <- Q2R_surd_ssq by exact Hr.
  split; [apply Qlt_Rlt | apply Rlt_Qlt].
Qed.

Lemma surd_gtb_spec (s : surd) (c : Q) :
  0 <= radicand s -> (surd_gtb s c = true <-> (Q2R c < surd_val s)%R).
Proof.
  intros Hr. unfold surd_gtb. rewrite Qltb_lt.
  rewrite <- Rsigned_sq_lt_iff, <- Q2R_signed_sq, <- Q2R_surd_ssq by exact Hr.
  split; [apply Qlt_Rlt | apply Rlt_Qlt].
Qed.

Lemma surd_geb_spec (s : surd) (c : Q) :
  0 <= radicand s -> (surd_geb s c = true <-> (Q2R c <= surd_val s)%R).
Proof.
  intros Hr. unfold surd_geb. rewrite Qle_bool_iff. split; intros H.
  - apply Rnot_lt_le. intros Hlt.
    apply (surd_ltb_spec s c Hr), Qltb_lt in Hlt. now apply Qlt_not_le in Hlt.
  - apply Qnot_lt_le. intros Hlt.
    apply Qltb_lt, (surd_ltb_spec s c Hr) in Hlt. Lra.lra.
Qed.

Lemma surd_val_sqrt (r : Q) : surd_val (np_sqrt r) = sqrt (Q2R r).
Proof.
  unfold surd_val, np_sqrt. cbn [coef radicand].
  rewrite RMicromega.Q2R_1. ring.
Qed.

Lemma surd_val_of_Q (q : Q) : surd_val (surd_of_Q q) = Q2R q.
Proof.
  unfold surd_val, surd_of_Q. cbn [coef radicand].
  rewrite RMicromega.Q2R_1, sqrt_1. ring.
Qed.


Lemma surd_val_div (s : surd) (q : Q) :
  ~ q == 0 -> surd_val (surd_div s q) = (surd_val s / Q2R q)%R.
Proof.
  intros Hq. unfold surd_val, surd_div. cbn [coef radicand].
  rewrite Q2R_div by exact Hq. field.
  intros H0. apply Hq, eqR_Qeq. now rewrite RMicromega.Q2R_0.
Qed.

Lemma Q_div_surd_val (q : Q) (s : surd) :
  0 < radicand s -> ~ coef s == 0 ->
  surd_val (Q_div_surd q s) = (Q2R q / surd_val s)%R.
Proof.
  intros Hr Hc. unfold surd_val, Q_div_surd. cbn [coef radicand].
  assert (Hcr : ~ coef s * radicand s == 0).
  { intros H0. apply Qmult_integral in H0. destruct H0; [tauto | lra]. }
  rewrite Q2R_div, Q2R_mult by exact Hcr.
  assert (HcR : Q2R (coef s) <> 0%R).
  { intros H0. apply Hc, eqR_Qeq. now rewrite RMicromega.Q2R_0. }
  apply Qlt_Rlt in Hr. rewrite RMicromega.Q2R_0 in Hr.
  pose proof (sqrt_lt_R0 _ Hr) as Hs.
  pose proof (sqrt_sqrt _ (Rlt_le _ _ Hr)) as Hss.
  rewrite <- Hss at 1. field. split; [Lra.lra | exact HcR].
Qed.

(** ** Differences of an increasing peak list *)

Lemma np_diffZ_pos (r_peaks : list Z) :
  Sorted Z.lt r_peaks -> Forall (fun d => (0 < d)%Z) (np_diffZ r_peaks).
Proof.
  induction 1 as [|a l Hs IH Hhd]; [constructor|].
  destruct l as [|b l']; [constructor|].
  simpl. constructor.
  - inversion Hhd; subst. lia.
  - exact IH.
Qed.

Lemma np_diffZ_length (r_peaks : list Z) :
  List.length (np_diffZ r_peaks) = pred (List.length r_peaks).
Proof.
  induction r_peaks as [|a l IH]; [reflexivity|].
  destruct l as [|b l']; [reflexivity|].
  change (np_diffZ (a :: b :: l')) with ((b - a)%Z :: np_diffZ (b :: l')).
  simpl List.length in *. now rewrite IH.
Qed.

(** ** Rhythm classification *)

Lemma rate_tier_not_normal (mean_hr : Q) :
  Qltb mean_hr 60 = true \/ Qltb 100 mean_hr = true ->
  contains "Normal" (rate_tier mean_hr) = false.
Proof.
  unfold rate_tier. intros [H|H].
  - now rewrite H.
  - rewrite H. now destruct (Qltb mean_hr 60).
Qed.

(** ** QT interval *)

(** C9.  With fewer than three peaks [calculate_qt_interval] measures
    nothing: zero QT and QTc, no risk flag, interpretation "N/A"; this
    includes two peaks, where one consecutive pair exists. *)
Theorem calculate_qt_interval_short (ecg_signal : list Q)
  (r_peaks : list Z) (fs : Q) (verbose : bool) :
  (len r_peaks < 3)%Z ->
  calculate_qt_interval ecg_signal r_peaks fs verbose = Ok qt_not_available.
Proof.
  intros Hlen. unfold calculate_qt_interval.
  apply Z.ltb_lt in Hlen. now rewrite Hlen.
Qed.

Lemma calculate_qt_interval_short_witness :
  calculate_qt_interval flat_line two_peaks 250 false = Ok qt_not_available.
Proof.
  apply calculate_qt_interval_short. vm_compute. reflexivity.
Defined.

(** ** QRS width *)

(** C3, as stated, fails: with no peak at all the loop retains no width,
    and the function answers "Insufficient data" with a mean of 0, not
    "Could not detect" with a mean of 80. *)
Lemma measure_qrs_width_no_peaks_counterexample :
  qrs_widths_loop flat_line 250 [] = Ok []
  /\ measure_qrs_width flat_line [] 250 false = Ok qrs_insufficient
  /\ qrs_insufficient <> qrs_could_not_detect.
Proof.
  split; [reflexivity|]. split; [reflexivity|]. discriminate.
Qed.

(** C3, amended.  With at least two peaks, when the per-peak loop
    retains no width, [measure_qrs_width] returns mean 80, deviation 0
    and "Could not detect"; with fewer than two peaks it returns mean 0,
    deviation 0 and "Insufficient data" without measuring. *)
Theorem measure_qrs_width_no_valid_width (ecg_signal : list Q)
  (r_peaks : list Z) (fs : Q) (verbose : bool) :
  ((2 <= len r_peaks)%Z ->
   qrs_widths_loop ecg_signal fs r_peaks = Ok [] ->
   measure_qrs_width ecg_signal r_peaks fs verbose = Ok qrs_could_not_detect)
  /\ ((len r_peaks < 2)%Z ->
      measure_qrs_width ecg_signal r_peaks fs verbose = Ok qrs_insufficient).
Proof.
  unfold measure_qrs_width. split.
  - intros Hlen Hloop. apply Z.ltb_ge in Hlen. rewrite Hlen.
    cbn [bind result_monad]. now rewrite Hloop.
  - intros Hlen. apply Z.ltb_lt in Hlen. now rewrite Hlen.
Qed.

Lemma measure_qrs_width_no_valid_width_witness :
  measure_qrs_width flat_line two_peaks 250 false = Ok qrs_could_not_detect
  /\ measure_qrs_width flat_line [] 250 false = Ok qrs_insufficient.
Proof.
  split.
  - apply (proj1 (measure_qrs_width_no_valid_width
                    flat_line two_peaks 250 false)).
    + vm_compute. discriminate.
    + vm_compute. reflexivity.
  - apply (proj2 (measure_qrs_width_no_valid_width flat_line [] 250 false)).
    vm_compute. reflexivity.
Defined.

(** ** Clinical interpretation *)

(** The warnings of the QT and HRV rules, whichever of them fire. *)
Ltac later_warnings qt hrv :=
  destruct (qt_risk_flag qt);
  destruct (surd_gtb (sdnn_ms hrv) 0 && surd_ltb (sdnn_ms hrv) 50);
  cbn [snd app];
  [ exists [qt_interpretation qt; low_hrv_warning]
  | exists [qt_interpretation qt]
  | exists [low_hrv_warning]
  | exists [] ];
  (split; [reflexivity | intros x Hx; cbn in Hx |- *; tauto]).

(** C4.  In the clinical interpretation, a mean QRS above 120 ms
    together with a heart rate above 100 bpm makes the final label
    "Wide-Complex Tachycardia - URGENT EVALUATION" and puts the warning
    "Wide QRS with tachycardia requires immediate assessment" on the
    (until then empty) warning list; a mean QRS above 120 ms with a rate
    of at most 100 bpm leaves the label as the classifier gave it and
    puts the QRS interpretation there instead.  Only the QT and HRV
    warnings can follow. *)
Theorem clinical_interpretation_wide_qrs (rhythm_status : string)
  (detection : detection_metrics) (qrs : qrs_metrics) (qt : qt_metrics)
  (hrv : hrv_metrics) :
  let out := clinical_interpretation rhythm_status detection qrs qt hrv in
  (120 < mean_qrs_ms qrs -> 100 < avg_heart_rate_bpm detection ->
   fst out = wct_label
   /\ exists rest, snd out = wct_warning :: rest
        /\ incl rest [qt_interpretation qt; low_hrv_warning])
  /\ (120 < mean_qrs_ms qrs -> avg_heart_rate_bpm detection <= 100 ->
      fst out = rhythm_status
      /\ exists rest, snd out = qrs_interpretation qrs :: rest
           /\ incl rest [qt_interpretation qt; low_hrv_warning]).
Proof.
  cbv zeta. unfold clinical_interpretation. split.
  - intros Hq Hb. apply Qltb_lt in Hq, Hb. rewrite Hq, Hb.
    split; [reflexivity|]. later_warnings qt hrv.
  - intros Hq Hb. apply Qltb_lt in Hq. apply Qltb_ge in Hb. rewrite Hq, Hb.
    split; [reflexivity|]. later_warnings qt hrv.
Qed.

Lemma clinical_interpretation_wide_qrs_witness :
  (fst (clinical_interpretation "Tachycardia" (detection_at 130) wide_qrs
          qt_not_available hrv_short) = wct_label
   /\ exists rest,
        snd (clinical_interpretation "Tachycardia" (detection_at 130)
               wide_qrs qt_not_available hrv_short) = wct_warning :: rest
        /\ incl rest [qt_interpretation qt_not_available; low_hrv_warning])
  /\ (fst (clinical_interpretation "Normal Sinus Rhythm" (detection_at 70)
             wide_qrs qt_not_available hrv_short)
      = "Normal Sinus Rhythm"%string
      /\ exists rest,
           snd (clinical_interpretation "Normal Sinus Rhythm"
                  (detection_at 70) wide_qrs qt_not_available hrv_short)
           = qrs_interpretation wide_qrs :: rest
           /\ incl rest [qt_interpretation qt_not_available;
                         low_hrv_warning]).
Proof.
  split.
  - apply (proj1 (clinical_interpretation_wide_qrs "Tachycardia"
                    (detection_at 130) wide_qrs qt_not_available hrv_short));
      reflexivity.
  - apply (proj2 (clinical_interpretation_wide_qrs "Normal Sinus Rhythm"
                    (detection_at 70) wide_qrs qt_not_available hrv_short)).
    + reflexivity.
    + vm_compute. discriminate.
Defined.

(** ** The adaptive-thresholding loop *)

Lemma arg_from_lower (better : Q -> Q -> bool) (l : list Q) :
  forall best besti i, (0 <= besti)%Z -> (0 <= i)%Z ->
    (0 <= arg_from better best besti i l)%Z.
Proof.
  induction l as [|x t IH]; intros best besti i Hb Hi; simpl; [exact Hb|].
  destruct (better x best); apply IH; lia.
Qed.

Lemma argmax_nonneg (l : list Q) : (0 <= argmax l)%Z.
Proof.
  destruct l as [|x t]; simpl; [lia|]. apply arg_from_lower; lia.
Qed.

Lemma np_diffZ_snoc (l : list Z) (x : Z) :
  l <> [] -> np_diffZ (l ++ [x]) = np_diffZ l ++ [(x - last l 0)%Z].
Proof.
  induction l as [|a t IH]; [congruence|]. intros _.
  destruct t as [|b t']; [reflexivity|].
  change ((a :: b :: t') ++ [x]) with (a :: b :: (t' ++ [x])).
  change (np_diffZ (a :: b :: t' ++ [x]))
    with ((b - a)%Z :: np_diffZ ((b :: t') ++ [x])).
  rewrite IH by discriminate.
  change (last (a :: b :: t') 0%Z) with (last (b :: t') 0%Z).
  reflexivity.
Qed.

(** The cases of one pass, named by what the pass does. *)
Ltac body_cases st :=
  unfold loop_body;
  destruct (is_local_max _ (st_i st)) eqn:Hmax; [|try reflexivity];
  [destruct (Qltb (st_threshold st) (at_ _ (st_i st))) eqn:Hthr;
   [destruct (refractory_ok _ (st_r_peaks st) (st_i st)) eqn:Hrefr;
    [destruct (0 <? len (local_signal _ _ (st_i st)))%Z eqn:Hloc;
     [destruct (amplitude_ok _ (at_ _ (actual_peak_idx _ _ (st_i st))))
        eqn:Hamp|]|]|]|].

Section LoopInvariants.

Variables (integrated signal_array : list Q) (fs : Q).

Lemma actual_peak_lower (i : Z) :
  (i - search_window fs <= actual_peak_idx signal_array fs i)%Z.
Proof.
  unfold actual_peak_idx.
  pose proof (argmax_nonneg (local_signal signal_array fs i)). lia.
Qed.

Lemma refractory_ok_last (r_peaks : list Z) (i : Z) :
  refractory_ok fs r_peaks i = true -> r_peaks <> [] ->
  (refractory_samples fs < i - last r_peaks 0)%Z.
Proof.
  unfold refractory_ok. intros Hok Hne.
  apply orb_true_iff in Hok. destruct Hok as [Hlen|Hlt].
  - apply Z.eqb_eq in Hlen. destruct r_peaks; [congruence|].
    unfold len in Hlen. simpl in Hlen. lia.
  - now apply Z.ltb_lt in Hlt.
Qed.

Lemma loop_body_spaced (st : detector_state) :
  spaced fs (st_r_peaks st) ->
  spaced fs (st_r_peaks (loop_body integrated signal_array fs st)).
Proof.
  intros Hsp. body_cases st; try exact Hsp.
  cbn [st_r_peaks]. unfold spaced.
  destruct (st_r_peaks st) as [|a t] eqn:Hr.
  - constructor.
  - rewrite np_diffZ_snoc by discriminate.
    apply Forall_app. split; [exact Hsp|]. constructor; [|constructor].
    pose proof (actual_peak_lower (st_i st)).
    pose proof (refractory_ok_last (a :: t) (st_i st) Hrefr) as Hl.
    specialize (Hl ltac:(discriminate)). lia.
Qed.

Lemma while_loop_spaced (fuel : nat) :
  forall st st', while_loop integrated signal_array fs fuel st = Some st' ->
    spaced fs (st_r_peaks st) -> spaced fs (st_r_peaks st').
Proof.
  induction fuel as [|fuel IH]; intros st st' Hrun Hsp; simpl in Hrun.
  - destruct (st_i st <? len integrated - 1)%Z; [discriminate|].
    now injection Hrun as <-.
  - destruct (st_i st <? len integrated - 1)%Z.
    + eapply IH; [exact Hrun|]. now apply loop_body_spaced.
    + now injection Hrun as <-.
Qed.

(** Every pass moves [i] forward when the refractory period is at least
    one sample. *)
Lemma loop_body_progress (st : detector_state) :
  (1 <= refractory_samples fs)%Z ->
  (st_i st < st_i (loop_body integrated signal_array fs st))%Z.
Proof.
  intros Href. body_cases st; cbn [st_i advance]; lia.
Qed.

Lemma while_loop_terminates (fuel : nat) :
  (1 <= refractory_samples fs)%Z ->
  forall st, (len integrated - 1 - st_i st <= Z.of_nat fuel)%Z ->
    exists st', while_loop integrated signal_array fs fuel st = Some st'.
Proof.
  intros Href. induction fuel as [|fuel IH]; intros st Hfuel; simpl.
  - destruct (st_i st <? len integrated - 1)%Z eqn:Hlt.
    + apply Z.ltb_lt in Hlt. lia.
    + now exists st.
  - destruct (st_i st <? len integrated - 1)%Z eqn:Hlt.
    + apply IH. pose proof (loop_body_progress st Href).
      lia.
    + now exists st.
Qed.

Lemma adaptive_thresholding_returns :
  (1 <= refractory_samples fs)%Z ->
  exists st, adaptive_thresholding integrated signal_array fs = Some st
             /\ spaced fs (st_r_peaks st).
Proof.
  intros Href. unfold adaptive_thresholding.
  destruct (while_loop_terminates (List.length integrated) Href
              (initial_state integrated)) as [st Hst].
  - cbn [initial_state st_i]. unfold len. lia.
  - exists st. split; [exact Hst|].
    eapply while_loop_spaced; [exact Hst|]. constructor.
Qed.

End LoopInvariants.

(** ** Window lengths *)

Lemma py_int_floor (x : Q) : 0 <= x -> py_int x = Qfloor x.
Proof.
  destruct x as [n d]. unfold Qle, py_int, Qfloor. simpl. intros Hn.
  apply Z.quot_div_nonneg; lia.
Qed.

Lemma py_int_ge (k : Z) (x : Q) :
  (0 <= k)%Z -> inject_Z k <= x -> (k <= py_int x)%Z.
Proof.
  intros Hk Hx.
  assert (H0 : 0 <= x).
  { apply Qle_trans with (inject_Z k); [|exact Hx].
    change 0 with (inject_Z 0). now rewrite <- Zle_Qle. }
  rewrite py_int_floor by exact H0.
  rewrite <- (Qfloor_Z k). now apply Qfloor_resp_le.
Qed.

Lemma py_int_mono (x y : Q) : 0 <= x -> x <= y -> (py_int x <= py_int y)%Z.
Proof.
  intros Hx Hxy. rewrite !py_int_floor; [|lra|lra].
  now apply Qfloor_resp_le.
Qed.

Lemma search_window_le_refractory (fs : Q) :
  0 <= fs -> (search_window fs <= refractory_samples fs)%Z.
Proof.
  intros Hfs. unfold search_window, refractory_samples.
  apply py_int_mono; lra.
Qed.

Lemma refractory_samples_ge_6 (fs : Q) :
  30 < fs -> (6 <= refractory_samples fs)%Z.
Proof.
  intros Hfs. unfold refractory_samples. apply py_int_ge; [lia|].
  change (inject_Z 6) with 6. lra.
Qed.

Lemma window_size_ge_3 (fs : Q) : 30 < fs -> (3 <= py_int (0.120 * fs))%Z.
Proof.
  intros Hfs. apply py_int_ge; [lia|]. change (inject_Z 3) with 3. lra.
Qed.

(** ** The detector on arguments SciPy accepts *)

Lemma nyquist_half (fs : Q) : fs / 2 == fs * (1 # 2).
Proof. reflexivity. Qed.

Lemma py_div_ok (a b : Q) : ~ b == 0 -> py_div a b = Ok (a / b).
Proof.
  intros Hb. unfold py_div.
  destruct (Qeq_bool b 0) eqn:E; [|reflexivity].
  apply Qeq_bool_iff in E. contradiction.
Qed.

Lemma butter_ok (N : nat) (low high : Q) :
  0 < low -> low < 1 -> 0 < high -> high < 1 ->
  butter N low high = Ok (Butter N low high).
Proof.
  intros H1 H2 H3 H4. unfold butter.
  apply Qltb_lt in H1, H2, H3, H4. now rewrite H1, H2, H3, H4.
Qed.

Lemma filtfilt_ok `{Kernels} (ba : iir_design) (x : list Q) :
  (3 * ntaps ba < len x)%Z -> filtfilt ba x = Ok (filtfilt_kernel ba x).
Proof.
  intros Hlen. unfold filtfilt.
  destruct (len x <=? 3 * ntaps ba)%Z eqn:E; [|reflexivity].
  apply Z.leb_le in E. lia.
Qed.

Lemma np_convolve_same_ok (a v : list Q) :
  a <> [] -> v <> [] -> np_convolve_same a v = Ok (convolve_same a v).
Proof.
  intros Ha Hv. unfold np_convolve_same.
  destruct a; [congruence|]. destruct v; [congruence|]. reflexivity.
Qed.

Lemma range_length (n : Z) : List.length (range n) = Z.to_nat n.
Proof. unfold range. now rewrite length_map, length_seq. Qed.

Lemma five_point_derivative_length (x : list Q) (fs : Q) :
  List.length (five_point_derivative x fs) = List.length x.
Proof.
  unfold five_point_derivative. rewrite length_map, range_length.
  unfold len. lia.
Qed.

Lemma nonempty_length {A} (l : list A) : (0 < List.length l)%nat -> l <> [].
Proof. destruct l; simpl; [lia | discriminate]. Qed.

(** Unfold the monad operations of a script function. *)
Ltac py_run := cbn [bind ret Py_monad result_monad when print lift fst snd].
Tactic Notation "py_run" "in" hyp(H) :=
  cbn [bind ret Py_monad result_monad when print lift fst snd] in H.

Section DetectorRuns.

Context `{K : Kernels}.

(** On a sampling rate above 30 Hz and more than 15 samples the
    detector raises nothing: it returns the peaks the thresholding loop
    leaves and the metrics computed from them. *)
Lemma pan_tompkins_detector_run (ecg_signal : list Q) (fs : Q)
  (verbose : bool) (out : stdout) :
  30 < fs -> (15 < len ecg_signal)%Z ->
  exists st,
    adaptive_thresholding (qrs_integrated ecg_signal fs) ecg_signal fs
    = Some st
    /\ spaced fs (st_r_peaks st)
    /\ pan_tompkins_detector ecg_signal fs verbose out
       = (Ok (st_r_peaks st,
              heart_rate_metrics (st_r_peaks st) fs (st_threshold st)),
          if verbose then out ++ [LogDetectorStart (len ecg_signal)]
          else out).
Proof.
  intros Hfs Hlen.
  destruct (adaptive_thresholding_returns
              (qrs_integrated ecg_signal fs) ecg_signal fs) as (st & Hst & Hsp).
  { pose proof (refractory_samples_ge_6 fs Hfs). lia. }
  exists st. split; [exact Hst|]. split; [exact Hsp|].
  pose proof (nyquist_half fs) as Hhalf.
  assert (Hny : ~ fs / 2 == 0) by (intros E; lra).
  assert (Hlow : 0 < 5 / (fs / 2) /\ 5 / (fs / 2) < 1).
  { split; [apply Qlt_shift_div_l | apply Qlt_shift_div_r]; lra. }
  assert (Hhigh : 0 < 15 / (fs / 2) /\ 15 / (fs / 2) < 1).
  { split; [apply Qlt_shift_div_l | apply Qlt_shift_div_r]; lra. }
  assert (Hconv : np_convolve_same
            (map (fun d => d * d)
               (five_point_derivative
                  (filtfilt_kernel (Butter 2 (5 / (fs / 2)) (15 / (fs / 2)))
                     ecg_signal) fs))
            (boxcar (py_int (0.120 * fs)))
          = Ok (qrs_integrated ecg_signal fs)); [apply np_convolve_same_ok|].
  3: { unfold pan_tompkins_detector.
       destruct verbose; py_run;
         rewrite (py_div_ok 5) by exact Hny; py_run;
         rewrite (py_div_ok 15) by exact Hny; py_run;
         rewrite butter_ok by tauto; py_run;
         rewrite filtfilt_ok by (cbn [ntaps]; lia); py_run;
         rewrite Hconv; py_run; rewrite Hst; reflexivity. }
  - apply nonempty_length.
    rewrite length_map, five_point_derivative_length,
      filtfilt_kernel_length.
    unfold len in Hlen. lia.
  - apply nonempty_length. unfold boxcar. rewrite repeat_length.
    pose proof (window_size_ge_3 fs Hfs). lia.
Qed.

End DetectorRuns.

(** ** Spacing of the detected peaks *)

(** C1, as stated, fails.  On [two_spikes] at 100 Hz (refractory period
    20 samples, search window 8) the loop accepts the candidates 8 and 30
    of the integrated signal, which pass the refractory check
    ([30 - 9 > 20]), and relocates them to the spikes at 9 and 28: the
    two peaks returned are 19 samples apart.  The band-pass output is
    the one SciPy computes for this signal ([two_spikes_band]). *)
Lemma refractory_gap_counterexample :
  refractory_samples 100 = 20%Z
  /\ @filtfilt_kernel scipy_tabulated
       (Butter 2 (5 / (100 / 2)) (15 / (100 / 2))) two_spikes
     = two_spikes_band
  /\ detected_peaks (@pan_tompkins_detector scipy_tabulated two_spikes 100
                       false []) = Some [9; 28]%Z
  /\ ~ (28 - 9 > refractory_samples 100)%Z.
Proof.
  split; [reflexivity|]. split; [vm_compute; reflexivity|].
  split; [vm_compute; reflexivity|].
  vm_compute. discriminate.
Qed.

(** The loop by itself attains the bound of the amended claim.  At
    250 Hz, on [integrated_20_90] and [spikes_39_70], it accepts the
    candidate 20 and relocates it to 39, the last sample of its window;
    it skips to 70, accepts the candidate 90 ([90 - 39 > 50]) and
    relocates it to 70, the first sample of its window: 31 samples
    apart, one more than [50 - 20]. *)
Example adaptive_thresholding_tight :
  option_map st_r_peaks
    (adaptive_thresholding integrated_20_90 spikes_39_70 250)
  = Some [39; 70]%Z
  /\ (refractory_samples 250 - search_window 250 = 30)%Z.
Proof. split; vm_compute; reflexivity. Qed.

(** C1, amended.  On a sampling rate above 30 Hz and more than 15
    samples the detector returns, and any two consecutive indices of the
    returned [r_peaks] differ by more than [int(0.2 fs) - int(0.08 fs)]:
    the refractory period less the relocation window.  In particular
    the list is strictly increasing. *)
Theorem detector_peak_spacing `{Kernels} (ecg_signal : list Q) (fs : Q)
  (verbose : bool) (out : stdout) :
  30 < fs -> (15 < len ecg_signal)%Z ->
  exists r_peaks metrics out',
    pan_tompkins_detector ecg_signal fs verbose out
    = (Ok (r_peaks, metrics), out')
    /\ Forall (fun d => (refractory_samples fs - search_window fs < d)%Z)
              (np_diffZ r_peaks)
    /\ Forall (fun d => (0 < d)%Z) (np_diffZ r_peaks).
Proof.
  intros Hfs Hlen.
  destruct (pan_tompkins_detector_run ecg_signal fs verbose out Hfs Hlen)
    as (st & _ & Hsp & Hrun).
  eexists _, _, _. split; [exact Hrun|]. split; [exact Hsp|].
  eapply Forall_impl; [|exact Hsp]. intros d Hd. cbv beta in Hd.
  assert (H0 : 0 <= fs) by lra.
  pose proof (search_window_le_refractory fs H0). lia.
Qed.

Lemma detector_peak_spacing_witness :
  exists r_peaks metrics out',
    @pan_tompkins_detector passthrough close_beats 250 false []
    = (Ok (r_peaks, metrics), out')
    /\ Forall (fun d => (refractory_samples 250 - search_window 250 < d)%Z)
              (np_diffZ r_peaks)
    /\ Forall (fun d => (0 < d)%Z) (np_diffZ r_peaks).
Proof.
  apply (@detector_peak_spacing passthrough close_beats 250 false []).
  - reflexivity.
  - vm_compute. reflexivity.
Defined.

(** ** What a rejected candidate changes *)

Section Frame.

Variables (integrated signal_array : list Q) (fs : Q).


Lemma loop_body_noise (st : detector_state) :
  st_noise_peaks (loop_body integrated signal_array fs st) = st_noise_peaks st
  \/ (st_noise_peaks (loop_body integrated signal_array fs st)
      = st_noise_peaks st ++ [at_ integrated (st_i st)]
      /\ is_local_max integrated (st_i st) = true
      /\ at_ integrated (st_i st) <= st_threshold st).
Proof.
  body_cases st; try (left; reflexivity).
  right. cbn [st_noise_peaks advance]. repeat split.
  now apply Qltb_ge.
Qed.

Lemma while_loop_noise (fuel : nat) :
  forall st st', while_loop integrated signal_array fs fuel st = Some st' ->
    exists added, st_noise_peaks st' = st_noise_peaks st ++ added
                  /\ Forall (from_local_max integrated) added.
Proof.
  induction fuel as [|fuel IH]; intros st st' Hrun; simpl in Hrun.
  - destruct (st_i st <? len integrated - 1)%Z; [discriminate|].
    injection Hrun as <-. exists []. now rewrite app_nil_r.
  - destruct (st_i st <? len integrated - 1)%Z.
    + destruct (IH _ _ Hrun) as (added & Heq & Hall).
      destruct (loop_body_noise st) as [Hsame | (Happ & Hmax & _)].
      * exists added. now rewrite Heq, Hsame.
      * exists (at_ integrated (st_i st) :: added). split.
        -- now rewrite Heq, Happ, <- app_assoc.
        -- constructor; [|exact Hall]. now exists (st_i st).
    + injection Hrun as <-. exists []. now rewrite app_nil_r.
Qed.

(** C10.  In one pass of the thresholding loop, a strict local
    maximum of the integrated signal above the current threshold that
    fails the refractory check, finds an empty relocation window, or
    fails the amplitude gate, changes nothing but [i], which moves on
    by one: threshold, peaks, signal peaks and noise peaks keep their
    values and no refractory skip is made.  A pass appends to
    [noise_peaks] only the value at a strict local maximum that is at
    or below the threshold; so every value a run appends comes from a
    strict local maximum. *)
Theorem rejected_candidate_frame (st : detector_state) :
  (is_local_max integrated (st_i st) = true ->
   st_threshold st < at_ integrated (st_i st) ->
   refractory_ok fs (st_r_peaks st) (st_i st) = false
   \/ len (local_signal signal_array fs (st_i st)) = 0%Z
   \/ amplitude_ok signal_array
        (at_ signal_array (actual_peak_idx signal_array fs (st_i st)))
      = false ->
   loop_body integrated signal_array fs st = advance st)
  /\ (st_noise_peaks (loop_body integrated signal_array fs st) = st_noise_peaks st
      \/ (st_noise_peaks (loop_body integrated signal_array fs st)
          = st_noise_peaks st ++ [at_ integrated (st_i st)]
          /\ is_local_max integrated (st_i st) = true
          /\ at_ integrated (st_i st) <= st_threshold st))
  /\ (forall fuel st',
        while_loop integrated signal_array fs fuel st = Some st' ->
        exists added, st_noise_peaks st' = st_noise_peaks st ++ added
                      /\ Forall (from_local_max integrated) added).
Proof.
  split; [|split; [apply loop_body_noise|]].
  2: { intros fuel st' Hrun. exact (while_loop_noise fuel st st' Hrun). }
  intros Hmax Hthr Hrej. apply Qltb_lt in Hthr.
  unfold loop_body. rewrite Hmax, Hthr.
  destruct (refractory_ok fs (st_r_peaks st) (st_i st)); [|reflexivity].
  destruct (0 <? len (local_signal signal_array fs (st_i st)))%Z eqn:Hloc;
    [|reflexivity].
  destruct Hrej as [Hr | [Hl | Ha]].
  - discriminate.
  - apply Z.ltb_lt in Hloc. lia.
  - now rewrite Ha.
Qed.

End Frame.

Lemma rejected_candidate_frame_witness :
  loop_body two_bumps two_bumps 250 at_second_bump = advance at_second_bump.
Proof.
  apply (proj1 (rejected_candidate_frame two_bumps two_bumps 250
                  at_second_bump)).
  - reflexivity.
  - reflexivity.
  - left. reflexivity.
Defined.

(** ** Heart rate from the detected peaks *)

Lemma Qsum_map_div (l : list Z) (fs : Q) :
  Qsum (map (fun d => inject_Z d / fs) l) == Qsum (map inject_Z l) / fs.
Proof.
  induction l as [|d t IH]; cbn [map].
  - simpl. unfold Qdiv. now rewrite Qmult_0_l.
  - rewrite !Qsum_cons, IH. unfold Qdiv. ring.
Qed.

Lemma avg_rr_mean_diff (r_peaks : list Z) (fs : Q) :
  np_mean (rr_intervals_s r_peaks fs) == mean_diff r_peaks / fs.
Proof.
  unfold mean_diff, np_mean, rr_intervals_s, len.
  rewrite Qsum_map_div, !length_map. unfold Qdiv. ring.
Qed.

Lemma mean_diff_pos (r_peaks : list Z) :
  (2 <= len r_peaks)%Z -> Forall (fun d => (0 < d)%Z) (np_diffZ r_peaks) ->
  0 < mean_diff r_peaks.
Proof.
  intros Hlen Hpos. unfold mean_diff. apply np_mean_pos.
  - intros Hnil. apply (f_equal (@List.length Q)) in Hnil.
    rewrite length_map, np_diffZ_length in Hnil.
    unfold len in Hlen. simpl in Hnil. lia.
  - apply Forall_map. eapply Forall_impl; [|exact Hpos].
    intros d Hd. cbv beta. change 0 with (inject_Z 0).
    now rewrite <- Zlt_Qlt.
Qed.

Lemma heart_rate_metrics_bpm (r_peaks : list Z) (fs threshold : Q) :
  0 < fs -> Forall (fun d => (0 < d)%Z) (np_diffZ r_peaks) ->
  ((2 <= len r_peaks)%Z ->
   avg_heart_rate_bpm (heart_rate_metrics r_peaks fs threshold)
   == 60 * fs / mean_diff r_peaks)
  /\ ((len r_peaks < 2)%Z ->
      avg_heart_rate_bpm (heart_rate_metrics r_peaks fs threshold) = 0).
Proof.
  intros Hfs Hpos. unfold heart_rate_metrics. split; intros Hlen.
  - pose proof (mean_diff_pos r_peaks Hlen Hpos) as Hmd.
    apply Z.leb_le in Hlen. rewrite Hlen. cbn [avg_heart_rate_bpm].
    assert (Havg : 0 < np_mean (rr_intervals_s r_peaks fs)).
    { rewrite avg_rr_mean_diff. apply Qlt_shift_div_l; [exact Hfs|].
      now rewrite Qmult_0_l. }
    apply Qltb_lt in Havg. rewrite Havg.
    rewrite avg_rr_mean_diff. field. split; lra.
  - destruct (2 <=? len r_peaks)%Z eqn:E; [|reflexivity].
    apply Z.leb_le in E. lia.
Qed.

(** ** Rounding to double precision *)

Lemma round_half_even_error (y : Q) :
  Qabs (inject_Z (Binary64.round_half_even y) - y) <= 1 # 2.
Proof.
  unfold Binary64.round_half_even. destruct y as [n d]. cbn [Qnum Qden].
  pose proof (Z.div_mod n (Zpos d) ltac:(lia)) as Hdm.
  pose proof (Z.mod_pos_bound n (Zpos d) ltac:(lia)) as Hr.
  set (q := (n / Zpos d)%Z) in *. set (r := (n mod Zpos d)%Z) in *.
  assert (Hy : n # d == inject_Z q + inject_Z r / inject_Z (Zpos d)).
  { rewrite (Qmake_Qdiv n d), Hdm, inject_Z_plus, inject_Z_mult.
    field. intros E. apply (f_equal Qnum) in E || idtac.
    unfold Qeq in E. simpl in E. lia. }
  assert (Hd : 0 < inject_Z (Zpos d)) by reflexivity.
  assert (Hr0 : 0 <= inject_Z r / inject_Z (Zpos d)).
  { apply Qle_shift_div_l; [exact Hd|]. rewrite Qmult_0_l.
    change 0 with (inject_Z 0). rewrite <- Zle_Qle. lia. }
  assert (Hr1 : inject_Z r / inject_Z (Zpos d) < 1).
  { apply Qlt_shift_div_r; [exact Hd|]. rewrite Qmult_1_l.
    rewrite <- Zlt_Qlt. lia. }
  assert (Hhalf : forall c, (2 * r ?= Zpos d)%Z = c ->
            match c with
            | Lt => inject_Z r / inject_Z (Zpos d) < 1 # 2
            | Eq => inject_Z r / inject_Z (Zpos d) == 1 # 2
            | Gt => 1 # 2 < inject_Z r / inject_Z (Zpos d)
            end).
  { intros c Hc. destruct c.
    - apply Z.compare_eq in Hc.
      assert (E : inject_Z (Zpos d) == 2 * inject_Z r).
      { rewrite <- Hc, inject_Z_mult. reflexivity. }
      rewrite E. field. intros E0. rewrite E0 in E. lra.
    - apply -> Z.compare_lt_iff in Hc.
      apply Qlt_shift_div_r; [exact Hd|].
      rewrite Zlt_Qlt, inject_Z_mult in Hc.
      change (inject_Z 2) with 2 in Hc. lra.
    - apply -> Z.compare_gt_iff in Hc.
      apply Qlt_shift_div_l; [exact Hd|].
      rewrite Zlt_Qlt, inject_Z_mult in Hc.
      change (inject_Z 2) with 2 in Hc. lra. }
  specialize (Hhalf _ eq_refl).
  destruct (2 * r ?= Zpos d)%Z; [destruct (Z.even q)| |];
    rewrite ?inject_Z_plus; change (inject_Z 1) with 1;
    apply Qabs_case; intros; lra.
Qed.

Lemma pow2_pos (e : Z) : 0 < Binary64.pow2 e.
Proof. apply Qpower_0_lt. reflexivity. Qed.

Lemma pow2_plus (a b : Z) :
  Binary64.pow2 (a + b) == Binary64.pow2 a * Binary64.pow2 b.
Proof. apply Qpower_plus. discriminate. Qed.

Lemma pow2_opp (a : Z) : Binary64.pow2 (- a) == / Binary64.pow2 a.
Proof. apply Qpower_opp. Qed.

Lemma pow2_cancel (a : Z) : Binary64.pow2 (- a) * Binary64.pow2 a == 1.
Proof.
  rewrite pow2_opp. field. pose proof (pow2_pos a). lra.
Qed.

Lemma pow2_succ (a : Z) : Binary64.pow2 (a + 1) == 2 * Binary64.pow2 a.
Proof. rewrite pow2_plus. change (Binary64.pow2 1) with 2. ring. Qed.

Lemma pow2_inject (k : Z) :
  (0 <= k)%Z -> Binary64.pow2 k == inject_Z (2 ^ k).
Proof. intros Hk. now rewrite Zpower_Qpower. Qed.

(** [2 ^ log2 a <= a < 2 * 2 ^ log2 a] *)
Lemma log2_pow2 (a : Z) :
  (0 < a)%Z ->
  Binary64.pow2 (Z.log2 a) <= inject_Z a
  /\ inject_Z a < 2 * Binary64.pow2 (Z.log2 a).
Proof.
  intros Ha. pose proof (Z.log2_spec a Ha) as [Hl Hu].
  pose proof (Z.log2_nonneg a) as H0.
  rewrite pow2_inject by exact H0. split.
  - now rewrite <- Zle_Qle.
  - change 2 with (inject_Z 2).
    rewrite <- inject_Z_mult, <- Zlt_Qlt.
    rewrite Z.pow_succ_r in Hu by exact H0. exact Hu.
Qed.

Lemma Qabs_Qmake (n : Z) (d : positive) :
  Qabs (n # d) == inject_Z (Z.abs n) / inject_Z (Zpos d).
Proof. unfold Qabs. now rewrite (Qmake_Qdiv (Z.abs n) d). Qed.

(** The significand of [x <> 0] at its exponent has 53 bits. *)
Lemma exponent_spec (x : Q) :
  ~ x == 0 ->
  Binary64.pow2 52 <= Qabs x * Binary64.pow2 (- Binary64.exponent x)
  /\ Qabs x * Binary64.pow2 (- Binary64.exponent x) < Binary64.pow2 53.
Proof.
  intros Hx. unfold Binary64.exponent.
  destruct x as [n d].
  assert (Hn : (0 < Z.abs n)%Z).
  { destruct n; [exfalso; apply Hx; reflexivity | lia | lia]. }
  cbn [Qnum Qden].
  destruct (log2_pow2 (Z.abs n) Hn) as [Hnl Hnu].
  destruct (log2_pow2 (Zpos d) ltac:(lia)) as [Hdl Hdu].
  set (la := Z.log2 (Z.abs n)) in *. set (ld := Z.log2 (Zpos d)) in *.
  set (e0 := (la - ld - 53)%Z).
  pose proof (pow2_pos la) as Pla. pose proof (pow2_pos ld) as Pld.
  assert (Hd : 0 < inject_Z (Zpos d)) by reflexivity.
  assert (Hs : Binary64.pow2 (- e0)
               == Binary64.pow2 53 * Binary64.pow2 ld / Binary64.pow2 la).
  { unfold e0. replace (- (la - ld - 53))%Z with (53 + ld + - la)%Z by lia.
    rewrite !pow2_plus, pow2_opp. field. lra. }
  assert (Hy : Qabs (n # d) * Binary64.pow2 (- e0)
               == (inject_Z (Z.abs n) / Binary64.pow2 la)
                  * (Binary64.pow2 ld / inject_Z (Zpos d))
                  * Binary64.pow2 53).
  { rewrite Hs, Qabs_Qmake. field. split; lra. }
  assert (H1 : 1 <= inject_Z (Z.abs n) / Binary64.pow2 la).
  { apply Qle_shift_div_l; lra. }
  assert (H2 : inject_Z (Z.abs n) / Binary64.pow2 la < 2).
  { apply Qlt_shift_div_r; lra. }
  assert (H3 : 1 # 2 < Binary64.pow2 ld / inject_Z (Zpos d)).
  { apply Qlt_shift_div_l; lra. }
  assert (H4 : Binary64.pow2 ld / inject_Z (Zpos d) <= 1).
  { apply Qle_shift_div_r; lra. }
  set (s := inject_Z (Z.abs n) / Binary64.pow2 la) in *.
  set (t := Binary64.pow2 ld / inject_Z (Zpos d)) in *.
  assert (Hst : 1 # 2 < s * t /\ s * t < 2) by (split; nra).
  assert (P53 : Binary64.pow2 53 == 2 * Binary64.pow2 52) by reflexivity.
  pose proof (pow2_pos 52) as P52.
  destruct (Qle_bool (Binary64.pow2 53)
              (Qabs (n # d) * Binary64.pow2 (- e0))) eqn:Hb.
  - apply Qle_bool_iff in Hb.
    replace (- (e0 + 1))%Z with (- e0 + - (1))%Z by lia.
    rewrite pow2_plus, Qmult_assoc.
    change (Binary64.pow2 (- (1))) with (1 # 2).
    rewrite Hy in *. split; nra.
  - assert (Hlt : Qabs (n # d) * Binary64.pow2 (- e0) < Binary64.pow2 53).
    { apply Qnot_le_lt. intros Hle. apply Qle_bool_iff in Hle. congruence. }
    split; [|exact Hlt]. rewrite Hy in *. nra.
Qed.

Lemma round_value (x : Q) :
  ~ x == 0 ->
  Binary64.round x
  == inject_Z (Binary64.round_half_even
                 (x * Binary64.pow2 (- Binary64.exponent x)))
     * Binary64.pow2 (Binary64.exponent x).
Proof.
  intros Hx. unfold Binary64.round.
  destruct (Qeq_bool x 0) eqn:E.
  - apply Qeq_bool_iff in E. contradiction.
  - apply Qred_correct.
Qed.

Lemma round_0 (x : Q) : x == 0 -> Binary64.round x = 0.
Proof.
  intros Hx. unfold Binary64.round.
  apply Qeq_bool_iff in Hx. now rewrite Hx.
Qed.

(** Rounding moves a number by at most the unit roundoff, relatively. *)
Lemma round_error (x : Q) :
  Qabs (Binary64.round x - x) <= Binary64.u * Qabs x.
Proof.
  destruct (Qeq_dec x 0) as [Hx|Hx].
  - rewrite (round_0 x Hx), Hx. vm_compute. discriminate.
  - rewrite (round_value x Hx).
    destruct (exponent_spec x Hx) as [Hl _].
    set (e := Binary64.exponent x) in *.
    pose proof (round_half_even_error (x * Binary64.pow2 (- e))) as Hm.
    set (m := inject_Z (Binary64.round_half_even
                          (x * Binary64.pow2 (- e)))) in *.
    pose proof (pow2_pos e) as Pe. pose proof (pow2_cancel e) as Hc.
    assert (E : m * Binary64.pow2 e - x
                == (m - x * Binary64.pow2 (- e)) * Binary64.pow2 e).
    { rewrite <- (Qmult_1_r x) at 1. rewrite <- Hc. ring. }
    rewrite E, Qabs_Qmult, (Qabs_pos (Binary64.pow2 e)) by lra.
    assert (Hx' : Qabs x == Qabs x * Binary64.pow2 (- e) * Binary64.pow2 e).
    { rewrite <- Qmult_assoc, Hc. ring. }
    rewrite Hx'.
    set (y := Qabs x * Binary64.pow2 (- e)) in *.
    set (w := Qabs (m - x * Binary64.pow2 (- e))) in *.
    change (Binary64.pow2 52) with (4503599627370496 # 1) in Hl.
    change Binary64.u with (1 # 9007199254740992).
    nra.
Qed.

Lemma round_bounds (x : Q) :
  0 <= x ->
  (1 - Binary64.u) * x <= Binary64.round x
  /\ Binary64.round x <= (1 + Binary64.u) * x.
Proof.
  intros Hx. pose proof (round_error x) as H.
  rewrite (Qabs_pos x) in H by exact Hx.
  revert H. apply Qabs_case; intros; split; lra.
Qed.

Lemma round_pos (x : Q) : 0 < x -> 0 < Binary64.round x.
Proof.
  intros Hx. destruct (round_bounds x) as [H _]; [lra|].
  change Binary64.u with (1 # 9007199254740992) in H. nra.
Qed.

(** ** Counting roundings *)

Lemma eta_value : Binary64.eta == 1 # 9007199254740991.
Proof. reflexivity. Qed.

Lemma factor_ge_1 (k : nat) : 1 <= Binary64.factor k.
Proof.
  induction k as [|k IH]; cbn [Binary64.factor]; [lra|].
  rewrite eta_value. nra.
Qed.

Lemma factor_plus (a b : nat) :
  Binary64.factor (a + b)
  == Binary64.factor a * Binary64.factor b.
Proof.
  induction a as [|a IH]; cbn [Binary64.factor Nat.add]; [ring|].
  rewrite IH. ring.
Qed.

Lemma factor_le (a b : nat) :
  (a <= b)%nat -> Binary64.factor a <= Binary64.factor b.
Proof.
  intros Hab. replace b with (a + (b - a))%nat by lia.
  rewrite factor_plus.
  pose proof (factor_ge_1 a). pose proof (factor_ge_1 (b - a)). nra.
Qed.

Lemma within_refl (x : Q) : 0 <= x -> Binary64.within 0 x x.
Proof. intros Hx. unfold Binary64.within. cbn [Binary64.factor]. lra. Qed.

Lemma within_weaken (j k : nat) (x y : Q) :
  (j <= k)%nat -> Binary64.within j x y -> Binary64.within k x y.
Proof.
  intros Hjk (Hx & Hy & H1 & H2). pose proof (factor_le j k Hjk).
  pose proof (factor_ge_1 j). unfold Binary64.within. nra.
Qed.

Lemma within_exact (k : nat) (x y y' : Q) :
  y == y' -> Binary64.within k x y -> Binary64.within k x y'.
Proof. intros E (Hx & Hy & H1 & H2). unfold Binary64.within. nra. Qed.

Lemma within_positive (k : nat) (x y : Q) :
  Binary64.within k x y -> 0 < y -> 0 < x.
Proof.
  intros (Hx & Hy & H1 & H2) H0. pose proof (factor_ge_1 k).
  destruct (Qlt_le_dec 0 x) as [|Hle]; [assumption|]. nra.
Qed.

(** One more rounding. *)
Lemma within_round (k : nat) (x y : Q) :
  Binary64.within k x y -> Binary64.within (S k) (Binary64.round x) y.
Proof.
  intros (Hx & Hy & H1 & H2).
  destruct (round_bounds x Hx) as [Hl Hu].
  pose proof (factor_ge_1 k) as Hf.
  unfold Binary64.within. cbn [Binary64.factor]. rewrite eta_value.
  change Binary64.u with (1 # 9007199254740992) in *.
  set (f := Binary64.factor k) in *. set (r := Binary64.round x) in *.
  assert (Hr : 0 <= r) by nra.
  repeat split; [exact Hr | exact Hy | nra | ].
  (* y <= f x,  x <= r / (1 - u) = (1 + eta) r *)
  assert (Hxr : x <= (1 + (1 # 9007199254740991)) * r) by lra.
  nra.
Qed.

Lemma within_add (k : nat) (x y x' y' : Q) :
  Binary64.within k x y -> Binary64.within k x' y' ->
  Binary64.within k (x + x') (y + y').
Proof.
  intros (Hx & Hy & H1 & H2) (Hx' & Hy' & H1' & H2').
  unfold Binary64.within. repeat split; lra.
Qed.

Lemma within_div (j k : nat) (x y x' y' : Q) :
  Binary64.within j x y -> Binary64.within k x' y' -> 0 < y' ->
  Binary64.within (j + k) (x / x') (y / y').
Proof.
  intros Hxy Hxy' Hpos.
  pose proof (within_positive _ _ _ Hxy' Hpos) as Hpos'.
  destruct Hxy as (Hx & Hy & H1 & H2).
  destruct Hxy' as (_ & _ & H1' & H2').
  pose proof (factor_ge_1 j) as Hj. pose proof (factor_ge_1 k) as Hk.
  unfold Binary64.within. rewrite factor_plus.
  set (f := Binary64.factor j) in *. set (g := Binary64.factor k) in *.
  assert (Hq : 0 <= x / x') by (apply Qle_shift_div_l; lra).
  assert (Hq' : 0 <= y / y') by (apply Qle_shift_div_l; lra).
  repeat split; [exact Hq | exact Hq' | | ].
  - apply Qle_shift_div_r; [exact Hpos'|].
    assert (E : f * g * (y / y') * x' == (f * y) * (g * x') / y')
      by (field; lra).
    rewrite E. apply Qle_shift_div_l; [exact Hpos|]. nra.
  - apply Qle_shift_div_r; [exact Hpos|].
    assert (E : f * g * (x / x') * y' == (f * x) * (g * y') / x')
      by (field; lra).
    rewrite E. apply Qle_shift_div_l; [exact Hpos'|]. nra.
Qed.

Lemma within_fadd (k : nat) (x y x' y' : Q) :
  Binary64.within k x y -> Binary64.within k x' y' ->
  Binary64.within (S k) (Binary64.fadd x x') (y + y').
Proof.
  intros H H'. apply within_round. now apply within_add.
Qed.

Lemma within_fdiv (j k : nat) (x y x' y' : Q) :
  Binary64.within j x y -> Binary64.within k x' y' -> 0 < y' ->
  Binary64.within (S (j + k)) (Binary64.fdiv x x') (y / y').
Proof.
  intros H H' Hp. apply within_round. now apply within_div.
Qed.

Lemma within_of_int (z : Z) :
  (0 <= z)%Z -> Binary64.within 1 (Binary64.of_int z) (inject_Z z).
Proof.
  intros Hz. apply within_round, within_refl.
  change 0 with (inject_Z 0). now rewrite <- Zle_Qle.
Qed.

(** ** The error of NumPy's sum *)

Lemma within_firstn (c n : nat) (a A : list Q) :
  Forall2 (Binary64.within c) a A ->
  Forall2 (Binary64.within c) (firstn n a) (firstn n A).
Proof.
  intros H. revert n. induction H as [|x X a A Hx Ha IH]; intros n.
  - rewrite !firstn_nil. constructor.
  - destruct n as [|n]; [constructor|]. cbn [firstn]. constructor; auto.
Qed.

Lemma within_skipn (c n : nat) (a A : list Q) :
  Forall2 (Binary64.within c) a A ->
  Forall2 (Binary64.within c) (skipn n a) (skipn n A).
Proof.
  intros H. revert n. induction H as [|x X a A Hx Ha IH]; intros n.
  - rewrite !skipn_nil. constructor.
  - destruct n as [|n]; [now constructor|]. cbn [skipn]. auto.
Qed.

Lemma Qsum_app (a b : list Q) : Qsum (a ++ b) == Qsum a + Qsum b.
Proof.
  induction a as [|x a IH]; cbn [app].
  - simpl. ring.
  - rewrite !Qsum_cons, IH. ring.
Qed.

Lemma Qsum_firstn_skipn (n : nat) (a : list Q) :
  Qsum (firstn n a) + Qsum (skipn n a) == Qsum a.
Proof. now rewrite <- Qsum_app, firstn_skipn. Qed.

Lemma sum_from_within (c : nat) (a A : list Q) :
  Forall2 (Binary64.within c) a A ->
  forall (k : nat) (res R : Q),
    (c <= k)%nat -> Binary64.within k res R ->
    Binary64.within (k + List.length a) (Binary64.sum_from res a)
      (R + Qsum A).
Proof.
  induction 1 as [|x X a A Hx Ha IH]; intros k res R Hck Hres.
  - cbn. rewrite Nat.add_0_r.
    apply (within_exact _ _ R); [simpl; ring | exact Hres].
  - cbn [Binary64.sum_from fold_left List.length].
    rewrite Nat.add_succ_r, <- Nat.add_succ_l.
    apply (within_exact _ _ (R + X + Qsum A)); [rewrite Qsum_cons; ring|].
    apply (IH (S k)); [lia|].
    apply within_fadd; [exact Hres|].
    now apply (within_weaken c k).
Qed.

Lemma add_lanes_within (c k : nat) (r R : list Q) :
  (c <= k)%nat -> Forall2 (Binary64.within k) r R ->
  forall a A, Forall2 (Binary64.within c) a A ->
    List.length a = List.length r ->
    exists R', Forall2 (Binary64.within (S k)) (Binary64.add_lanes r a) R'
               /\ Qsum R' == Qsum R + Qsum A.
Proof.
  intros Hck. induction 1 as [|x X r R Hx Hr IH]; intros a A Ha Hlen.
  - destruct Ha; [|discriminate]. exists []. split; [constructor|].
    simpl. ring.
  - destruct Ha as [|y Y a A Hy Ha]; [discriminate|].
    cbn [List.length] in Hlen.
    destruct (IH a A Ha ltac:(lia)) as (R' & HR' & Hsum).
    exists ((X + Y) :: R'). split.
    + cbn [Binary64.add_lanes]. constructor; [|exact HR'].
      apply within_fadd; [exact Hx|]. now apply (within_weaken c k).
    + rewrite !Qsum_cons, Hsum. ring.
Qed.

Lemma add_lanes_length (r a : list Q) :
  List.length (Binary64.add_lanes r a) = List.length r.
Proof.
  revert a. induction r as [|x r IH]; intros a; [reflexivity|].
  destruct a as [|y a]; [reflexivity|].
  cbn [Binary64.add_lanes List.length]. now rewrite IH.
Qed.

Lemma add_blocks_within (c : nat) (blocks : nat) :
  forall (k : nat) (r R a A : list Q),
    (c <= k)%nat -> List.length r = 8%nat ->
    Forall2 (Binary64.within k) r R -> Forall2 (Binary64.within c) a A ->
    (8 * blocks <= List.length a)%nat ->
    exists R' Rest,
      List.length (fst (Binary64.add_blocks blocks r a)) = 8%nat
      /\ Forall2 (Binary64.within (k + blocks))
           (fst (Binary64.add_blocks blocks r a)) R'
      /\ Forall2 (Binary64.within c)
           (snd (Binary64.add_blocks blocks r a)) Rest
      /\ Qsum R' + Qsum Rest == Qsum R + Qsum A
      /\ List.length (snd (Binary64.add_blocks blocks r a))
         = (List.length a - 8 * blocks)%nat.
Proof.
  induction blocks as [|b IH]; intros k r R a A Hck Hlen Hr Ha Hb.
  - exists R, A. cbn [Binary64.add_blocks fst snd].
    rewrite Nat.add_0_r. repeat split; try assumption; try reflexivity.
    lia.
  - cbn [Binary64.add_blocks].
    destruct (add_lanes_within c k r R Hck Hr (firstn 8 a) (firstn 8 A))
      as (R1 & HR1 & Hsum1).
    { now apply within_firstn. }
    { rewrite length_firstn. lia. }
    destruct (IH (S k) (Binary64.add_lanes r (firstn 8 a)) R1
                (skipn 8 a) (skipn 8 A))
      as (R' & Rest & Hl & HR' & HRest & Hsum & Hlr).
    { lia. }
    { now rewrite add_lanes_length. }
    { exact HR1. }
    { now apply within_skipn. }
    { rewrite length_skipn. lia. }
    exists R', Rest. repeat split.
    + exact Hl.
    + now rewrite Nat.add_succ_r, <- Nat.add_succ_l.
    + exact HRest.
    + rewrite Hsum, Hsum1, <- (Qsum_firstn_skipn 8 A). ring.
    + rewrite Hlr, length_skipn. lia.
Qed.

Lemma add_tree_within (k : nat) (r R : list Q) :
  List.length r = 8%nat -> Forall2 (Binary64.within k) r R ->
  Binary64.within (k + 3) (Binary64.add_tree r) (Qsum R).
Proof.
  intros Hlen H.
  do 8 (destruct H as [|? ? r R ? H]; [discriminate|]).
  destruct H; [|discriminate].
  cbn [Binary64.add_tree].
  replace (k + 3)%nat with (S (S (S k))) by lia.
  eapply within_exact;
    [|apply within_fadd; apply within_fadd; apply within_fadd;
      eassumption].
  rewrite !Qsum_cons. simpl. ring.
Qed.

Lemma pairwise_block_within (c : nat) (a A : list Q) :
  Forall2 (Binary64.within c) a A -> (8 <= List.length a)%nat ->
  Binary64.within (c + List.length a) (Binary64.pairwise_block a) (Qsum A).
Proof.
  intros Ha Hn. unfold Binary64.pairwise_block.
  set (n := List.length a) in *.
  pose proof (Nat.div_mod_eq n 8) as Hdm.
  pose proof (Nat.mod_upper_bound n 8 ltac:(lia)) as Hm.
  assert (Hq : (1 <= n / 8)%nat).
  { destruct (n / 8)%nat; lia. }
  destruct (add_blocks_within c (n / 8 - 1) c (firstn 8 a) (firstn 8 A)
              (skipn 8 a) (skipn 8 A))
    as (R' & Rest & Hl & HR' & HRest & Hsum & Hlr).
  { lia. }
  { rewrite length_firstn. fold n. lia. }
  { now apply within_firstn. }
  { now apply within_skipn. }
  { rewrite length_skipn. fold n. lia. }
  destruct (Binary64.add_blocks (n / 8 - 1) (firstn 8 a) (skipn 8 a))
    as [r rest] eqn:E.
  cbn [fst snd] in *.
  pose proof (add_tree_within _ r R' Hl HR') as Ht.
  pose proof (sum_from_within c rest Rest HRest (c + (n / 8 - 1) + 3) _ _
                ltac:(lia) Ht) as Hs.
  apply (within_exact _ _ (Qsum R' + Qsum Rest)).
  { rewrite Hsum. apply Qsum_firstn_skipn. }
  eapply within_weaken; [|exact Hs].
  rewrite Hlr, length_skipn. fold n. lia.
Qed.

Lemma pairwise_sum_within (c : nat) (fuel : nat) :
  forall a A : list Q,
    Forall2 (Binary64.within c) a A ->
    (List.length a <= fuel + 128)%nat ->
    Binary64.within (c + List.length a) (Binary64.pairwise_sum fuel a)
      (Qsum A).
Proof.
  induction fuel as [|fuel IH]; intros a A Ha Hfuel.
  - cbn [Binary64.pairwise_sum].
    destruct (List.length a <? 8)%nat eqn:E8.
    + apply (within_exact _ _ (0 + Qsum A)); [ring|].
      apply (sum_from_within c a A Ha c 0 0); [lia|].
      apply (within_weaken 0); [lia | apply within_refl; lra].
    + apply Nat.ltb_ge in E8.
      destruct (List.length a <=? 128)%nat eqn:E128.
      * now apply pairwise_block_within.
      * apply Nat.leb_gt in E128. lia.
  - cbn [Binary64.pairwise_sum].
    destruct (List.length a <? 8)%nat eqn:E8.
    + apply (within_exact _ _ (0 + Qsum A)); [ring|].
      apply (sum_from_within c a A Ha c 0 0); [lia|].
      apply (within_weaken 0); [lia | apply within_refl; lra].
    + apply Nat.ltb_ge in E8.
      destruct (List.length a <=? 128)%nat eqn:E128.
      * now apply pairwise_block_within.
      * apply Nat.leb_gt in E128.
        set (n := List.length a) in *.
        set (n2 := (n / 2 - (n / 2) mod 8)%nat).
        pose proof (Nat.div_mod_eq n 2) as Hdm.
        pose proof (Nat.mod_upper_bound n 2 ltac:(lia)) as Hm.
        pose proof (Nat.mod_upper_bound (n / 2) 8 ltac:(lia)) as Hm8.
        assert (Hn2 : (1 <= n2 /\ n2 < n)%nat) by (unfold n2; lia).
        apply (within_exact _ _ (Qsum (firstn n2 A) + Qsum (skipn n2 A)));
          [apply Qsum_firstn_skipn|].
        apply (within_weaken (S (c + (n - 1)))); [lia|].
        apply within_fadd.
        { eapply within_weaken;
            [|apply IH; [apply within_firstn; exact Ha|]];
            rewrite length_firstn; fold n; lia. }
        { eapply within_weaken;
            [|apply IH; [apply within_skipn; exact Ha|]];
            rewrite length_skipn; fold n; lia. }
Qed.

Lemma np_sum_within (c : nat) (a A : list Q) :
  Forall2 (Binary64.within c) a A ->
  Binary64.within (S (c + List.length a)) (Binary64.np_sum a) (Qsum A).
Proof.
  intros Ha. unfold Binary64.np_sum.
  apply (within_exact _ _ (0 + Qsum A)); [ring|].
  apply within_fadd.
  - apply (within_weaken 0); [lia | apply within_refl; lra].
  - apply pairwise_sum_within; [exact Ha | lia].
Qed.

Lemma np_mean_within (c : nat) (a A : list Q) :
  Forall2 (Binary64.within c) a A -> a <> [] ->
  Binary64.within (c + List.length a + 3) (Binary64.np_mean a)
    (Qsum A / inject_Z (len A)).
Proof.
  intros Ha Hne. unfold Binary64.np_mean.
  pose proof (Forall2_length Ha) as Hlen.
  assert (Hn : (0 < len a)%Z).
  { unfold len. destruct a; [congruence | cbn; lia]. }
  assert (E : len A = len a) by (unfold len; now rewrite Hlen).
  rewrite E.
  replace (c + List.length a + 3)%nat
    with (S (S (c + List.length a) + 1)) by lia.
  apply within_fdiv.
  - now apply np_sum_within.
  - apply within_of_int. lia.
  - change 0 with (inject_Z 0). now rewrite <- Zlt_Qlt.
Qed.

(** ** The statistics of the RR intervals in double precision *)

Lemma rr_intervals_within (r_peaks : list Z) (fs : Q) :
  Forall (fun d => (0 < d)%Z) (np_diffZ r_peaks) -> 0 < fs ->
  Forall2 (Binary64.within 2) (Binary64.rr_intervals_s r_peaks fs)
    (rr_intervals_s r_peaks fs).
Proof.
  intros Hd Hfs. unfold Binary64.rr_intervals_s, rr_intervals_s.
  induction Hd as [|d t Hd Ht IH]; cbn [map]; constructor; [|exact IH].
  change 2%nat with (S (1 + 0)). apply within_fdiv.
  - apply within_of_int. lia.
  - apply within_refl. lra.
  - exact Hfs.
Qed.

(** The mean RR interval the script computes is within [n + 4]
    roundings of [mean(diff(r_peaks)) / fs], [n] the number of peaks. *)
Lemma mean_rr_within (r_peaks : list Z) (fs : Q) :
  (2 <= len r_peaks)%Z ->
  Forall (fun d => (0 < d)%Z) (np_diffZ r_peaks) -> 0 < fs ->
  Binary64.within (List.length r_peaks + 4)
    (Binary64.np_mean (Binary64.rr_intervals_s r_peaks fs))
    (mean_diff r_peaks / fs).
Proof.
  intros Hlen Hd Hfs.
  pose proof (rr_intervals_within r_peaks fs Hd Hfs) as Hrr.
  assert (Hl : List.length (Binary64.rr_intervals_s r_peaks fs)
               = pred (List.length r_peaks)).
  { unfold Binary64.rr_intervals_s. now rewrite length_map, np_diffZ_length. }
  assert (Hne : Binary64.rr_intervals_s r_peaks fs <> []).
  { intros E. rewrite E in Hl. unfold len in Hlen. cbn in Hl. lia. }
  pose proof (np_mean_within 2 _ _ Hrr Hne) as Hm.
  rewrite Hl in Hm.
  apply (within_exact _ _ (np_mean (rr_intervals_s r_peaks fs)));
    [apply avg_rr_mean_diff|].
  eapply within_weaken; [|exact Hm]. unfold len in Hlen. lia.
Qed.

Lemma mean_rr_rounded_pos (r_peaks : list Z) (fs : Q) :
  (2 <= len r_peaks)%Z ->
  Forall (fun d => (0 < d)%Z) (np_diffZ r_peaks) -> 0 < fs ->
  0 < Binary64.np_mean (Binary64.rr_intervals_s r_peaks fs).
Proof.
  intros Hlen Hd Hfs.
  eapply within_positive; [now apply mean_rr_within|].
  apply Qlt_shift_div_l; [exact Hfs|]. rewrite Qmult_0_l.
  now apply mean_diff_pos.
Qed.

(** C5.  In double precision, with fewer than three peaks
    [detect_arrhythmia] answers "Insufficient data".  For an increasing
    peak list and a positive sampling rate its label is the one of the
    specification, decided on the doubles [cv = std_rr / mean_rr] and
    [mean_hr] that NumPy computes: "Flagged: Irregular Rhythm" as soon
    as [cv >= 0.15], whatever the mean rate; otherwise the rate tier,
    where "Normal Sinus Rhythm" with [cv >= 0.08] becomes "Borderline:
    Mild Irregularity". *)
Theorem detect_arrhythmia_rounded_label (r_peaks : list Z) (fs : Q)
  (verbose : bool) :
  ((len r_peaks < 3)%Z ->
   fst (Binary64.detect_arrhythmia r_peaks fs verbose)
   = "Insufficient data"%string)
  /\ (Sorted Z.lt r_peaks -> 0 < fs ->
      fst (Binary64.detect_arrhythmia r_peaks fs verbose)
      = Binary64.classify_rhythm_spec r_peaks fs).
Proof.
  split.
  - intros Hlen. unfold Binary64.detect_arrhythmia.
    apply Z.ltb_lt in Hlen. now rewrite Hlen.
  - intros Hs Hfs.
    unfold Binary64.detect_arrhythmia, Binary64.classify_rhythm_spec.
    destruct (len r_peaks <? 3)%Z eqn:Hlen; [reflexivity|].
    apply Z.ltb_ge in Hlen.
    assert (Hm : Qltb 0 (Binary64.np_mean
                           (Binary64.rr_intervals_s r_peaks fs)) = true).
    { apply Qltb_lt, mean_rr_rounded_pos;
        [lia | now apply np_diffZ_pos | assumption]. }
    rewrite Hm. unfold Binary64.cv_spec, Binary64.mean_hr_spec.
    set (ratio := Binary64.fdiv _ _). set (rate := Binary64.np_mean (map _ _)).
    cbn [fst].
    destruct (Qle_bool Binary64.irregular_cv ratio); [reflexivity|].
    destruct (Qltb rate 60) eqn:Hb.
    + rewrite rate_tier_not_normal by now left.
      rewrite andb_false_r. unfold rate_tier. now rewrite Hb.
    + destruct (Qltb 100 rate) eqn:Ht.
      * rewrite rate_tier_not_normal by now right.
        rewrite andb_false_r. unfold rate_tier. now rewrite Hb, Ht.
      * unfold rate_tier. rewrite Hb, Ht.
        now destruct (Qle_bool Binary64.borderline_cv ratio).
Qed.

Lemma detect_arrhythmia_rounded_label_witness :
  fst (Binary64.detect_arrhythmia two_peaks 250 false)
  = "Insufficient data"%string
  /\ fst (Binary64.detect_arrhythmia five_peaks 250 false)
     = Binary64.classify_rhythm_spec five_peaks 250.
Proof.
  split.
  - apply (proj1 (detect_arrhythmia_rounded_label two_peaks 250 false)).
    vm_compute. reflexivity.
  - apply (proj2 (detect_arrhythmia_rounded_label five_peaks 250 false)).
    + unfold five_peaks. repeat (constructor; try reflexivity).
    + reflexivity.
Defined.

(** The rounding decides.  For the peaks 10, 194 and 330 at 250 Hz the
    RR intervals are 0.736 s and 0.544 s: their standard deviation is
    0.15 times their mean, the double NumPy computes for the ratio is
    0.14999999999999997, below the double 0.15, and the label is the
    borderline one. *)
Example detect_arrhythmia_just_below :
  let rr := rr_intervals_s [10; 194; 330]%Z 250 in
  np_var rr == (0.15 * np_mean rr) * (0.15 * np_mean rr)
  /\ Binary64.cv_spec [10; 194; 330]%Z 250
     = 2702159776422297 # 18014398509481984
  /\ Binary64.cv_spec [10; 194; 330]%Z 250 < Binary64.irregular_cv
  /\ fst (Binary64.detect_arrhythmia [10; 194; 330]%Z 250 false)
     = "Borderline: Mild Irregularity"%string.
Proof.
  cbv zeta. split; [vm_compute; reflexivity|].
  split; [vm_compute; reflexivity|].
  split; vm_compute; reflexivity.
Qed.

(** ** The heart rate the detector reports *)

Lemma avg_bpm_rounded (r_peaks : list Z) (fs threshold : Q) :
  0 < fs -> Forall (fun d => (0 < d)%Z) (np_diffZ r_peaks) ->
  ((2 <= len r_peaks)%Z ->
   Binary64.within (List.length r_peaks + 5)
     (avg_heart_rate_bpm (Binary64.heart_rate_metrics r_peaks fs threshold))
     (60 * fs / mean_diff r_peaks))
  /\ ((len r_peaks < 2)%Z ->
      avg_heart_rate_bpm (Binary64.heart_rate_metrics r_peaks fs threshold)
      = 0).
Proof.
  intros Hfs Hpos. unfold Binary64.heart_rate_metrics. split; intros Hlen.
  - pose proof (mean_diff_pos r_peaks Hlen Hpos) as Hmd.
    pose proof (mean_rr_within r_peaks fs Hlen Hpos Hfs) as Hw.
    pose proof (mean_rr_rounded_pos r_peaks fs Hlen Hpos Hfs) as Havg.
    apply Z.leb_le in Hlen. rewrite Hlen. cbn [avg_heart_rate_bpm].
    apply Qltb_lt in Havg. rewrite Havg.
    apply (within_exact _ _ (60 / (mean_diff r_peaks / fs)));
      [field; split; lra|].
    replace (List.length r_peaks + 5)%nat
      with (S (0 + (List.length r_peaks + 4))) by lia.
    apply within_fdiv; [apply within_refl; lra | exact Hw|].
    apply Qlt_shift_div_l; [exact Hfs|]. now rewrite Qmult_0_l.
  - destruct (2 <=? len r_peaks)%Z eqn:E; [|reflexivity].
    apply Z.leb_le in E. lia.
Qed.

(** C6, as stated, fails: the rate is computed in double precision, as
    [60.0 / mean(diff(r_peaks) / fs)].  On [three_beats] at 100 Hz the
    detector returns the peaks 9, 43 and 71; [60 fs / mean(diff)] is
    6000 / 31, the nearest double is 193.5483870967742, and the script
    reports 193.54838709677415, more than one unit in the last place
    away from 6000 / 31. *)
Lemma avg_bpm_rounding_counterexample :
  detected_peaks (@pan_tompkins_detector scipy_tabulated three_beats 100
                    false []) = Some [9; 43; 71]%Z
  /\ 60 * 100 / mean_diff [9; 43; 71]%Z == 6000 # 31
  /\ avg_heart_rate_bpm (Binary64.heart_rate_metrics [9; 43; 71]%Z 100 0)
     = 425617404300387 # 2199023255552
  /\ Binary64.round (6000 # 31) = 3404939234403097 # 17592186044416
  /\ Binary64.ulp (6000 # 31)
     < Qabs ((425617404300387 # 2199023255552) - (6000 # 31)).
Proof.
  split; [vm_compute; reflexivity|]. split; [vm_compute; reflexivity|].
  split; [vm_compute; reflexivity|]. split; vm_compute; reflexivity.
Qed.

(** Peaks 185 and 240 samples apart at 360 Hz: the script reports
    101.64705882352943, two units in the last place above
    101.64705882352941, the double nearest to [60 fs / mean(diff)]. *)
Example avg_bpm_two_ulps :
  avg_heart_rate_bpm (Binary64.heart_rate_metrics [0; 185; 425]%Z 360 0)
  = 7152775878764907 # 70368744177664
  /\ Binary64.round (60 * 360 / mean_diff [0; 185; 425]%Z)
     = 7152775878764905 # 70368744177664
  /\ Binary64.ulp (60 * 360 / mean_diff [0; 185; 425]%Z)
     == 1 # 70368744177664.
Proof.
  split; [vm_compute; reflexivity|]. split; vm_compute; reflexivity.
Qed.

(** C6, amended.  On a sampling rate above 30 Hz and more than 15
    samples the detector returns.  With fewer than two peaks the rate
    reported is 0; with [n >= 2] peaks it is the double
    [60.0 / mean(diff(r_peaks) / fs)], within [n + 5] roundings of
    [60 * fs / mean(diff(r_peaks))]: each of the two numbers is at most
    [(1 + eta) ^ (n + 5)] times the other, [eta = 1 / (2 ^ 53 - 1)]. *)
Theorem detector_avg_bpm_rounded `{Kernels} (ecg_signal : list Q) (fs : Q)
  (verbose : bool) (out : stdout) :
  30 < fs -> (15 < len ecg_signal)%Z ->
  exists r_peaks metrics out',
    pan_tompkins_detector ecg_signal fs verbose out
    = (Ok (r_peaks, metrics), out')
    /\ let reported :=
         Binary64.heart_rate_metrics r_peaks fs (final_threshold metrics) in
       ((2 <= len r_peaks)%Z ->
        Binary64.within (List.length r_peaks + 5)
          (avg_heart_rate_bpm reported) (60 * fs / mean_diff r_peaks))
       /\ ((len r_peaks < 2)%Z -> avg_heart_rate_bpm reported = 0).
Proof.
  intros Hfs Hlen.
  destruct (pan_tompkins_detector_run ecg_signal fs verbose out Hfs Hlen)
    as (st & _ & Hsp & Hrun).
  eexists _, _, _. split; [exact Hrun|]. cbv zeta.
  apply avg_bpm_rounded; [lra|].
  eapply Forall_impl; [|exact Hsp]. intros d Hd. cbv beta in Hd.
  assert (H0 : 0 <= fs) by lra.
  pose proof (search_window_le_refractory fs H0). lia.
Qed.

Lemma detector_avg_bpm_rounded_witness :
  exists r_peaks metrics out',
    @pan_tompkins_detector passthrough close_beats 250 false []
    = (Ok (r_peaks, metrics), out')
    /\ let reported :=
         Binary64.heart_rate_metrics r_peaks 250 (final_threshold metrics) in
       ((2 <= len r_peaks)%Z ->
        Binary64.within (List.length r_peaks + 5)
          (avg_heart_rate_bpm reported) (60 * 250 / mean_diff r_peaks))
       /\ ((len r_peaks < 2)%Z -> avg_heart_rate_bpm reported = 0).
Proof.
  apply (@detector_avg_bpm_rounded passthrough close_beats 250 false []).
  - reflexivity.
  - vm_compute. reflexivity.
Defined.

(** ** Agreement with the Standard Library's IEEE 754 specification

    The operations of [SpecFloat] at precision 53 and maximal exponent
    1024 give the numbers of [Binary64]: on the two examples above, on
    two sums that fall halfway between doubles, and on 64 pairs of
    pseudo-random doubles. *)
Example ieee_agrees :
  ieee_value (ieee_cv3 10 194 330 250)
  = Some (Binary64.cv_spec [10; 194; 330]%Z 250)
  /\ ieee_value (ieee_avg_bpm3 9 43 71 100)
     = Some (avg_heart_rate_bpm
               (Binary64.heart_rate_metrics [9; 43; 71]%Z 100 0))
  /\ ieee_value (ieee_div (ieee_of_int 15) (ieee_of_int 100))
     = Some Binary64.irregular_cv
  /\ ieee_value (ieee_div (ieee_of_int 8) (ieee_of_int 100))
     = Some Binary64.borderline_cv.
Proof.
  split; [vm_compute; reflexivity|]. split; [vm_compute; reflexivity|].
  split; vm_compute; reflexivity.
Qed.

Example ieee_agrees_on_ties :
  ieee_value (ieee_add (ieee_of_int (2 ^ 53)) (ieee_of_int 1))
  = Some (Binary64.fadd (inject_Z (2 ^ 53)) 1)
  /\ Binary64.fadd (inject_Z (2 ^ 53)) 1 = inject_Z (2 ^ 53)
  /\ ieee_value (ieee_add (ieee_of_int (2 ^ 53 + 2)) (ieee_of_int 1))
     = Some (Binary64.fadd (inject_Z (2 ^ 53 + 2)) 1)
  /\ Binary64.fadd (inject_Z (2 ^ 53 + 2)) 1 = inject_Z (2 ^ 53 + 4).
Proof.
  split; [vm_compute; reflexivity|]. split; [vm_compute; reflexivity|].
  split; vm_compute; reflexivity.
Qed.

Example ieee_agrees_on_samples : agree_on_pairs (lcg 65 1) = true.
Proof. vm_compute. reflexivity. Qed.

(** ** Where the detector returns *)

Lemma Qdiv_pos_inv (a b : Q) : 0 < a -> 0 < a / b -> 0 < b.
Proof.
  intros Ha Hab. destruct (Qlt_le_dec 0 b) as [Hb|Hb]; [exact Hb|].
  exfalso. destruct (Qeq_dec b 0) as [E|E].
  - rewrite E in Hab. unfold Qdiv in Hab.
    change (/ 0) with 0 in Hab. lra.
  - assert (Hinv : (a / b) * b == a) by (field; exact E).
    nra.
Qed.

Lemma butter_inv (N : nat) (low high : Q) (ba : iir_design) :
  butter N low high = Ok ba ->
  ba = Butter N low high /\ 0 < low /\ low < 1 /\ 0 < high /\ high < 1.
Proof.
  unfold butter.
  destruct (Qltb 0 low) eqn:H1; [|discriminate].
  destruct (Qltb low 1) eqn:H2; [|discriminate].
  destruct (Qltb 0 high) eqn:H3; [|discriminate].
  destruct (Qltb high 1) eqn:H4; [|discriminate].
  cbn [andb]. intros [= <-].
  apply Qltb_lt in H1, H2, H3, H4. tauto.
Qed.

Lemma filtfilt_inv `{Kernels} (ba : iir_design) (x y : list Q) :
  filtfilt ba x = Ok y -> (3 * ntaps ba < len x)%Z /\ y = filtfilt_kernel ba x.
Proof.
  unfold filtfilt.
  destruct (len x <=? 3 * ntaps ba)%Z eqn:E; [discriminate|].
  intros [= <-]. apply Z.leb_gt in E. split; [lia | reflexivity].
Qed.

Lemma py_div_inv (a b q : Q) : py_div a b = Ok q -> ~ b == 0 /\ q = a / b.
Proof.
  unfold py_div. destruct (Qeq_bool b 0) eqn:E; [discriminate|].
  intros [= <-]. split; [|reflexivity].
  intros Hb. apply Qeq_bool_iff in Hb. congruence.
Qed.

Lemma cutoff_below_one (c fs : Q) :
  0 < c -> 0 < c / (fs / 2) -> c / (fs / 2) < 1 -> 2 * c < fs.
Proof.
  intros Hc Hpos Hlt.
  pose proof (Qdiv_pos_inv c (fs / 2) Hc Hpos) as Hny.
  assert (Hinv : c / (fs / 2) * (fs / 2) == c).
  { generalize dependent (fs / 2). intros b _ _ Hb. field. lra. }
  pose proof (nyquist_half fs). nra.
Qed.

(** The outcome of a script function, without the output. *)
Lemma bind_lift_ok {A B} (r : result A) (k : A -> Py B) (out out' : stdout)
  (v : B) :
  (x <- lift r ;; k x) out = (Ok v, out') ->
  exists x, r = Ok x /\ k x out = (Ok v, out').
Proof.
  py_run. destruct r as [x|e]; [|discriminate].
  intros Hk. now exists x.
Qed.

Lemma pan_tompkins_detector_domain `{Kernels} (ecg_signal : list Q) (fs : Q)
  (verbose : bool) (out : stdout) (v : list Z * detection_metrics)
  (out' : stdout) :
  pan_tompkins_detector ecg_signal fs verbose out = (Ok v, out') ->
  30 < fs /\ (15 < len ecg_signal)%Z.
Proof.
  unfold pan_tompkins_detector. intros Hrun.
  assert (Hrest : exists o,
    (low <- lift (py_div 5 (fs / 2)) ;;
     high <- lift (py_div 15 (fs / 2)) ;;
     ba_qrs <- lift (butter 2 low high) ;;
     filtered_qrs <- lift (filtfilt ba_qrs ecg_signal) ;;
     integrated <- lift (np_convolve_same
                           (map (fun d => d * d)
                              (five_point_derivative filtered_qrs fs))
                           (boxcar (py_int (0.120 * fs)))) ;;
     match adaptive_thresholding integrated ecg_signal fs with
     | None => lift (Raise LoopDiverges)
     | Some st =>
         ret (st_r_peaks st,
              heart_rate_metrics (st_r_peaks st) fs (st_threshold st))
     end) o = (Ok v, out')).
  { destruct verbose; py_run; py_run in Hrun; eexists; exact Hrun. }
  clear Hrun. destruct Hrest as [o Hrun].
  apply bind_lift_ok in Hrun. destruct Hrun as (low & Hlow & Hrun).
  apply bind_lift_ok in Hrun. destruct Hrun as (high & Hhigh & Hrun).
  apply bind_lift_ok in Hrun. destruct Hrun as (ba & Hba & Hrun).
  apply bind_lift_ok in Hrun. destruct Hrun as (y & Hy & _).
  apply py_div_inv in Hlow, Hhigh. destruct Hlow as [_ ->], Hhigh as [_ ->].
  apply butter_inv in Hba. destruct Hba as (-> & _ & _ & Hpos & Hlt).
  apply filtfilt_inv in Hy. destruct Hy as [Hlen _]. cbn [ntaps] in Hlen.
  split; [|lia].
  pose proof (cutoff_below_one 15 fs ltac:(lra) Hpos Hlt). lra.
Qed.

(** ** Where preprocessing returns *)

Lemma cutoff_in_range (c fs : Q) :
  0 < c -> 2 * c < fs -> 0 < c / (fs / 2) /\ c / (fs / 2) < 1.
Proof.
  intros Hc Hfs. pose proof (nyquist_half fs).
  split; [apply Qlt_shift_div_l | apply Qlt_shift_div_r]; lra.
Qed.

Lemma butter_cases (N : nat) (low high : Q) :
  butter N low high = Ok (Butter N low high)
  \/ butter N low high = Raise ValueError.
Proof.
  unfold butter.
  destruct (Qltb 0 low && Qltb low 1 && Qltb 0 high && Qltb high 1);
    [now left | now right].
Qed.

Lemma butter_rejects (N : nat) (c1 c2 fs : Q) :
  0 < c2 -> fs <= 2 * c2 ->
  butter N (c1 / (fs / 2)) (c2 / (fs / 2)) = Raise ValueError.
Proof.
  intros Hc Hfs.
  destruct (butter_cases N (c1 / (fs / 2)) (c2 / (fs / 2))) as [Hok|Hno];
    [|exact Hno].
  apply butter_inv in Hok. destruct Hok as (_ & _ & _ & Hpos & Hlt).
  pose proof (cutoff_below_one c2 fs Hc Hpos Hlt). lra.
Qed.

Lemma iirnotch_ok (w0 Qf : Q) :
  0 <= w0 -> w0 <= 1 -> iirnotch w0 Qf = Ok (Notch w0 Qf).
Proof.
  intros H0 H1. unfold iirnotch.
  apply Qltb_ge in H0, H1. now rewrite H0, H1.
Qed.

Lemma iirnotch_rejects (w0 Qf : Q) :
  1 < w0 -> iirnotch w0 Qf = Raise ValueError.
Proof.
  intros H1. unfold iirnotch. apply Qltb_lt in H1. now rewrite H1.
Qed.

Lemma notch_frequency (fs : Q) :
  0 < fs -> (120 <= fs <-> 60 / (fs / 2) <= 1).
Proof.
  intros Hfs. pose proof (nyquist_half fs). split; intros Hle.
  - apply Qle_shift_div_r; lra.
  - assert (Hinv : 60 / (fs / 2) * (fs / 2) == 60).
    { generalize dependent (fs / 2). intros b Hb _. field. lra. }
    nra.
Qed.

Lemma filtfilt_rejects `{Kernels} (ba : iir_design) (x : list Q) :
  (len x <= 3 * ntaps ba)%Z -> filtfilt ba x = Raise ValueError.
Proof.
  intros Hlen. unfold filtfilt. apply Z.leb_le in Hlen. now rewrite Hlen.
Qed.

Lemma uniform_filter1d_ok (x : list Q) (size : Z) :
  (1 <= size)%Z -> uniform_filter1d x size = Ok (moving_average x size).
Proof.
  intros Hsize. unfold uniform_filter1d.
  destruct (size <? 1)%Z eqn:E; [apply Z.ltb_lt in E; lia | reflexivity].
Qed.

Lemma moving_average_length (x : list Q) (size : Z) :
  List.length (moving_average x size) = List.length x.
Proof.
  unfold moving_average. rewrite length_map, range_length. unfold len. lia.
Qed.

Lemma np_sub_length (x y : list Q) :
  List.length y = List.length x -> List.length (np_sub x y) = List.length x.
Proof.
  intros Hlen. unfold np_sub. rewrite length_map, length_combine. lia.
Qed.

Lemma py_div_zero (a b : Q) : b == 0 -> py_div a b = Raise ZeroDivisionError.
Proof.
  intros Hb. unfold py_div. apply Qeq_bool_iff in Hb. now rewrite Hb.
Qed.

Section PreprocessOutcome.

Context `{K : Kernels}.

Lemma preprocess_cleaned_length (raw_signal : list Q) (fs : Q) :
  len (preprocess_cleaned raw_signal fs) = len raw_signal.
Proof.
  unfold preprocess_cleaned, len. f_equal.
  rewrite np_sub_length; [|apply moving_average_length].
  now rewrite !filtfilt_kernel_length.
Qed.

Lemma preprocess_ecg_returns (raw_signal : list Q) (fs : Q) (verbose : bool)
  (out : stdout) :
  120 <= fs -> (27 < len raw_signal)%Z ->
  exists metrics,
    preprocess_ecg raw_signal fs verbose out
    = (Ok (preprocess_cleaned raw_signal fs, metrics),
       if verbose then out ++ [LogPreprocessInput (len raw_signal) fs]
       else out).
Proof.
  intros Hfs Hlen. pose proof (nyquist_half fs) as Hhalf.
  assert (Hny : ~ fs / 2 == 0) by (intros E; lra).
  destruct (cutoff_in_range 0.5 fs) as [Hl0 Hl1]; [lra | lra |].
  destruct (cutoff_in_range 40 fs) as [Hh0 Hh1]; [lra | lra |].
  assert (Hw0 : 60 / (fs / 2) <= 1) by (apply notch_frequency; lra).
  assert (Hw0' : 0 <= 60 / (fs / 2)).
  { apply Qle_shift_div_l; lra. }
  assert (Hsize : (1 <= py_int (0.2 * fs))%Z).
  { assert (24 <= py_int (0.2 * fs))%Z; [|lia].
    apply py_int_ge; [lia|]. change (inject_Z 24) with 24. lra. }
  eexists. unfold preprocess_ecg, preprocess_cleaned.
  destruct verbose; py_run;
    rewrite (py_div_ok 0.5) by exact Hny; py_run;
    rewrite (py_div_ok 40) by exact Hny; py_run;
    rewrite butter_ok by assumption; py_run;
    rewrite filtfilt_ok by (cbn [ntaps]; lia); py_run;
    rewrite (py_div_ok 60) by exact Hny; py_run;
    rewrite iirnotch_ok by assumption; py_run;
    (rewrite filtfilt_ok
       by (cbn [ntaps]; unfold len in *;
           rewrite filtfilt_kernel_length; lia)); py_run;
    rewrite uniform_filter1d_ok by exact Hsize; reflexivity.
Qed.

Lemma preprocess_ecg_raises (raw_signal : list Q) (fs : Q) (verbose : bool)
  (out : stdout) :
  fs < 120 \/ (len raw_signal <= 27)%Z ->
  preprocess_ecg raw_signal fs verbose out
  = (Raise (argument_error fs),
     if verbose then out ++ [LogPreprocessInput (len raw_signal) fs]
     else out).
Proof.
  intros Hbad. pose proof (nyquist_half fs) as Hhalf.
  unfold preprocess_ecg, argument_error.
  destruct (Qeq_dec fs 0) as [Hz|Hnz].
  { assert (Hb : Qeq_bool fs 0 = true) by now apply Qeq_bool_iff.
    rewrite Hb.
    destruct verbose; py_run;
      rewrite (py_div_zero 0.5) by lra; reflexivity. }
  assert (Hb : Qeq_bool fs 0 = false).
  { destruct (Qeq_bool fs 0) eqn:E; [|reflexivity].
    apply Qeq_bool_iff in E. contradiction. }
  rewrite Hb.
  assert (Hny : ~ fs / 2 == 0) by (intros E; lra).
  destruct (Qlt_le_dec 80 fs) as [H80|H80].
  2: { destruct verbose; py_run;
         rewrite (py_div_ok 0.5) by exact Hny; py_run;
         rewrite (py_div_ok 40) by exact Hny; py_run;
         rewrite butter_rejects by lra; reflexivity. }
  destruct (cutoff_in_range 0.5 fs) as [Hl0 Hl1]; [lra | lra |].
  destruct (cutoff_in_range 40 fs) as [Hh0 Hh1]; [lra | lra |].
  destruct (Z_lt_le_dec 27 (len raw_signal)) as [Hlen|Hlen].
  2: { destruct verbose; py_run;
         rewrite (py_div_ok 0.5) by exact Hny; py_run;
         rewrite (py_div_ok 40) by exact Hny; py_run;
         rewrite butter_ok by assumption; py_run;
         rewrite filtfilt_rejects by (cbn [ntaps]; lia); reflexivity. }
  destruct Hbad as [H120|Hshort]; [|lia].
  assert (Hw0 : 1 < 60 / (fs / 2)).
  { apply Qnot_le_lt. intros Hle. apply notch_frequency in Hle; lra. }
  destruct verbose; py_run;
    rewrite (py_div_ok 0.5) by exact Hny; py_run;
    rewrite (py_div_ok 40) by exact Hny; py_run;
    rewrite butter_ok by assumption; py_run;
    rewrite filtfilt_ok by (cbn [ntaps]; lia); py_run;
    rewrite (py_div_ok 60) by exact Hny; py_run;
    rewrite iirnotch_rejects by exact Hw0; reflexivity.
Qed.

End PreprocessOutcome.

(** C2, as stated, fails.  At 250 Hz [window_samples] is 50; a strip of
    50 samples is shorter than [window_samples + 1], and preprocessing
    returns a cleaned signal of 50 samples for it. *)
Lemma preprocess_short_input_counterexample :
  (len short_strip < py_int (0.2 * 250) + 1)%Z
  /\ exists cleaned,
       cleaned_of (@preprocess_ecg passthrough short_strip 250 false [])
       = Some cleaned
       /\ len cleaned = 50%Z.
Proof.
  split; [reflexivity|].
  destruct (@preprocess_ecg_returns passthrough short_strip 250 false [])
    as (metrics & Hrun).
  - discriminate.
  - reflexivity.
  - eexists. unfold cleaned_of. rewrite Hrun. split; [reflexivity|].
    now rewrite preprocess_cleaned_length.
Qed.

(** C2, amended.  [preprocess_ecg] has no check and no error kind of its
    own.  It raises, and produces no cleaned signal, exactly when SciPy
    rejects an argument: for [fs < 120] (division by a zero Nyquist
    frequency at [fs = 0]; a band cutoff outside (0, 1) up to 80 Hz; the
    notch frequency [120 / fs] above 1 below 120 Hz) or for at most 27
    samples ([filtfilt]'s padding for the 9-tap band-pass).  The error is
    a [ValueError] or, at [fs = 0], a [ZeroDivisionError].  On every
    other input it returns a cleaned signal of the length of the input;
    the moving-average window sets no minimum length. *)
Theorem preprocess_ecg_outcome `{Kernels} (raw_signal : list Q) (fs : Q)
  (verbose : bool) (out : stdout) :
  (fs < 120 \/ (len raw_signal <= 27)%Z ->
   exists e out',
     preprocess_ecg raw_signal fs verbose out = (Raise e, out')
     /\ (e = ValueError \/ e = ZeroDivisionError))
  /\ (120 <= fs -> (27 < len raw_signal)%Z ->
      exists cleaned metrics out',
        preprocess_ecg raw_signal fs verbose out
        = (Ok (cleaned, metrics), out')
        /\ len cleaned = len raw_signal).
Proof.
  split.
  - intros Hbad. eexists _, _.
    split; [exact (preprocess_ecg_raises raw_signal fs verbose out Hbad)|].
    unfold argument_error. destruct (Qeq_bool fs 0); tauto.
  - intros Hfs Hlen.
    destruct (preprocess_ecg_returns raw_signal fs verbose out Hfs Hlen)
      as (metrics & Hrun).
    eexists _, _, _. split; [exact Hrun|].
    apply preprocess_cleaned_length.
Qed.

Lemma preprocess_ecg_outcome_witness :
  (exists e out',
     @preprocess_ecg passthrough (zeros 20) 250 false [] = (Raise e, out')
     /\ (e = ValueError \/ e = ZeroDivisionError))
  /\ (exists cleaned metrics out',
        @preprocess_ecg passthrough short_strip 250 false []
        = (Ok (cleaned, metrics), out')
        /\ len cleaned = len short_strip).
Proof.
  split.
  - apply (proj1 (@preprocess_ecg_outcome passthrough (zeros 20) 250
                    false [])).
    right. vm_compute. discriminate.
  - apply (proj2 (@preprocess_ecg_outcome passthrough short_strip 250
                    false [])).
    + discriminate.
    + reflexivity.
Defined.

(** ** What the pipeline keeps of the standard output *)

Lemma insensitive_ret {A} (x : A) : insensitive (ret x : Py A).
Proof. exists (Ok x), []. intros out. py_run. now rewrite app_nil_r. Qed.

Lemma insensitive_print (l : log_line) : insensitive (print l).
Proof. exists (Ok tt), [l]. reflexivity. Qed.

Lemma insensitive_lift {A} (r : result A) : insensitive (lift r).
Proof. exists r, []. intros out. unfold lift. now rewrite app_nil_r. Qed.

Lemma insensitive_bind {A B} (m : Py A) (k : A -> Py B) :
  insensitive m -> (forall x, insensitive (k x)) -> insensitive (bind m k).
Proof.
  intros (r & printed & Hm) Hk. destruct r as [x|e].
  - destruct (Hk x) as (r' & printed' & Hkx).
    exists r', (printed ++ printed'). intros out. py_run.
    now rewrite Hm, Hkx, app_assoc.
  - exists (Raise e), printed. intros out. py_run. now rewrite Hm.
Qed.

Lemma insensitive_when (b : bool) (m : Py unit) :
  insensitive m -> insensitive (when b m).
Proof. intros Hm. destruct b; [exact Hm | apply insensitive_ret]. Qed.

(** Go through a script function operation by operation. *)
Ltac insensitive_steps :=
  repeat first
    [ apply insensitive_ret
    | apply insensitive_print
    | apply insensitive_lift
    | apply insensitive_when
    | apply insensitive_bind; [|intros ?]
    | match goal with
      | |- insensitive (match ?x with _ => _ end) => destruct x
      end ].

Section OutputInsensitive.

Context `{K : Kernels}.

Lemma preprocess_ecg_insensitive (raw_signal : list Q) (fs : Q)
  (verbose : bool) : insensitive (preprocess_ecg raw_signal fs verbose).
Proof. unfold preprocess_ecg. insensitive_steps. Qed.

Lemma pan_tompkins_detector_insensitive (ecg_signal : list Q) (fs : Q)
  (verbose : bool) : insensitive (pan_tompkins_detector ecg_signal fs verbose).
Proof. unfold pan_tompkins_detector. insensitive_steps. Qed.

Lemma process_ecg_complete_insensitive (raw_voltages : list Q)
  (sample_rate : Q) (verbose : bool) :
  insensitive (process_ecg_complete raw_voltages sample_rate verbose).
Proof.
  unfold process_ecg_complete.
  apply insensitive_bind; [insensitive_steps | intros _].
  apply insensitive_bind; [apply preprocess_ecg_insensitive | intros [c fm]].
  apply insensitive_bind;
    [apply pan_tompkins_detector_insensitive | intros [r dm]].
  destruct (detect_arrhythmia r sample_rate verbose) as [rhythm am].
  apply insensitive_bind; [apply insensitive_lift | intros qrs].
  apply insensitive_bind; [apply insensitive_lift | intros qt].
  destruct (clinical_interpretation rhythm dm qrs qt
              (calculate_hrv_metrics r sample_rate verbose)) as [label ws].
  insensitive_steps.
Qed.

End OutputInsensitive.

(** ** The detector on arguments SciPy rejects *)

Lemma pan_tompkins_detector_raises `{Kernels} (ecg_signal : list Q) (fs : Q)
  (verbose : bool) (out : stdout) :
  fs <= 30 \/ (len ecg_signal <= 15)%Z ->
  pan_tompkins_detector ecg_signal fs verbose out
  = (Raise (argument_error fs),
     if verbose then out ++ [LogDetectorStart (len ecg_signal)] else out).
Proof.
  intros Hbad. pose proof (nyquist_half fs) as Hhalf.
  unfold pan_tompkins_detector, argument_error.
  destruct (Qeq_dec fs 0) as [Hz|Hnz].
  { assert (Hb : Qeq_bool fs 0 = true) by now apply Qeq_bool_iff.
    rewrite Hb.
    destruct verbose; py_run; rewrite (py_div_zero 5) by lra; reflexivity. }
  assert (Hb : Qeq_bool fs 0 = false).
  { destruct (Qeq_bool fs 0) eqn:E; [|reflexivity].
    apply Qeq_bool_iff in E. contradiction. }
  rewrite Hb.
  assert (Hny : ~ fs / 2 == 0) by (intros E; lra).
  destruct (Qlt_le_dec 30 fs) as [H30|H30].
  2: { destruct verbose; py_run;
         rewrite (py_div_ok 5) by exact Hny; py_run;
         rewrite (py_div_ok 15) by exact Hny; py_run;
         rewrite butter_rejects by lra; reflexivity. }
  destruct Hbad as [Hfs|Hlen]; [lra|].
  destruct (cutoff_in_range 5 fs) as [Hl0 Hl1]; [lra | lra |].
  destruct (cutoff_in_range 15 fs) as [Hh0 Hh1]; [lra | lra |].
  destruct verbose; py_run;
    rewrite (py_div_ok 5) by exact Hny; py_run;
    rewrite (py_div_ok 15) by exact Hny; py_run;
    rewrite butter_ok by assumption; py_run;
    rewrite filtfilt_rejects by (cbn [ntaps]; lia); reflexivity.
Qed.

(** The bound on the number of passes of the [while] loop is never
    reached. *)
Lemma pan_tompkins_detector_never_diverges `{Kernels} (ecg_signal : list Q)
  (fs : Q) (verbose : bool) (out : stdout) :
  fst (pan_tompkins_detector ecg_signal fs verbose out) <> Raise LoopDiverges.
Proof.
  destruct (Qlt_le_dec 30 fs) as [Hfs|Hfs];
    [destruct (Z_lt_le_dec 15 (len ecg_signal)) as [Hlen|Hlen]|].
  - destruct (pan_tompkins_detector_run ecg_signal fs verbose out Hfs Hlen)
      as (st & _ & _ & ->).
    discriminate.
  - rewrite pan_tompkins_detector_raises by now right.
    unfold argument_error. cbn [fst]. now destruct (Qeq_bool fs 0).
  - rewrite pan_tompkins_detector_raises by now left.
    unfold argument_error. cbn [fst]. now destruct (Qeq_bool fs 0).
Qed.

(** ** Scaling a signal *)

Lemma Qltb_scaled (beta a b a' b' : Q) :
  0 < beta -> a' == beta * a -> b' == beta * b -> Qltb a' b' = Qltb a b.
Proof.
  intros Hb Ha Hb'. destruct (Qltb a b) eqn:E.
  - apply Qltb_lt in E. apply Qltb_lt. rewrite Ha, Hb'. nra.
  - apply Qltb_ge in E. apply Qltb_ge. rewrite Ha, Hb'. nra.
Qed.

Lemma Qle_bool_scaled (beta a b a' b' : Q) :
  0 < beta -> a' == beta * a -> b' == beta * b ->
  Qle_bool a' b' = Qle_bool a b.
Proof.
  intros Hb Ha Hb'.
  pose proof (Qltb_scaled beta b a b' a' Hb Hb' Ha) as H.
  unfold Qltb in H. now apply (f_equal negb) in H; rewrite !negb_involutive in H.
Qed.

Section ScaledLists.

Variable beta : Q.

Lemma scaled_length (x y : list Q) :
  scaled beta x y -> List.length y = List.length x.
Proof. intros H. symmetry. exact (Forall2_length H). Qed.

Lemma scaled_len (x y : list Q) : scaled beta x y -> len y = len x.
Proof. intros H. unfold len. now rewrite (scaled_length x y H). Qed.

Lemma scaled_nth (x y : list Q) :
  scaled beta x y -> forall n, nth n y 0 == beta * nth n x 0.
Proof.
  induction 1 as [|a b x y Hab Hxy IH]; intros n.
  - destruct n; simpl; ring.
  - destruct n; simpl; [exact Hab | apply IH].
Qed.

Lemma scaled_at (x y : list Q) :
  scaled beta x y -> forall i, at_ y i == beta * at_ x i.
Proof.
  intros H i. unfold at_. destruct (i <? 0)%Z; [ring|].
  now apply scaled_nth.
Qed.

Lemma scaled_nearest (x y : list Q) :
  scaled beta x y -> forall i, nearest y i == beta * nearest x i.
Proof.
  intros H i. unfold nearest. rewrite (scaled_len x y H).
  now apply scaled_at.
Qed.

Lemma scaled_map {A} (f g : A -> Q) (l : list A) :
  (forall i, g i == beta * f i) -> scaled beta (map f l) (map g l).
Proof.
  intros Hfg. induction l as [|i l IH]; simpl; constructor;
    [apply Hfg | exact IH].
Qed.

Lemma scaled_firstn (n : nat) (x y : list Q) :
  scaled beta x y -> scaled beta (firstn n x) (firstn n y).
Proof.
  intros H. revert n. induction H as [|a b x y Hab Hxy IH]; intros n.
  - destruct n; constructor.
  - destruct n; simpl; [constructor|].
    constructor; [exact Hab | apply IH].
Qed.

Lemma scaled_skipn (n : nat) (x y : list Q) :
  scaled beta x y -> scaled beta (skipn n x) (skipn n y).
Proof.
  intros H. revert n. induction H as [|a b x y Hab Hxy IH]; intros n.
  - destruct n; constructor.
  - destruct n; simpl; [|apply IH].
    constructor; [exact Hab | exact Hxy].
Qed.

Lemma scaled_app (x1 y1 x2 y2 : list Q) :
  scaled beta x1 y1 -> scaled beta x2 y2 ->
  scaled beta (x1 ++ x2) (y1 ++ y2).
Proof. apply Forall2_app. Qed.

Lemma scaled_py_slice (x y : list Q) (start stop : Z) :
  scaled beta x y ->
  scaled beta (py_slice x start stop) (py_slice y start stop).
Proof.
  intros H. unfold py_slice. rewrite (scaled_len x y H).
  now apply scaled_firstn, scaled_skipn.
Qed.

Lemma scaled_py_slice_from (x y : list Q) (start : Z) :
  scaled beta x y ->
  scaled beta (py_slice_from x start) (py_slice_from y start).
Proof.
  intros H. unfold py_slice_from. rewrite (scaled_len x y H).
  now apply scaled_skipn.
Qed.

Lemma Qsum_scaled (x y : list Q) :
  scaled beta x y -> Qsum y == beta * Qsum x.
Proof.
  induction 1 as [|a b x y Hab Hxy IH].
  - simpl. ring.
  - rewrite !Qsum_cons, IH, Hab. ring.
Qed.

Lemma np_mean_scaled (x y : list Q) :
  scaled beta x y -> np_mean y == beta * np_mean x.
Proof.
  intros H. unfold np_mean.
  rewrite (scaled_len x y H), (Qsum_scaled x y H). unfold Qdiv. ring.
Qed.

Lemma np_sub_scaled (x1 y1 x2 y2 : list Q) :
  scaled beta x1 y1 -> scaled beta x2 y2 ->
  scaled beta (np_sub x1 x2) (np_sub y1 y2).
Proof.
  intros H1. revert x2 y2.
  induction H1 as [|a b x1 y1 Hab H1 IH]; intros x2 y2 H2.
  - constructor.
  - destruct H2 as [|c d x2 y2 Hcd H2]; [constructor|].
    unfold np_sub. simpl. constructor.
    + rewrite Hab, Hcd. ring.
    + apply IH, H2.
Qed.

Lemma full_conv_scaled (a a' v : list Q) (t : Z) :
  scaled beta a a' -> full_conv a' v t == beta * full_conv a v t.
Proof.
  intros H. unfold full_conv. apply Qsum_scaled, scaled_map.
  intros j. rewrite (scaled_at a a' H). ring.
Qed.

Lemma convolve_same_scaled (a a' v : list Q) :
  scaled beta a a' ->
  scaled beta (convolve_same a v) (convolve_same a' v).
Proof.
  intros H. unfold convolve_same. rewrite (scaled_len a a' H).
  apply scaled_map. intros k. now apply full_conv_scaled.
Qed.

Lemma moving_average_scaled (x y : list Q) (size : Z) :
  scaled beta x y ->
  scaled beta (moving_average x size) (moving_average y size).
Proof.
  intros H. unfold moving_average. rewrite (scaled_len x y H).
  apply scaled_map. intros i.
  rewrite (Qsum_scaled
             (map (fun j => nearest x (i - size / 2 + j)) (range size))
             (map (fun j => nearest y (i - size / 2 + j)) (range size))).
  - unfold Qdiv. ring.
  - apply scaled_map. intros j. now apply scaled_nearest.
Qed.

End ScaledLists.

Section PositiveScaling.

Variable alpha : Q.
Hypothesis alpha_pos : 0 < alpha.

Lemma alpha_sq_pos : 0 < alpha * alpha.
Proof. nra. Qed.

Lemma arg_from_scaled (beta : Q) (less : bool) (x y : list Q) :
  0 < beta -> scaled beta x y ->
  forall best best' besti i, best' == beta * best ->
    arg_from (fun a b => if less then Qltb a b else Qltb b a) best' besti i y
    = arg_from (fun a b => if less then Qltb a b else Qltb b a) best besti i x.
Proof.
  intros Hb H. induction H as [|a b x y Hab Hxy IH];
    intros best best' besti i Hbest; simpl; [reflexivity|].
  assert (Hcmp : (if less then Qltb b best' else Qltb best' b)
                 = (if less then Qltb a best else Qltb best a)).
  { destruct less; now apply (Qltb_scaled beta). }
  rewrite Hcmp.
  destruct (if less then Qltb a best else Qltb best a); now apply IH.
Qed.

Lemma argmax_scaled (beta : Q) (x y : list Q) :
  0 < beta -> scaled beta x y -> argmax y = argmax x.
Proof.
  intros Hb H. destruct H as [|a b x y Hab Hxy]; [reflexivity|].
  unfold argmax. now apply (arg_from_scaled beta false).
Qed.

Lemma insert_sorted_scaled (beta a b : Q) (x y : list Q) :
  0 < beta -> b == beta * a -> scaled beta x y ->
  scaled beta (insert_sorted a x) (insert_sorted b y).
Proof.
  intros Hb Hab H. induction H as [|c d x y Hcd Hxy IH]; simpl.
  - constructor; [exact Hab | constructor].
  - rewrite (Qle_bool_scaled beta a c b d Hb Hab Hcd).
    destruct (Qle_bool a c).
    + constructor; [exact Hab|]. constructor; [exact Hcd | exact Hxy].
    + constructor; [exact Hcd | exact IH].
Qed.

Lemma np_sort_scaled (beta : Q) (x y : list Q) :
  0 < beta -> scaled beta x y -> scaled beta (np_sort x) (np_sort y).
Proof.
  intros Hb H. unfold np_sort.
  induction H as [|a b x y Hab Hxy IH]; simpl; [constructor|].
  now apply insert_sorted_scaled.
Qed.

Lemma np_percentile_scaled (beta p : Q) (x y : list Q) :
  0 < beta -> scaled beta x y ->
  np_percentile y p == beta * np_percentile x p.
Proof.
  intros Hb H. unfold np_percentile. rewrite (scaled_len beta x y H).
  pose proof (np_sort_scaled beta x y Hb H) as Hs.
  rewrite !(scaled_at beta _ _ Hs). ring.
Qed.

Lemma five_point_derivative_scaled (x y : list Q) (fs : Q) :
  scaled alpha x y ->
  scaled alpha (five_point_derivative x fs) (five_point_derivative y fs).
Proof.
  intros H. unfold five_point_derivative. rewrite (scaled_len alpha x y H).
  apply scaled_map. intros i.
  destruct ((2 <=? i)%Z && (i <? len x - 2)%Z); [|ring].
  rewrite !(scaled_at alpha x y H). unfold Qdiv. ring.
Qed.

Lemma squares_scaled (x y : list Q) :
  scaled alpha x y ->
  scaled (alpha * alpha) (map (fun d => d * d) x) (map (fun d => d * d) y).
Proof.
  induction 1 as [|a b x y Hab Hxy IH]; simpl; constructor; [|exact IH].
  rewrite Hab. ring.
Qed.

Lemma sq_dev_scaled (x y : list Q) :
  scaled alpha x y -> scaled (alpha * alpha) (sq_dev x) (sq_dev y).
Proof.
  intros H. unfold sq_dev.
  pose proof (np_mean_scaled alpha x y H) as Hm.
  generalize dependent (np_mean y). generalize (np_mean x).
  intros m m' Hm. induction H as [|a b x y Hab Hxy IH]; simpl; constructor;
    [|exact IH].
  rewrite Hab, Hm. ring.
Qed.

Lemma np_var_scaled (x y : list Q) :
  scaled alpha x y -> np_var y == alpha * alpha * np_var x.
Proof.
  intros H. unfold np_var. now apply np_mean_scaled, sq_dev_scaled.
Qed.

Lemma signed_sq_scaled (a b : Q) :
  b == alpha * a -> signed_sq b == alpha * alpha * signed_sq a.
Proof.
  intros Hab. unfold signed_sq. rewrite Hab, Qabs_Qmult.
  rewrite (Qabs_pos alpha) by lra. ring.
Qed.

Lemma amplitude_ok_scaled (x y : list Q) (a b : Q) :
  scaled alpha x y -> b == alpha * a -> amplitude_ok y b = amplitude_ok x a.
Proof.
  intros H Hab. unfold amplitude_ok, surd_ltb, surd_ssq, surd_scale, np_std.
  cbn [coef radicand np_sqrt].
  apply (Qltb_scaled (alpha * alpha)); [exact alpha_sq_pos | |].
  - rewrite (np_var_scaled x y H). ring.
  - now apply signed_sq_scaled.
Qed.

Lemma updated_threshold_scaled (sp sp' np np' : list Q) :
  scaled (alpha * alpha) sp sp' -> scaled (alpha * alpha) np np' ->
  updated_threshold sp' np' == alpha * alpha * updated_threshold sp np.
Proof.
  intros Hs Hn. unfold updated_threshold.
  rewrite (np_mean_scaled (alpha * alpha) (py_slice_from sp (-8))
             (py_slice_from sp' (-8)))
    by now apply scaled_py_slice_from.
  destruct Hn as [|c d np np' Hcd Hn]; [ring|].
  rewrite (np_mean_scaled (alpha * alpha) (py_slice_from (c :: np) (-8))
             (py_slice_from (d :: np') (-8))).
  - ring.
  - apply scaled_py_slice_from. now constructor.
Qed.

End PositiveScaling.

(** ** The thresholding loop on a scaled signal *)

Section LoopScaling.

Variable alpha : Q.
Hypothesis alpha_pos : 0 < alpha.

Variables (integrated integrated' signal_array signal_array' : list Q).
Variable fs : Q.
Hypothesis integrated_scaled : scaled (alpha * alpha) integrated integrated'.
Hypothesis signal_scaled : scaled alpha signal_array signal_array'.

Lemma is_local_max_scaled (i : Z) :
  is_local_max integrated' i = is_local_max integrated i.
Proof.
  unfold is_local_max. f_equal;
    apply (Qltb_scaled (alpha * alpha));
    try apply alpha_sq_pos; try exact alpha_pos;
    now apply scaled_at.
Qed.

Lemma local_signal_scaled (i : Z) :
  scaled alpha (local_signal signal_array fs i)
               (local_signal signal_array' fs i).
Proof.
  unfold local_signal. rewrite (scaled_len alpha _ _ signal_scaled).
  now apply scaled_py_slice.
Qed.

Lemma actual_peak_idx_scaled (i : Z) :
  actual_peak_idx signal_array' fs i = actual_peak_idx signal_array fs i.
Proof.
  unfold actual_peak_idx. f_equal.
  apply (argmax_scaled alpha); [exact alpha_pos|].
  apply local_signal_scaled.
Qed.

Lemma loop_body_scaled (st st' : detector_state) :
  scaled_state alpha st st' ->
  scaled_state alpha (loop_body integrated signal_array fs st)
                     (loop_body integrated' signal_array' fs st').
Proof.
  intros (Hi & Hr & Ht & Hsp & Hnp). unfold loop_body.
  rewrite Hi, Hr, is_local_max_scaled.
  destruct (is_local_max integrated (st_i st));
    [|repeat split; cbn [advance st_i st_r_peaks st_threshold
                          st_signal_peaks st_noise_peaks]; congruence].
  rewrite (Qltb_scaled (alpha * alpha) (st_threshold st)
             (at_ integrated (st_i st)) (st_threshold st')
             (at_ integrated' (st_i st)))
    by (try apply alpha_sq_pos; try exact alpha_pos; try exact Ht;
        now apply scaled_at).
  assert (Hat : at_ integrated' (st_i st)
                == alpha * alpha * at_ integrated (st_i st))
    by now apply scaled_at.
  destruct (Qltb (st_threshold st) (at_ integrated (st_i st))).
  - destruct (refractory_ok fs (st_r_peaks st) (st_i st));
      [|repeat split; cbn; congruence].
    rewrite (scaled_len alpha _ _ (local_signal_scaled (st_i st))).
    destruct (0 <? len (local_signal signal_array fs (st_i st)))%Z;
      [|repeat split; cbn; congruence].
    rewrite actual_peak_idx_scaled.
    rewrite (amplitude_ok_scaled alpha alpha_pos signal_array signal_array'
               (at_ signal_array (actual_peak_idx signal_array fs (st_i st)))
               (at_ signal_array' (actual_peak_idx signal_array fs (st_i st))))
      by (try exact signal_scaled; now apply scaled_at).
    destruct (amplitude_ok signal_array
                (at_ signal_array
                   (actual_peak_idx signal_array fs (st_i st))));
      [|repeat split; cbn; congruence].
    assert (Hsp' : scaled (alpha * alpha)
                     (st_signal_peaks st ++ [at_ integrated (st_i st)])
                     (st_signal_peaks st' ++ [at_ integrated' (st_i st)])).
    { apply scaled_app; [exact Hsp|]. constructor; [exact Hat | constructor]. }
    repeat split; cbn [st_i st_r_peaks st_threshold st_signal_peaks
                         st_noise_peaks]; try congruence.
    now apply updated_threshold_scaled.
  - repeat split; cbn [advance st_i st_r_peaks st_threshold st_signal_peaks
                         st_noise_peaks]; try congruence.
    apply scaled_app; [exact Hnp|]. constructor; [exact Hat | constructor].
Qed.

Lemma while_loop_scaled (fuel : nat) :
  forall st st', scaled_state alpha st st' ->
    match while_loop integrated signal_array fs fuel st,
          while_loop integrated' signal_array' fs fuel st' with
    | Some a, Some b => scaled_state alpha a b
    | None, None => True
    | _, _ => False
    end.
Proof.
  pose proof (scaled_len _ _ _ integrated_scaled) as Hlen.
  induction fuel as [|fuel IH]; intros st st' Hst; simpl;
    rewrite Hlen; destruct Hst as (Hi & Hrest); rewrite Hi;
    destruct (st_i st <? len integrated - 1)%Z; try exact I;
    try (split; [exact Hi | exact Hrest]).
  apply IH, loop_body_scaled. split; [exact Hi | exact Hrest].
Qed.

Lemma initial_state_scaled :
  scaled_state alpha (initial_state integrated) (initial_state integrated').
Proof.
  unfold initial_state. repeat split; cbn; try constructor.
  rewrite (np_percentile_scaled (alpha * alpha) 98 integrated integrated');
    [ring | apply alpha_sq_pos; exact alpha_pos | exact integrated_scaled].
Qed.

Lemma adaptive_thresholding_scaled :
  match adaptive_thresholding integrated signal_array fs,
        adaptive_thresholding integrated' signal_array' fs with
  | Some a, Some b => scaled_state alpha a b
  | None, None => True
  | _, _ => False
  end.
Proof.
  unfold adaptive_thresholding.
  rewrite (scaled_length _ _ _ integrated_scaled).
  apply while_loop_scaled, initial_state_scaled.
Qed.

End LoopScaling.

(** ** Scale invariance of the detected peaks *)

Lemma scaled_by (alpha : Q) (x : list Q) :
  scaled alpha x (map (Qmult alpha) x).
Proof.
  induction x as [|a x IH]; simpl; constructor; [reflexivity | exact IH].
Qed.

Lemma heart_rate_metrics_bpm_threshold (r_peaks : list Z) (fs t t' : Q) :
  avg_heart_rate_bpm (heart_rate_metrics r_peaks fs t)
  = avg_heart_rate_bpm (heart_rate_metrics r_peaks fs t').
Proof.
  unfold heart_rate_metrics. now destruct (2 <=? len r_peaks)%Z.
Qed.

Section ScaleInvariance.

Context `{K : Kernels}.

Variable alpha : Q.
Hypothesis alpha_pos : 0 < alpha.

(** The IIR filters are linear: scaling the input scales the output. *)
Hypothesis kernel_homogeneous :
  forall ba x y,
    scaled alpha x y -> scaled alpha (filtfilt_kernel ba x)
                                     (filtfilt_kernel ba y).

Lemma preprocess_cleaned_scaled (x y : list Q) (fs : Q) :
  scaled alpha x y ->
  scaled alpha (preprocess_cleaned x fs) (preprocess_cleaned y fs).
Proof.
  intros H. unfold preprocess_cleaned.
  apply np_sub_scaled; [|apply moving_average_scaled];
    now repeat apply kernel_homogeneous.
Qed.

Lemma qrs_integrated_scaled (x y : list Q) (fs : Q) :
  scaled alpha x y ->
  scaled (alpha * alpha) (qrs_integrated x fs) (qrs_integrated y fs).
Proof.
  intros H. unfold qrs_integrated.
  apply convolve_same_scaled, squares_scaled, five_point_derivative_scaled.
  now apply kernel_homogeneous.
Qed.

Lemma pan_tompkins_detector_scaled (x y : list Q) (fs : Q) (verbose : bool)
  (out out' : stdout) :
  30 < fs -> (15 < len x)%Z -> scaled alpha x y ->
  exists r_peaks m m',
    fst (pan_tompkins_detector x fs verbose out) = Ok (r_peaks, m)
    /\ fst (pan_tompkins_detector y fs verbose out') = Ok (r_peaks, m')
    /\ avg_heart_rate_bpm m' = avg_heart_rate_bpm m.
Proof.
  intros Hfs Hlen H.
  destruct (pan_tompkins_detector_run x fs verbose out Hfs Hlen)
    as (st & Hst & _ & Hrun).
  destruct (pan_tompkins_detector_run y fs verbose out' Hfs)
    as (st' & Hst' & _ & Hrun').
  { now rewrite (scaled_len alpha x y H). }
  pose proof (adaptive_thresholding_scaled alpha alpha_pos
                (qrs_integrated x fs) (qrs_integrated y fs) x y fs
                (qrs_integrated_scaled x y fs H) H) as Hsim.
  rewrite Hst, Hst' in Hsim. destruct Hsim as (_ & Hr & _).
  rewrite Hrun, Hrun', Hr. cbn [fst].
  eexists _, _, _. split; [reflexivity|]. split; [reflexivity|].
  apply heart_rate_metrics_bpm_threshold.
Qed.

(** C7.  For a scale [alpha > 0] and linear filters, preprocessing
    followed by the QRS detector gives, on [alpha * samples], exactly the
    peak indices it gives on [samples], and the same average heart
    rate; where one run raises, the other raises the same error.  (In
    exact arithmetic: every stage is homogeneous in the signal.) *)
Theorem scale_invariance (samples : list Q) (fs : Q) (verbose : bool)
  (out out' : stdout) :
  match fst (preprocess_and_detect samples fs verbose out),
        fst (preprocess_and_detect (map (Qmult alpha) samples) fs verbose
               out') with
  | Ok (r_peaks, m), Ok (r_peaks', m') =>
      r_peaks' = r_peaks
      /\ avg_heart_rate_bpm m' = avg_heart_rate_bpm m
  | Raise e, Raise e' => e' = e
  | _, _ => False
  end.
Proof.
  pose proof (scaled_by alpha samples) as Hsc.
  pose proof (scaled_len alpha _ _ Hsc) as Hlen.
  unfold preprocess_and_detect. py_run.
  destruct (Qlt_le_dec fs 120) as [Hfs|Hfs];
    [|destruct (Z_lt_le_dec 27 (len samples)) as [Hl|Hl]].
  - rewrite !preprocess_ecg_raises by now left. reflexivity.
  - destruct (preprocess_ecg_returns samples fs verbose out Hfs Hl)
      as (fm & ->).
    destruct (preprocess_ecg_returns (map (Qmult alpha) samples) fs verbose
                out' Hfs) as (fm' & ->); [now rewrite Hlen|].
    cbv beta iota.
    match goal with
    | |- context [pan_tompkins_detector (preprocess_cleaned samples fs)
                    fs verbose ?o] => set (o1 := o)
    end.
    match goal with
    | |- context [pan_tompkins_detector
                    (preprocess_cleaned (map (Qmult alpha) samples) fs)
                    fs verbose ?o] => set (o2 := o)
    end.
    destruct (pan_tompkins_detector_scaled
                (preprocess_cleaned samples fs)
                (preprocess_cleaned (map (Qmult alpha) samples) fs)
                fs verbose o1 o2)
      as (r & m & m' & H1 & H2 & Hbpm).
    + lra.
    + rewrite preprocess_cleaned_length. lia.
    + now apply preprocess_cleaned_scaled.
    + rewrite H1, H2. split; [reflexivity | exact Hbpm].
  - rewrite !preprocess_ecg_raises by (right; lia). reflexivity.
Qed.

End ScaleInvariance.

Lemma scale_invariance_witness :
  match fst (@preprocess_and_detect passthrough close_beats 250 false []),
        fst (@preprocess_and_detect passthrough
               (map (Qmult 2) close_beats) 250 false []) with
  | Ok (r_peaks, m), Ok (r_peaks', m') =>
      r_peaks' = r_peaks
      /\ avg_heart_rate_bpm m' = avg_heart_rate_bpm m
  | Raise e, Raise e' => e' = e
  | _, _ => False
  end.
Proof.
  apply (@scale_invariance passthrough 2).
  - reflexivity.
  - intros ba x y Hxy. exact Hxy.
Defined.

(** ** Two runs of the script on [close_beats] *)

Example process_ecg_complete_close_beats :
  match fst (@process_ecg_complete passthrough close_beats 250 true []) with
  | Ok r =>
      res_r_peak_indices r = [19; 54]%Z
      /\ res_rhythm_status r = "Insufficient data"%string
      /\ res_clinical_warnings r = []
      /\ Qred (bpm (res_metrics r)) = 3000 # 7
      /\ res_num_samples r = 87%Z
  | Raise _ => False
  end.
Proof. vm_compute. repeat split. Qed.

Example preprocess_and_detect_doubled :
  detected_peaks (@preprocess_and_detect passthrough
                    (map (Qmult 2) close_beats) 250 false [])
  = Some [19; 54]%Z.
Proof. vm_compute. reflexivity. Qed.

(** * Further properties of the script *)

(** ** Indices and slices *)

Lemma len_cons {A} (x : A) (l : list A) : len (x :: l) = (len l + 1)%Z.
Proof. unfold len. simpl List.length. lia. Qed.

Lemma len_nil_iff {A} (l : list A) : len l = 0%Z <-> l = [].
Proof.
  unfold len. destruct l; simpl; split; intros H;
    try reflexivity; try discriminate; lia.
Qed.

Lemma arg_from_upper (better : Q -> Q -> bool) (l : list Q) :
  forall best besti i, (besti < i)%Z ->
    (arg_from better best besti i l < i + len l)%Z.
Proof.
  induction l as [|x t IH]; intros best besti i Hlt.
  - simpl. unfold len. simpl. lia.
  - rewrite len_cons. simpl. destruct (better x best).
    + specialize (IH x i (i + 1)%Z). lia.
    + specialize (IH best besti (i + 1)%Z). lia.
Qed.

Lemma argmax_upper (l : list Q) : l <> [] -> (argmax l < len l)%Z.
Proof.
  destruct l as [|x t]; [congruence|]. intros _. rewrite len_cons.
  unfold argmax. pose proof (arg_from_upper (fun a b => Qltb b a) t x 0 1)%Z.
  lia.
Qed.

Lemma argmin_bounds (l : list Q) :
  l <> [] -> (0 <= argmin l < len l)%Z.
Proof.
  destruct l as [|x t]; [congruence|]. intros _. rewrite len_cons.
  unfold argmin. pose proof (arg_from_upper Qltb t x 0 1)%Z.
  pose proof (arg_from_lower Qltb t x 0 1)%Z. lia.
Qed.

Lemma py_slice_length {A} (l : list A) (a b : Z) :
  (0 <= a <= b)%Z -> (b <= len l)%Z -> len (py_slice l a b) = (b - a)%Z.
Proof.
  intros Hab Hb. unfold py_slice, slice_bound.
  destruct (a <? 0)%Z eqn:Ea; [apply Z.ltb_lt in Ea; lia|].
  destruct (b <? 0)%Z eqn:Eb; [apply Z.ltb_lt in Eb; lia|].
  unfold len in *. rewrite length_firstn, length_skipn. lia.
Qed.

Lemma py_slice_within {A} (l : list A) (a b : Z) :
  (0 <= a)%Z -> (0 < len (py_slice l a b))%Z ->
  (a + len (py_slice l a b) <= len l)%Z.
Proof.
  intros Ha. unfold py_slice, slice_bound.
  destruct (a <? 0)%Z eqn:Ea; [apply Z.ltb_lt in Ea; lia|].
  unfold len. rewrite length_firstn, length_skipn. lia.
Qed.

Lemma py_slice_from_length {A} (l : list A) (a : Z) :
  (0 <= a <= len l)%Z -> len (py_slice_from l a) = (len l - a)%Z.
Proof.
  intros Ha. unfold py_slice_from, slice_bound.
  destruct (a <? 0)%Z eqn:Ea; [apply Z.ltb_lt in Ea; lia|].
  unfold len in *. rewrite length_skipn. lia.
Qed.

Lemma py_get_ok {A} (l : list A) (i : Z) :
  (0 <= i < len l)%Z -> exists x, py_get l i = Ok x.
Proof.
  intros Hi. unfold py_get.
  destruct (i <? 0)%Z eqn:E; [apply Z.ltb_lt in E; lia|]. rewrite E.
  destruct (nth_error l (Z.to_nat i)) as [x|] eqn:Hn; [now exists x|].
  apply nth_error_None in Hn. unfold len in Hi. lia.
Qed.

Lemma at_in_range (P : Q -> Prop) (l : list Q) (i : Z) :
  Forall P l -> (0 <= i < len l)%Z -> P (at_ l i).
Proof.
  intros Hall Hi. unfold at_.
  destruct (i <? 0)%Z eqn:E; [apply Z.ltb_lt in E; lia|].
  rewrite Forall_forall in Hall. apply Hall, nth_In. unfold len in Hi. lia.
Qed.

(** ** Means and variances *)

Lemma Qsum_nonneg (l : list Q) : Forall (fun x => 0 <= x) l -> 0 <= Qsum l.
Proof.
  induction 1 as [|x t Hx Ht IH]; [simpl; lra|]. rewrite Qsum_cons. lra.
Qed.

Lemma np_mean_nonneg (l : list Q) :
  Forall (fun x => 0 <= x) l -> 0 <= np_mean l.
Proof.
  intros Hall. unfold np_mean. apply Qsum_nonneg in Hall.
  destruct l as [|x t].
  - unfold Qdiv. simpl. lra.
  - apply Qle_shift_div_l; [|lra].
    rewrite len_cons. change 0 with (inject_Z 0). rewrite <- Zlt_Qlt.
    unfold len. lia.
Qed.

Lemma sq_dev_nonneg (l : list Q) : Forall (fun x => 0 <= x) (sq_dev l).
Proof.
  unfold sq_dev. cbv zeta. apply Forall_map, Forall_forall. intros x _.
  cbv beta. generalize (x - np_mean l). intros y. nra.
Qed.

Lemma np_var_nonneg (l : list Q) : 0 <= np_var l.
Proof. apply np_mean_nonneg, sq_dev_nonneg. Qed.

(** A mean lies where all the values lie. *)
Lemma np_mean_between (lo hi : Q) (l : list Q) :
  l <> [] -> Forall (fun x => lo < x /\ x < hi) l ->
  lo < np_mean l /\ np_mean l < hi.
Proof.
  intros Hne Hall.
  assert (Hsum : inject_Z (len l) * lo < Qsum l
                 /\ Qsum l < inject_Z (len l) * hi).
  { induction Hall as [|x t [Hx1 Hx2] Ht IH]; [congruence|].
    rewrite Qsum_cons, len_cons, inject_Z_plus.
    destruct t as [|y t'].
    - simpl. change (inject_Z (len (@nil Q))) with 0.
      change (inject_Z 1) with 1. lra.
    - destruct IH as [IH1 IH2]; [discriminate|].
      change (inject_Z 1) with 1. lra. }
  assert (Hlen : 0 < inject_Z (len l)).
  { destruct l; [congruence|]. rewrite len_cons.
    change 0 with (inject_Z 0). rewrite <- Zlt_Qlt. unfold len. lia. }
  unfold np_mean. split.
  - apply Qlt_shift_div_l; [exact Hlen | lra].
  - apply Qlt_shift_div_r; [exact Hlen | lra].
Qed.

(** ** The amplitude gate *)

Lemma signed_sq_pos (q : Q) : 0 < signed_sq q -> 0 < q.
Proof.
  unfold signed_sq. intros H. destruct (Qlt_le_dec 0 q) as [Hq|Hq]; [exact Hq|].
  pose proof (Qabs_nonneg q). nra.
Qed.

Lemma amplitude_ok_pos (signal_array : list Q) (peak_val : Q) :
  amplitude_ok signal_array peak_val = true -> 0 < peak_val.
Proof.
  unfold amplitude_ok, surd_ltb, surd_ssq, surd_scale, np_std.
  cbn [coef radicand np_sqrt]. intros H. apply Qltb_lt in H.
  apply signed_sq_pos. pose proof (np_var_nonneg signal_array).
  assert (0 <= signed_sq (1 * 0.5)) by (vm_compute; discriminate).
  nra.
Qed.


(** ** Every accepted peak indexes the signal and passed the gate *)

Section GatedPeaks.

Variables (integrated signal_array : list Q) (fs : Q).

Lemma actual_peak_idx_in_range (i : Z) :
  (0 < len (local_signal signal_array fs i))%Z ->
  (0 <= actual_peak_idx signal_array fs i < len signal_array)%Z.
Proof.
  intros Hloc. unfold actual_peak_idx.
  pose proof (argmax_nonneg (local_signal signal_array fs i)) as H0.
  assert (Hne : local_signal signal_array fs i <> []).
  { intros E. rewrite E in Hloc. unfold len in Hloc. simpl in Hloc. lia. }
  pose proof (argmax_upper _ Hne) as Hup.
  unfold local_signal in *.
  pose proof (py_slice_within signal_array
                (Z.max 0 (i - search_window fs))
                (Z.min (len signal_array) (i + search_window fs))) as Hin.
  lia.
Qed.

End GatedPeaks.

Section GatedLoop.

Variables (integrated signal_array : list Q) (fs : Q).

Lemma loop_body_gated (st : detector_state) :
  Forall (gated_peak signal_array) (st_r_peaks st) ->
  Forall (gated_peak signal_array)
         (st_r_peaks (loop_body integrated signal_array fs st)).
Proof.
  intros Hg. body_cases st; try exact Hg.
  cbn [st_r_peaks]. apply Forall_app. split; [exact Hg|].
  constructor; [|constructor]. split; [|exact Hamp].
  apply actual_peak_idx_in_range. now apply Z.ltb_lt.
Qed.

Lemma while_loop_gated (fuel : nat) :
  forall st st', while_loop integrated signal_array fs fuel st = Some st' ->
    Forall (gated_peak signal_array) (st_r_peaks st) ->
    Forall (gated_peak signal_array) (st_r_peaks st').
Proof.
  induction fuel as [|fuel IH]; intros st st' Hrun Hg; simpl in Hrun.
  - destruct (st_i st <? len integrated - 1)%Z; [discriminate|].
    now injection Hrun as <-.
  - destruct (st_i st <? len integrated - 1)%Z.
    + eapply IH; [exact Hrun|]. now apply loop_body_gated.
    + now injection Hrun as <-.
Qed.

Lemma adaptive_thresholding_gated (st : detector_state) :
  adaptive_thresholding integrated signal_array fs = Some st ->
  Forall (gated_peak signal_array) (st_r_peaks st).
Proof.
  unfold adaptive_thresholding. intros Hrun.
  eapply while_loop_gated; [exact Hrun|]. constructor.
Qed.

End GatedLoop.

(** The detector on accepted arguments, with what is known of its
    peaks. *)
Lemma pan_tompkins_detector_peaks `{Kernels} (ecg_signal : list Q) (fs : Q)
  (verbose : bool) (out : stdout) :
  30 < fs -> (15 < len ecg_signal)%Z ->
  exists r_peaks threshold,
    pan_tompkins_detector ecg_signal fs verbose out
    = (Ok (r_peaks, heart_rate_metrics r_peaks fs threshold),
       if verbose then out ++ [LogDetectorStart (len ecg_signal)] else out)
    /\ Forall (gated_peak ecg_signal) r_peaks
    /\ Forall (fun d => (0 < d)%Z) (np_diffZ r_peaks).
Proof.
  intros Hfs Hlen.
  destruct (pan_tompkins_detector_run ecg_signal fs verbose out Hfs Hlen)
    as (st & Hst & Hsp & Hrun).
  exists (st_r_peaks st), (st_threshold st). split; [exact Hrun|]. split.
  - eapply adaptive_thresholding_gated, Hst.
  - eapply Forall_impl; [|exact Hsp]. intros d Hd. cbv beta in Hd.
    assert (H0 : 0 <= fs) by lra.
    pose proof (search_window_le_refractory fs H0). lia.
Qed.

Lemma heart_rate_metrics_num_peaks (r_peaks : list Z) (fs threshold : Q) :
  num_peaks (heart_rate_metrics r_peaks fs threshold) = len r_peaks.
Proof.
  unfold heart_rate_metrics. now destruct (2 <=? len r_peaks)%Z.
Qed.

(** X1.  On accepted arguments (sampling rate above 30 Hz, more than 15
    samples) every index the detector returns is a valid index of the
    signal it was given, and [num_peaks] counts the returned indices. *)
Theorem detector_peaks_index_signal `{Kernels} (ecg_signal : list Q)
  (fs : Q) (verbose : bool) (out : stdout) :
  30 < fs -> (15 < len ecg_signal)%Z ->
  exists r_peaks metrics out',
    pan_tompkins_detector ecg_signal fs verbose out
    = (Ok (r_peaks, metrics), out')
    /\ Forall (fun p => (0 <= p < len ecg_signal)%Z) r_peaks
    /\ num_peaks metrics = len r_peaks.
Proof.
  intros Hfs Hlen.
  destruct (pan_tompkins_detector_peaks ecg_signal fs verbose out Hfs Hlen)
    as (r & t & Hrun & Hg & _).
  eexists _, _, _. split; [exact Hrun|]. split.
  - eapply Forall_impl; [|exact Hg]. now intros p [Hp _].
  - apply heart_rate_metrics_num_peaks.
Qed.

Lemma detector_peaks_index_signal_witness :
  exists r_peaks metrics out',
    @pan_tompkins_detector passthrough close_beats 250 false []
    = (Ok (r_peaks, metrics), out')
    /\ Forall (fun p => (0 <= p < len close_beats)%Z) r_peaks
    /\ num_peaks metrics = len r_peaks.
Proof.
  apply (@detector_peaks_index_signal passthrough close_beats 250 false []).
  - reflexivity.
  - vm_compute. reflexivity.
Defined.



Lemma zeros_nonpositive (k : nat) : Forall (fun x => x <= 0) (zeros k).
Proof.
  apply Forall_forall. intros x Hx. apply repeat_spec in Hx.
  rewrite Hx. apply Qle_refl.
Qed.

(** X3.  A signal without a positive sample (a flat line at zero, an
    inverted lead) yields no peak at all, whatever the filters do: the
    detector returns the empty list, [num_peaks = 0] and a heart rate of
    0. *)
Theorem detector_nonpositive_signal `{Kernels} (ecg_signal : list Q)
  (fs : Q) (verbose : bool) (out : stdout) :
  30 < fs -> (15 < len ecg_signal)%Z ->
  Forall (fun x => x <= 0) ecg_signal ->
  exists metrics out',
    pan_tompkins_detector ecg_signal fs verbose out
    = (Ok ([], metrics), out')
    /\ num_peaks metrics = 0%Z
    /\ avg_heart_rate_bpm metrics = 0.
Proof.
  intros Hfs Hlen Hneg.
  destruct (pan_tompkins_detector_peaks ecg_signal fs verbose out Hfs Hlen)
    as (r & t & Hrun & Hg & _).
  destruct r as [|p r].
  - eexists _, _. split; [exact Hrun|]. split; reflexivity.
  - exfalso. inversion Hg as [|? ? [Hp Hamp] _]; subst.
    apply amplitude_ok_pos in Hamp.
    pose proof (at_in_range (fun x => x <= 0) ecg_signal p Hneg Hp) as Hle.
    cbv beta in Hle. lra.
Qed.

Lemma detector_nonpositive_signal_witness :
  exists metrics out',
    @pan_tompkins_detector passthrough flat_line 250 false []
    = (Ok ([], metrics), out')
    /\ num_peaks metrics = 0%Z
    /\ avg_heart_rate_bpm metrics = 0.
Proof.
  apply (@detector_nonpositive_signal passthrough flat_line 250 false []).
  - reflexivity.
  - vm_compute. reflexivity.
  - apply zeros_nonpositive.
Defined.

(** ** What the morphology functions can return *)

Lemma result_bind_ok {A B} (m : result A) (k : A -> result B) (y : B) :
  (x <- m ;; k x) = Ok y -> exists x, m = Ok x /\ k x = Ok y.
Proof.
  cbn [bind result_monad]. destruct m as [x|e]; [|discriminate].
  intros Hk. now exists x.
Qed.

Lemma qrs_width_at_range (signal_array : list Q) (fs : Q) (r_idx : Z)
  (width_ms : Q) :
  qrs_width_at signal_array fs r_idx = Ok (Some width_ms) ->
  40 < width_ms /\ width_ms < 200.
Proof.
  unfold qrs_width_at.
  destruct (len (py_slice signal_array _ _) <? 5)%Z; [discriminate|].
  intros Hrun.
  apply result_bind_ok in Hrun. destruct Hrun as (q & _ & Hrun).
  apply result_bind_ok in Hrun. destruct Hrun as (s & _ & Hrun).
  apply result_bind_ok in Hrun. destruct Hrun as (o & _ & Hrun).
  apply result_bind_ok in Hrun. destruct Hrun as (w & _ & Hrun).
  destruct (Qltb 40 w) eqn:H40; [|discriminate].
  destruct (Qltb w 200) eqn:H200; [|discriminate].
  cbn [andb] in Hrun. injection Hrun as <-.
  now apply Qltb_lt in H40, H200.
Qed.

Lemma qrs_widths_loop_range (signal_array : list Q) (fs : Q)
  (r_peaks : list Z) :
  forall widths, qrs_widths_loop signal_array fs r_peaks = Ok widths ->
    Forall (fun w => 40 < w /\ w < 200) widths.
Proof.
  induction r_peaks as [|r rest IH]; intros widths Hrun; simpl in Hrun.
  - injection Hrun as <-. constructor.
  - apply result_bind_ok in Hrun. destruct Hrun as (w & Hw & Hrun).
    apply result_bind_ok in Hrun. destruct Hrun as (ws & Hws & Hrun).
    injection Hrun as <-. specialize (IH ws Hws).
    destruct w as [width|]; [|exact IH].
    constructor; [|exact IH]. eapply qrs_width_at_range, Hw.
Qed.

(** A mean above 120 ms is reported as a wide QRS. *)
Lemma measure_qrs_width_wide (ecg_signal : list Q) (r_peaks : list Z)
  (fs : Q) (verbose : bool) (m : qrs_metrics) :
  measure_qrs_width ecg_signal r_peaks fs verbose = Ok m ->
  120 < mean_qrs_ms m ->
  qrs_interpretation m = "Wide QRS (BBB/Ventricular)"%string.
Proof.
  unfold measure_qrs_width.
  destruct (len r_peaks <? 2)%Z; [intros [= <-]; cbn; intros H; lra|].
  intros Hrun. apply result_bind_ok in Hrun.
  destruct Hrun as (ws & _ & Hrun).
  destruct ws as [|w ws]; [injection Hrun as <-; cbn; intros H; lra|].
  injection Hrun as <-. cbn [mean_qrs_ms qrs_interpretation].
  intros H. destruct (Qle_bool 120 (np_mean (w :: ws))) eqn:E;
    [reflexivity|].
  assert (E' : ~ 120 <= np_mean (w :: ws)).
  { intros Hle. apply Qle_bool_iff in Hle. congruence. }
  exfalso. apply E'. lra.
Qed.

(** X4.  Whatever [measure_qrs_width] returns, its [mean_qrs_ms] is 0
    (fewer than two peaks), 80 (no width retained) or a mean of
    retained widths, strictly between 40 and 200 ms; and a mean above
    120 ms always comes with the interpretation "Wide QRS
    (BBB/Ventricular)". *)
Theorem measure_qrs_width_result (ecg_signal : list Q) (r_peaks : list Z)
  (fs : Q) (verbose : bool) (m : qrs_metrics) :
  measure_qrs_width ecg_signal r_peaks fs verbose = Ok m ->
  (m = qrs_insufficient \/ m = qrs_could_not_detect
   \/ (40 < mean_qrs_ms m /\ mean_qrs_ms m < 200))
  /\ (120 < mean_qrs_ms m ->
      qrs_interpretation m = "Wide QRS (BBB/Ventricular)"%string).
Proof.
  intros Hrun. split; [|now apply (measure_qrs_width_wide _ _ _ _ _ Hrun)].
  unfold measure_qrs_width in Hrun.
  destruct (len r_peaks <? 2)%Z; [injection Hrun as <-; now left|].
  apply result_bind_ok in Hrun. destruct Hrun as (ws & Hws & Hrun).
  apply qrs_widths_loop_range in Hws.
  destruct ws as [|w ws]; [injection Hrun as <-; right; now left|].
  injection Hrun as <-. cbn [mean_qrs_ms]. right. right.
  apply np_mean_between; [discriminate | exact Hws].
Qed.

Lemma measure_qrs_width_result_witness :
  (qrs_could_not_detect = qrs_insufficient
   \/ qrs_could_not_detect = qrs_could_not_detect
   \/ (40 < mean_qrs_ms qrs_could_not_detect
       /\ mean_qrs_ms qrs_could_not_detect < 200))
  /\ (120 < mean_qrs_ms qrs_could_not_detect ->
      qrs_interpretation qrs_could_not_detect
      = "Wide QRS (BBB/Ventricular)"%string).
Proof.
  apply (measure_qrs_width_result flat_line two_peaks 250 false).
  vm_compute. reflexivity.
Defined.

Lemma qt_at_range (signal_array : list Q) (fs : Q) (r_idx : Z) (qt_ms : Q) :
  qt_at signal_array fs r_idx = Ok (Some qt_ms) ->
  200 < qt_ms /\ qt_ms < 600.
Proof.
  unfold qt_at.
  destruct (len signal_array <=? _)%Z; [discriminate|].
  destruct (len (py_slice signal_array _ _) =? 0)%Z; [discriminate|].
  intros Hrun.
  apply result_bind_ok in Hrun. destruct Hrun as (t & _ & Hrun).
  destruct (len (py_slice signal_array _ _) <? 2)%Z; [discriminate|].
  apply result_bind_ok in Hrun. destruct Hrun as (k & _ & Hrun).
  apply result_bind_ok in Hrun. destruct Hrun as (s & _ & Hrun).
  destruct (Qeq_bool s 0); [discriminate|].
  apply result_bind_ok in Hrun. destruct Hrun as (v & _ & Hrun).
  match type of Hrun with
  | (if Qltb 200 ?q && Qltb ?q 600 then _ else _) = _ =>
      destruct (Qltb 200 q) eqn:H200; [|discriminate];
      destruct (Qltb q 600) eqn:H600; [|discriminate]
  end.
  cbn [andb] in Hrun. injection Hrun as <-.
  now apply Qltb_lt in H200, H600.
Qed.

Lemma qt_loop_range (signal_array : list Q) (fs : Q) (r_idxs : list Z) :
  forall qts, qt_loop signal_array fs r_idxs = Ok qts ->
    Forall (fun q => 200 < q /\ q < 600) qts.
Proof.
  induction r_idxs as [|r rest IH]; intros qts Hrun; simpl in Hrun.
  - injection Hrun as <-. constructor.
  - apply result_bind_ok in Hrun. destruct Hrun as (q & Hq & Hrun).
    apply result_bind_ok in Hrun. destruct Hrun as (qs & Hqs & Hrun).
    injection Hrun as <-. specialize (IH qs Hqs).
    destruct q as [qt|]; [|exact IH].
    constructor; [|exact IH]. eapply qt_at_range, Hq.
Qed.

(** The risk flag and the interpretation of a QTc value agree. *)
Lemma qtc_flag_interpretation (qtc : surd) :
  let interpretation :=
    if surd_ltb qtc 450 then "Normal"%string
    else if surd_ltb qtc 500 then "Prolonged QTc"%string
    else "High Risk (Long QT)"%string in
  (surd_gtb qtc 470 = true ->
   interpretation = "Prolonged QTc"%string
   \/ interpretation = "High Risk (Long QT)"%string)
  /\ (interpretation = "High Risk (Long QT)"%string ->
      surd_gtb qtc 470 = true).
Proof.
  cbv zeta. unfold surd_gtb, surd_ltb.
  assert (H450 : signed_sq 450 == 202500) by reflexivity.
  assert (H470 : signed_sq 470 == 220900) by reflexivity.
  assert (H500 : signed_sq 500 == 250000) by reflexivity.
  generalize dependent (signed_sq 450). generalize dependent (signed_sq 470).
  generalize dependent (signed_sq 500). generalize (surd_ssq qtc).
  intros s c500 H500 c470 H470 c450 H450. split.
  - intros Hflag. apply Qltb_lt in Hflag.
    destruct (Qltb s c450) eqn:E1; [apply Qltb_lt in E1; lra|].
    destruct (Qltb s c500); [now left | now right].
  - destruct (Qltb s c450) eqn:E1; [discriminate|].
    destruct (Qltb s c500) eqn:E2; [discriminate|].
    intros _. apply Qltb_ge in E2. apply Qltb_lt. lra.
Qed.

(** A raised QT flag comes with one of the two long-QT texts. *)
Lemma calculate_qt_interval_flag (ecg_signal : list Q)
  (r_peaks : list Z) (fs : Q) (verbose : bool) (m : qt_metrics) :
  calculate_qt_interval ecg_signal r_peaks fs verbose = Ok m ->
  qt_risk_flag m = true ->
  qt_interpretation m = "Prolonged QTc"%string
  \/ qt_interpretation m = "High Risk (Long QT)"%string.
Proof.
  unfold calculate_qt_interval.
  destruct (len r_peaks <? 3)%Z; [intros [= <-]; discriminate|].
  intros Hrun. apply result_bind_ok in Hrun.
  destruct Hrun as (qts & _ & Hrun). injection Hrun as <-.
  cbn [qt_risk_flag qt_interpretation]. apply qtc_flag_interpretation.
Qed.

(** X5.  Whatever [calculate_qt_interval] returns, the risk flag and the
    interpretation agree: a raised flag (QTc above 470 ms) comes with
    "Prolonged QTc" or "High Risk (Long QT)", never with "Normal" or
    "N/A", and "High Risk (Long QT)" always raises the flag; and
    [mean_qt_ms] is 0 (nothing retained) or strictly between 200 and
    600 ms. *)
Theorem calculate_qt_interval_result (ecg_signal : list Q)
  (r_peaks : list Z) (fs : Q) (verbose : bool) (m : qt_metrics) :
  calculate_qt_interval ecg_signal r_peaks fs verbose = Ok m ->
  (qt_risk_flag m = true ->
   qt_interpretation m = "Prolonged QTc"%string
   \/ qt_interpretation m = "High Risk (Long QT)"%string)
  /\ (qt_interpretation m = "High Risk (Long QT)"%string ->
      qt_risk_flag m = true)
  /\ (mean_qt_ms m = 0 \/ (200 < mean_qt_ms m /\ mean_qt_ms m < 600)).
Proof.
  intros Hrun.
  split; [now apply (calculate_qt_interval_flag _ _ _ _ _ Hrun)|].
  unfold calculate_qt_interval in Hrun.
  destruct (len r_peaks <? 3)%Z.
  { injection Hrun as <-. cbn. split; [discriminate | now left]. }
  apply result_bind_ok in Hrun.
  destruct Hrun as (qts & Hqts & Hrun). injection Hrun as <-.
  cbn [qt_risk_flag qt_interpretation mean_qt_ms]. split.
  - apply qtc_flag_interpretation.
  - apply qt_loop_range in Hqts. destruct qts as [|q qs]; [now left|].
    right. apply np_mean_between; [discriminate | exact Hqts].
Qed.

Lemma calculate_qt_interval_result_witness :
  (qt_risk_flag qt_not_available = true ->
   qt_interpretation qt_not_available = "Prolonged QTc"%string
   \/ qt_interpretation qt_not_available = "High Risk (Long QT)"%string)
  /\ (qt_interpretation qt_not_available = "High Risk (Long QT)"%string ->
      qt_risk_flag qt_not_available = true)
  /\ (mean_qt_ms qt_not_available = 0
      \/ (200 < mean_qt_ms qt_not_available
          /\ mean_qt_ms qt_not_available < 600)).
Proof.
  apply (calculate_qt_interval_result flat_line two_peaks 250 false).
  vm_compute. reflexivity.
Defined.

(** ** Heart rate variability *)

Lemma var_ddof1_nonneg (l : list Q) : (2 <= len l)%Z -> 0 <= var_ddof 1 l.
Proof.
  intros Hlen. unfold var_ddof.
  pose proof (Qsum_nonneg _ (sq_dev_nonneg l)) as Hsum.
  apply Qle_shift_div_l; [|lra].
  change 0 with (inject_Z 0). rewrite <- Zlt_Qlt. lia.
Qed.

Lemma len_filter_le {A} (f : A -> bool) (l : list A) :
  (0 <= len (filter f l) <= len l)%Z.
Proof.
  unfold len. induction l as [|x t IH]; simpl; [lia|].
  destruct (f x); simpl List.length; lia.
Qed.

Lemma ratio_percent (k n : Z) :
  (0 <= k <= n)%Z -> (0 < n)%Z ->
  0 <= inject_Z k / inject_Z n * 100 /\ inject_Z k / inject_Z n * 100 <= 100.
Proof.
  intros Hk Hn.
  assert (Hn' : 0 < inject_Z n)
    by (change 0 with (inject_Z 0); rewrite <- Zlt_Qlt; lia).
  assert (Hk0 : 0 <= inject_Z k)
    by (change 0 with (inject_Z 0); rewrite <- Zle_Qle; lia).
  assert (Hkn : inject_Z k <= inject_Z n) by (rewrite <- Zle_Qle; lia).
  assert (H0 : 0 <= inject_Z k / inject_Z n)
    by (apply Qle_shift_div_l; [exact Hn' | lra]).
  assert (H1 : inject_Z k / inject_Z n <= 1)
    by (apply Qle_shift_div_r; [exact Hn' | lra]).
  lra.
Qed.

Lemma nn_intervals_range (rr_ms : list Q) :
  Forall (fun x => 300 < x /\ x < 1500)
    (filter (fun x => Qltb 300 x && Qltb x 1500) rr_ms).
Proof.
  apply Forall_forall. intros x Hx. apply filter_In in Hx.
  destruct Hx as [_ Hx]. apply andb_true_iff in Hx.
  destruct Hx as [H1 H2]. now apply Qltb_lt in H1, H2.
Qed.

(** X6.  The HRV figures are always well formed, whatever the peak list
    and the sampling rate: pNN50 is a percentage between 0 and
    100, the quantities under the square roots of SDNN and RMSSD are
    non-negative (so neither is NaN, and both are non-negative reals),
    and a reported mean NN interval is 0 (fewer than three peaks) or
    lies strictly inside the physiological window of 300 to 1500 ms. *)
Theorem calculate_hrv_metrics_ranges (r_peaks : list Z) (fs : Q)
  (verbose : bool) :
  let m := calculate_hrv_metrics r_peaks fs verbose in
  (0 <= pnn50_percent m /\ pnn50_percent m <= 100)
  /\ (0 <= radicand (sdnn_ms m) /\ (0 <= surd_val (sdnn_ms m))%R)
  /\ (0 <= radicand (rmssd_ms m) /\ (0 <= surd_val (rmssd_ms m))%R)
  /\ (forall x, mean_nn_ms m = Some x ->
        x = 0 \/ (300 < x /\ x < 1500)).
Proof.
  cbv zeta. unfold calculate_hrv_metrics.
  assert (Hzero : (0 <= surd_val (surd_of_Q 0))%R).
  { rewrite surd_val_of_Q. rewrite RMicromega.Q2R_0. Lra.lra. }
  destruct (len r_peaks <? 3)%Z.
  { cbn [pnn50_percent sdnn_ms rmssd_ms mean_nn_ms].
    repeat split; try exact Hzero; try (cbn; lra).
    intros x [= <-]. now left. }
  set (nn := filter _ _).
  destruct (len nn <? 2)%Z eqn:Enn.
  { cbn [pnn50_percent sdnn_ms rmssd_ms mean_nn_ms].
    repeat split; try exact Hzero; try (cbn; lra). discriminate. }
  apply Z.ltb_ge in Enn.
  cbn [pnn50_percent sdnn_ms rmssd_ms mean_nn_ms].
  split; [|split; [|split; [|]]].
  - destruct (0 <? len (np_diff nn))%Z eqn:Ed; [|lra].
    apply Z.ltb_lt in Ed. apply ratio_percent; [|exact Ed].
    apply len_filter_le.
  - split; [apply var_ddof1_nonneg, Enn|].
    unfold np_std_ddof1. rewrite surd_val_sqrt. apply sqrt_pos.
  - split; [|rewrite surd_val_sqrt; apply sqrt_pos].
    cbn [radicand np_sqrt]. apply np_mean_nonneg, Forall_map, Forall_forall.
    intros d _. cbv beta. nra.
  - intros x [= <-]. right. apply np_mean_between.
    + intros Hnil. rewrite Hnil in Enn. cbn in Enn. lia.
    + apply nn_intervals_range.
Qed.

(** X7.  When [calculate_hrv_metrics] reports an [nn_count], it also
    reports [ectopic_removed], and the two account for every RR
    interval: at least two intervals are kept, none is counted twice,
    and kept plus removed is the number of peaks minus one. *)
Theorem calculate_hrv_metrics_counts (r_peaks : list Z) (fs : Q)
  (verbose : bool) (n : Z) :
  nn_count (calculate_hrv_metrics r_peaks fs verbose) = Some n ->
  exists e,
    ectopic_removed (calculate_hrv_metrics r_peaks fs verbose) = Some e
    /\ (2 <= n)%Z /\ (0 <= e)%Z /\ (n + e = len r_peaks - 1)%Z.
Proof.
  unfold calculate_hrv_metrics.
  destruct (len r_peaks <? 3)%Z eqn:E3; [discriminate|].
  set (rr_ms := map _ (np_diffZ r_peaks)).
  destruct (len (filter _ rr_ms) <? 2)%Z eqn:Enn; [discriminate|].
  cbn [nn_count ectopic_removed]. intros [= <-].
  apply Z.ltb_ge in E3, Enn. eexists. split; [reflexivity|].
  pose proof (len_filter_le (fun x => Qltb 300 x && Qltb x 1500) rr_ms) as Hf.
  assert (Hrr : len rr_ms = (len r_peaks - 1)%Z).
  { unfold rr_ms, len in *. rewrite length_map, np_diffZ_length. lia. }
  lia.
Qed.

Lemma calculate_hrv_metrics_counts_witness :
  exists e,
    ectopic_removed (calculate_hrv_metrics five_peaks 250 false) = Some e
    /\ (2 <= 4)%Z /\ (0 <= e)%Z /\ (4 + e = len five_peaks - 1)%Z.
Proof.
  apply (calculate_hrv_metrics_counts five_peaks 250 false 4). reflexivity.
Defined.

(** ** The morphology functions stay inside their arrays *)

Lemma q_onset_scan_ok (segment : list Q) (r_local : Z) (n : nat) :
  (Z.of_nat n <= r_local)%Z -> (r_local <= len segment + 2)%Z ->
  exists q_onset, q_onset_scan segment r_local n = Ok q_onset.
Proof.
  intros Hn Hr. induction n as [|n' IH]; [now exists 0%Z|].
  change (q_onset_scan segment r_local (S n')) with
    (let i := Z.of_nat (S n') in
     if (i <? r_local - 2)%Z then
       a <- py_get segment i ;;
       b <- py_get segment (i - 1) ;;
       let slope := Qabs (a - b) in
       if Qltb slope 0.005 then Ok i
       else q_onset_scan segment r_local n'
     else q_onset_scan segment r_local n').
  cbv zeta. set (i := Z.of_nat (S n')) in *.
  assert (IH' : exists q_onset, q_onset_scan segment r_local n' = Ok q_onset)
    by (apply IH; lia).
  destruct (i <? r_local - 2)%Z eqn:E; [|exact IH'].
  apply Z.ltb_lt in E.
  destruct (py_get_ok segment i) as [a Ha]; [lia|].
  destruct (py_get_ok segment (i - 1)) as [b Hb]; [lia|].
  rewrite Ha. cbn [bind result_monad]. rewrite Hb. cbn [bind result_monad].
  destruct (Qltb _ _); [now exists i | exact IH'].
Qed.

Lemma s_offset_scan_ok (segment : list Q) (k : nat) :
  forall i, (0 <= i)%Z -> (i + Z.of_nat k <= len segment - 1)%Z ->
    exists s_offset, s_offset_scan segment i k = Ok s_offset.
Proof.
  induction k as [|k' IH]; intros i Hi Hk; [eexists; reflexivity|].
  cbn [s_offset_scan].
  destruct (py_get_ok segment (i + 1)) as [a Ha]; [lia|].
  destruct (py_get_ok segment i) as [b Hb]; [lia|].
  rewrite Ha. cbn [bind result_monad]. rewrite Hb. cbn [bind result_monad].
  destruct (Qltb _ _); [now exists i|]. apply IH; lia.
Qed.

Lemma np_argmin_ok (l : list Q) :
  (0 < len l)%Z ->
  np_argmin l = Ok (argmin l) /\ (0 <= argmin l < len l)%Z.
Proof.
  intros Hl. assert (Hne : l <> []) by (intros ->; cbn in Hl; lia).
  split; [|now apply argmin_bounds].
  destruct l; [congruence | reflexivity].
Qed.

Lemma np_argmax_ok (l : list Q) :
  (0 < len l)%Z ->
  np_argmax l = Ok (argmax l) /\ (0 <= argmax l < len l)%Z.
Proof.
  intros Hl. assert (Hne : l <> []) by (intros ->; cbn in Hl; lia).
  split; [|split; [apply argmax_nonneg | now apply argmax_upper]].
  destruct l; [congruence | reflexivity].
Qed.

Lemma np_diff_length (l : list Q) :
  (1 <= len l)%Z -> len (np_diff l) = (len l - 1)%Z.
Proof.
  induction l as [|a t IH]; intros Hl; [cbn in Hl; lia|].
  destruct t as [|b t']; [reflexivity|].
  change (np_diff (a :: b :: t')) with ((b - a) :: np_diff (b :: t')).
  rewrite (len_cons (b - a)), (len_cons a), IH; [lia|].
  rewrite len_cons. unfold len. lia.
Qed.

Lemma py_int_nonneg (x : Q) : 0 <= x -> (0 <= py_int x)%Z.
Proof. intros Hx. apply py_int_ge; [lia | exact Hx]. Qed.

Lemma qrs_width_at_ok (signal_array : list Q) (fs : Q) (r_idx : Z) :
  0 <= fs -> (0 <= r_idx < len signal_array)%Z ->
  exists w, qrs_width_at signal_array fs r_idx = Ok w.
Proof.
  intros Hfs Hr. unfold qrs_width_at. cbv zeta.
  assert (Hpre : (0 <= py_int (0.05 * fs))%Z) by (apply py_int_nonneg; lra).
  assert (Hpp : (py_int (0.05 * fs) <= py_int (0.08 * fs))%Z)
    by (apply py_int_mono; lra).
  assert (Hzero : fs == 0 -> (py_int (0.08 * fs) <= 0)%Z).
  { intros H0. change 0%Z with (py_int 0). apply py_int_mono; lra. }
  set (pre := py_int (0.05 * fs)) in *.
  set (post := py_int (0.08 * fs)) in *.
  set (start := Z.max 0 (r_idx - pre)).
  set (stop := Z.min (len signal_array) (r_idx + post)).
  assert (Hlen : len (py_slice signal_array start stop) = (stop - start)%Z)
    by (apply py_slice_length; unfold start, stop; lia).
  remember (py_slice signal_array start stop) as segment eqn:Hseg.
  destruct (len segment <? 5)%Z eqn:E5; [eexists; reflexivity|].
  apply Z.ltb_ge in E5.
  assert (Hfs' : ~ fs == 0).
  { intros H0. apply Hzero in H0. unfold start, stop in Hlen. lia. }
  set (r_local := (r_idx - start)%Z).
  assert (Hrl : (0 <= r_local < len segment)%Z)
    by (unfold r_local, start, stop in *; lia).
  destruct (q_onset_scan_ok segment r_local (Z.to_nat r_local)) as [q Hq];
    [lia | lia |].
  rewrite Hq. cbn [bind result_monad].
  destruct (np_argmin_ok (py_slice_from segment r_local)) as [Harg Hbnd].
  { rewrite py_slice_from_length; lia. }
  rewrite py_slice_from_length in Hbnd by lia.
  rewrite Harg. cbn [bind result_monad].
  set (s_point_global := (r_local + argmin (py_slice_from segment r_local))%Z).
  destruct (s_offset_scan_ok segment
              (Z.to_nat (len segment - 1 - s_point_global)) s_point_global)
    as [s Hs]; [unfold s_point_global; lia | unfold s_point_global; lia |].
  rewrite Hs. cbn [bind result_monad].
  rewrite py_div_ok by exact Hfs'. cbn [bind result_monad].
  destruct (_ && _); eexists; reflexivity.
Qed.

Lemma qrs_widths_loop_ok (signal_array : list Q) (fs : Q)
  (r_peaks : list Z) :
  0 <= fs -> Forall (fun p => (0 <= p < len signal_array)%Z) r_peaks ->
  exists widths, qrs_widths_loop signal_array fs r_peaks = Ok widths.
Proof.
  intros Hfs. induction 1 as [|r rest Hr Hrest IH]; [now exists []|].
  destruct (qrs_width_at_ok signal_array fs r Hfs Hr) as [w Hw].
  destruct IH as [ws Hws].
  cbn [qrs_widths_loop]. rewrite Hw. cbn [bind result_monad].
  rewrite Hws. cbn [bind result_monad]. eexists; reflexivity.
Qed.

Lemma measure_qrs_width_ok (ecg_signal : list Q) (r_peaks : list Z)
  (fs : Q) (verbose : bool) :
  0 <= fs -> Forall (fun p => (0 <= p < len ecg_signal)%Z) r_peaks ->
  exists m, measure_qrs_width ecg_signal r_peaks fs verbose = Ok m.
Proof.
  intros Hfs Hall. unfold measure_qrs_width.
  destruct (len r_peaks <? 2)%Z; [eexists; reflexivity|].
  destruct (qrs_widths_loop_ok ecg_signal fs r_peaks Hfs Hall) as [ws Hws].
  rewrite Hws. cbn [bind result_monad].
  destruct ws; eexists; reflexivity.
Qed.

(** X8.  [measure_qrs_width] never raises when the sampling rate is not
    negative and every peak indexes the signal: each slice, each
    [segment[i]] and the [argmin] stay inside their arrays, and the
    division by [fs] is reached only when [fs] is not zero (with
    [fs = 0] every segment is empty and skipped). *)
Theorem measure_qrs_width_never_raises (ecg_signal : list Q)
  (r_peaks : list Z) (fs : Q) (verbose : bool) (e : py_error) :
  0 <= fs -> Forall (fun p => (0 <= p < len ecg_signal)%Z) r_peaks ->
  measure_qrs_width ecg_signal r_peaks fs verbose <> Raise e.
Proof.
  intros Hfs Hall.
  destruct (measure_qrs_width_ok ecg_signal r_peaks fs verbose Hfs Hall)
    as [m Hm].
  rewrite Hm. discriminate.
Qed.

Lemma measure_qrs_width_never_raises_witness :
  measure_qrs_width close_beats [20; 50]%Z 250 false
  <> Raise ZeroDivisionError.
Proof.
  apply (measure_qrs_width_never_raises close_beats [20; 50]%Z 250 false).
  - lra.
  - repeat constructor; vm_compute; congruence.
Defined.

Lemma qt_at_ok (signal_array : list Q) (fs : Q) (r_idx : Z) :
  0 <= fs -> (0 <= r_idx)%Z ->
  exists q, qt_at signal_array fs r_idx = Ok q.
Proof.
  intros Hfs Hr. unfold qt_at. cbv zeta.
  assert (H04 : (0 <= py_int (0.04 * fs))%Z) by (apply py_int_nonneg; lra).
  assert (H45 : (py_int (0.04 * fs) <= py_int (0.45 * fs))%Z)
    by (apply py_int_mono; lra).
  assert (H10 : (0 <= py_int (0.1 * fs))%Z) by (apply py_int_nonneg; lra).
  set (a := py_int (0.04 * fs)) in *.
  set (b := py_int (0.45 * fs)) in *.
  set (c := py_int (0.1 * fs)) in *.
  destruct (len signal_array <=? r_idx + b)%Z eqn:E1;
    [eexists; reflexivity|].
  apply Z.leb_gt in E1.
  assert (Hw : len (py_slice signal_array (r_idx + a) (r_idx + b))
               = (r_idx + b - (r_idx + a))%Z)
    by (apply py_slice_length; lia).
  set (t_window := py_slice signal_array (r_idx + a) (r_idx + b)) in *.
  destruct (len t_window =? 0)%Z eqn:E2; [eexists; reflexivity|].
  apply Z.eqb_neq in E2.
  destruct (np_argmax_ok t_window) as [Hmax Hbnd]; [lia|].
  rewrite Hmax. cbn [bind result_monad].
  set (t_peak_idx := (r_idx + a + argmax t_window)%Z).
  set (slope_search :=
         py_slice signal_array t_peak_idx (t_peak_idx + c)).
  destruct (len slope_search <? 2)%Z eqn:E3; [eexists; reflexivity|].
  apply Z.ltb_ge in E3.
  assert (Hin : (t_peak_idx + len slope_search <= len signal_array)%Z)
    by (apply py_slice_within;
        [unfold t_peak_idx; lia | change (0 < len slope_search)%Z; lia]).
  pose proof (np_diff_length slope_search ltac:(lia)) as Hd.
  destruct (np_argmin_ok (np_diff slope_search)) as [Hmin Hbnd']; [lia|].
  rewrite Hmin. cbn [bind result_monad].
  destruct (py_get_ok (np_diff slope_search) (argmin (np_diff slope_search))
              Hbnd') as [max_slope Hs].
  rewrite Hs. cbn [bind result_monad].
  destruct (Qeq_bool max_slope 0); [eexists; reflexivity|].
  destruct (py_get_ok signal_array
              (t_peak_idx + argmin (np_diff slope_search))) as [v Hv];
    [unfold t_peak_idx in *; lia|].
  rewrite Hv. cbn [bind result_monad].
  destruct (_ && _); eexists; reflexivity.
Qed.

Lemma Forall_removelast {A} (P : A -> Prop) (l : list A) :
  Forall P l -> Forall P (removelast l).
Proof.
  induction 1 as [|x t Hx Ht IH]; [constructor|].
  destruct t as [|y t']; [constructor|].
  change (removelast (x :: y :: t')) with (x :: removelast (y :: t')).
  now constructor.
Qed.

Lemma calculate_qt_interval_ok (ecg_signal : list Q) (r_peaks : list Z)
  (fs : Q) (verbose : bool) :
  0 <= fs -> Forall (fun p => (0 <= p)%Z) r_peaks ->
  exists m, calculate_qt_interval ecg_signal r_peaks fs verbose = Ok m.
Proof.
  intros Hfs Hall. unfold calculate_qt_interval.
  destruct (len r_peaks <? 3)%Z; [eexists; reflexivity|].
  assert (Hloop : exists qts,
             qt_loop ecg_signal fs (removelast r_peaks) = Ok qts).
  { apply Forall_removelast in Hall.
    induction Hall as [|r rest Hr Hrest IH]; [now exists []|].
    destruct (qt_at_ok ecg_signal fs r Hfs Hr) as [q Hq].
    destruct IH as [qs Hqs].
    cbn [qt_loop]. rewrite Hq. cbn [bind result_monad].
    rewrite Hqs. cbn [bind result_monad]. eexists; reflexivity. }
  destruct Hloop as [qts Hqts]. rewrite Hqts. cbn [bind result_monad].
  eexists; reflexivity.
Qed.

(** X9.  [calculate_qt_interval] never raises for a positive sampling
    rate and peak indices that are not negative: beats whose T-wave
    window would leave the signal are skipped, and every [argmax],
    [argmin] and index that follows stays inside its array. *)
Theorem calculate_qt_interval_never_raises (ecg_signal : list Q)
  (r_peaks : list Z) (fs : Q) (verbose : bool) (e : py_error) :
  0 < fs -> Forall (fun p => (0 <= p)%Z) r_peaks ->
  calculate_qt_interval ecg_signal r_peaks fs verbose <> Raise e.
Proof.
  intros Hfs Hall.
  destruct (calculate_qt_interval_ok ecg_signal r_peaks fs verbose
              ltac:(lra) Hall) as [m Hm].
  rewrite Hm. discriminate.
Qed.

Lemma calculate_qt_interval_never_raises_witness :
  calculate_qt_interval two_bumps five_peaks 250 false <> Raise IndexError.
Proof.
  apply (calculate_qt_interval_never_raises two_bumps five_peaks 250 false).
  - lra.
  - unfold five_peaks. repeat constructor; discriminate.
Defined.

(** ** Whole runs of the pipeline *)

Lemma runs_ret {A} (x : A) : runs (ret x : Py A) x [].
Proof. intros out. py_run. now rewrite app_nil_r. Qed.

Lemma runs_print (l : log_line) : runs (print l) tt [l].
Proof. intros out. reflexivity. Qed.

Lemma runs_lift {A} (x : A) : runs (lift (Ok x)) x [].
Proof. intros out. unfold lift. now rewrite app_nil_r. Qed.

Lemma runs_bind {A B} (m : Py A) (k : A -> Py B) (x : A) (y : B)
  (p1 p2 : stdout) :
  runs m x p1 -> runs (k x) y p2 -> runs (bind m k) y (p1 ++ p2).
Proof.
  intros Hm Hk out. py_run. now rewrite Hm, Hk, app_assoc.
Qed.

Lemma runs_when (b : bool) (m : Py unit) (p : stdout) :
  runs m tt p -> runs (when b m) tt (if b then p else []).
Proof. intros Hm. destruct b; [exact Hm | apply runs_ret]. Qed.

Lemma runs_eq {A} (m : Py A) (x : A) (p p' : stdout) :
  runs m x p -> p = p' -> runs m x p'.
Proof. now intros Hm <-. Qed.

Lemma insensitive_runs {A} (m : Py A) (x : A) (printed : stdout) :
  insensitive m -> m [] = (Ok x, printed) -> runs m x printed.
Proof.
  intros (r & p & Hm) H0. rewrite Hm in H0. cbn [app] in H0.
  injection H0 as -> ->. exact Hm.
Qed.

Lemma np_diffZ_pos_sorted (l : list Z) :
  Forall (fun d => (0 < d)%Z) (np_diffZ l) -> Sorted Z.lt l.
Proof.
  induction l as [|a t IH]; intros Hd; [constructor|].
  destruct t as [|b t']; [repeat constructor|].
  change (np_diffZ (a :: b :: t')) with ((b - a)%Z :: np_diffZ (b :: t')) in Hd.
  inversion Hd as [|d ds Hab Hrest]; subst.
  constructor; [now apply IH | constructor; lia].
Qed.

Lemma detect_arrhythmia_labels (r_peaks : list Z) (fs : Q) (verbose : bool) :
  In (fst (detect_arrhythmia r_peaks fs verbose)) rhythm_labels.
Proof.
  unfold detect_arrhythmia, rate_tier, rhythm_labels.
  destruct (len r_peaks <? 3)%Z; [cbn; tauto|]. cbv zeta. cbn [fst].
  destruct (surd_geb _ 0.15); [cbn; tauto|].
  destruct (Qltb _ 60); [|destruct (Qltb 100 _)];
    destruct (surd_geb _ 0.08); cbn; tauto.
Qed.

Lemma clinical_interpretation_texts (rhythm_status : string)
  (detection : detection_metrics) (qrs : qrs_metrics) (qt : qt_metrics)
  (hrv : hrv_metrics) :
  In rhythm_status rhythm_labels ->
  (120 < mean_qrs_ms qrs ->
   qrs_interpretation qrs = "Wide QRS (BBB/Ventricular)"%string) ->
  (qt_risk_flag qt = true ->
   qt_interpretation qt = "Prolonged QTc"%string
   \/ qt_interpretation qt = "High Risk (Long QT)"%string) ->
  In (fst (clinical_interpretation rhythm_status detection qrs qt hrv))
     rhythm_labels
  /\ incl (snd (clinical_interpretation rhythm_status detection qrs qt hrv))
          warning_texts.
Proof.
  intros Hlabel Hqrs Hqt. unfold clinical_interpretation. cbv zeta.
  assert (Hwct : In wct_label rhythm_labels) by (cbn; tauto).
  destruct (Qltb 120 (mean_qrs_ms qrs)) eqn:E120;
    [apply Qltb_lt in E120; specialize (Hqrs E120); rewrite Hqrs;
     destruct (Qltb 100 (avg_heart_rate_bpm detection))|];
    (destruct (qt_risk_flag qt);
     [destruct (Hqt eq_refl) as [-> | ->]|]);
    destruct (surd_gtb (sdnn_ms hrv) 0 && surd_ltb (sdnn_ms hrv) 50);
    cbn [fst snd app]; (split; [assumption|]);
    intros w Hw; cbn in Hw |- *; tauto.
Qed.

Section PipelineRuns.

Context `{K : Kernels}.

Lemma preprocess_ecg_runs (raw_signal : list Q) (fs : Q) (verbose : bool) :
  120 <= fs -> (27 < len raw_signal)%Z ->
  exists metrics,
    runs (preprocess_ecg raw_signal fs verbose)
         (preprocess_cleaned raw_signal fs, metrics)
         (if verbose then [LogPreprocessInput (len raw_signal) fs] else []).
Proof.
  intros Hfs Hlen.
  destruct (preprocess_ecg_returns raw_signal fs verbose [] Hfs Hlen)
    as [metrics Hrun].
  exists metrics. apply insensitive_runs.
  - apply preprocess_ecg_insensitive.
  - rewrite Hrun. now destruct verbose.
Qed.

Lemma pan_tompkins_detector_runs (ecg_signal : list Q) (fs : Q)
  (verbose : bool) :
  30 < fs -> (15 < len ecg_signal)%Z ->
  exists r_peaks threshold,
    runs (pan_tompkins_detector ecg_signal fs verbose)
         (r_peaks, heart_rate_metrics r_peaks fs threshold)
         (if verbose then [LogDetectorStart (len ecg_signal)] else [])
    /\ Forall (gated_peak ecg_signal) r_peaks
    /\ Forall (fun d => (0 < d)%Z) (np_diffZ r_peaks).
Proof.
  intros Hfs Hlen.
  destruct (pan_tompkins_detector_peaks ecg_signal fs verbose [] Hfs Hlen)
    as (r & t & Hrun & Hg & Hd).
  exists r, t. split; [|now split]. apply insensitive_runs.
  - apply pan_tompkins_detector_insensitive.
  - rewrite Hrun. now destruct verbose.
Qed.

(** On accepted arguments the pipeline returns; the fields of the
    result are what the stages compute on the cleaned signal and the
    detected peaks, and a verbose run prints [pipeline_log]. *)
Lemma process_ecg_complete_runs (raw_voltages : list Q) (sample_rate : Q)
  (verbose : bool) :
  120 <= sample_rate -> (27 < len raw_voltages)%Z ->
  exists res,
    runs (process_ecg_complete raw_voltages sample_rate verbose) res
         (if verbose then pipeline_log raw_voltages sample_rate res else [])
    /\ res_cleaned_signal res = preprocess_cleaned raw_voltages sample_rate
    /\ Forall (gated_peak (res_cleaned_signal res)) (res_r_peak_indices res)
    /\ Forall (fun d => (0 < d)%Z) (np_diffZ (res_r_peak_indices res))
    /\ (exists threshold,
          res_detection_metrics res
          = heart_rate_metrics (res_r_peak_indices res) sample_rate threshold)
    /\ measure_qrs_width (res_cleaned_signal res) (res_r_peak_indices res)
         sample_rate verbose = Ok (res_qrs_metrics res)
    /\ calculate_qt_interval (res_cleaned_signal res) (res_r_peak_indices res)
         sample_rate verbose = Ok (res_qt_metrics res)
    /\ res_hrv_metrics res
       = calculate_hrv_metrics (res_r_peak_indices res) sample_rate verbose
    /\ clinical_interpretation
         (fst (detect_arrhythmia (res_r_peak_indices res) sample_rate verbose))
         (res_detection_metrics res) (res_qrs_metrics res)
         (res_qt_metrics res) (res_hrv_metrics res)
       = (res_rhythm_status res, res_clinical_warnings res)
    /\ res_metrics res
       = {| bpm := avg_heart_rate_bpm (res_detection_metrics res);
            rhythmStatus := res_rhythm_status res;
            confidence := confidence_score (res_filter_metrics res);
            sdnn := sdnn_ms (res_hrv_metrics res);
            rmssd := rmssd_ms (res_hrv_metrics res);
            qtcBazett := mean_qtc_bazett_ms (res_qt_metrics res);
            qrsWidth := mean_qrs_ms (res_qrs_metrics res);
            pnn50 := pnn50_percent (res_hrv_metrics res);
            clinicalWarnings := res_clinical_warnings res |}
    /\ res_sample_rate res = sample_rate
    /\ res_num_samples res = len raw_voltages.
Proof.
  intros Hfs Hlen.
  destruct (preprocess_ecg_runs raw_voltages sample_rate verbose Hfs Hlen)
    as [fm Hpre].
  set (cleaned := preprocess_cleaned raw_voltages sample_rate) in *.
  assert (Hclen : len cleaned = len raw_voltages)
    by apply preprocess_cleaned_length.
  destruct (pan_tompkins_detector_runs cleaned sample_rate verbose)
    as (r & t & Hdet & Hg & Hd); [lra | lia |].
  assert (Hin : Forall (fun p => (0 <= p < len cleaned)%Z) r).
  { eapply Forall_impl; [|exact Hg]. now intros p [Hp _]. }
  destruct (measure_qrs_width_ok cleaned r sample_rate verbose)
    as [qrs Hqrs]; [lra | exact Hin |].
  destruct (calculate_qt_interval_ok cleaned r sample_rate verbose)
    as [qt Hqt]; [lra | eapply Forall_impl; [|exact Hin]; cbv beta; lia |].
  destruct (detect_arrhythmia r sample_rate verbose) as [rhythm am] eqn:Hda.
  destruct (clinical_interpretation rhythm
              (heart_rate_metrics r sample_rate t) qrs qt
              (calculate_hrv_metrics r sample_rate verbose))
    as [label ws] eqn:Hci.
  eexists. split.
  { eapply runs_eq.
    - unfold process_ecg_complete.
      eapply runs_bind.
      { apply runs_when.
        eapply runs_bind; [apply runs_print|].
        eapply runs_bind; [apply runs_print|]. apply runs_print. }
      cbv beta zeta.
      eapply runs_bind; [exact Hpre|]. cbv beta iota.
      eapply runs_bind; [exact Hdet|]. cbv beta iota.
      rewrite Hda, Hqrs.
      eapply runs_bind; [apply runs_lift|]. cbv beta. rewrite Hqt.
      eapply runs_bind; [apply runs_lift|]. cbv beta zeta. rewrite Hci.
      eapply runs_bind.
      { apply runs_when.
        eapply runs_bind; [apply runs_print|].
        eapply runs_bind; [apply runs_print|].
        eapply runs_bind; [apply runs_print|].
        eapply runs_bind; [apply runs_print|].
        eapply runs_bind; [apply runs_print|]. apply runs_print. }
      apply runs_ret.
    - destruct verbose; reflexivity. }
  cbn [res_cleaned_signal res_r_peak_indices res_metrics res_filter_metrics
       res_detection_metrics res_arrhythmia_metrics res_qrs_metrics
       res_qt_metrics res_hrv_metrics res_rhythm_status
       res_clinical_warnings res_sample_rate res_num_samples].
  rewrite Hda. cbn [fst].
  repeat match goal with |- _ /\ _ => split end;
    try reflexivity; try assumption.
  now exists t.
Qed.

Lemma process_ecg_complete_fails (raw_voltages : list Q) (sample_rate : Q)
  (verbose : bool) (out : stdout) :
  sample_rate < 120 \/ (len raw_voltages <= 27)%Z ->
  process_ecg_complete raw_voltages sample_rate verbose out
  = (Raise (argument_error sample_rate),
     if verbose
     then out ++ [LogBanner; LogTitle; LogBanner;
                  LogPreprocessInput (len raw_voltages) sample_rate]
     else out).
Proof.
  intros Hbad. unfold process_ecg_complete.
  destruct verbose; py_run;
    rewrite (preprocess_ecg_raises raw_voltages sample_rate _ _ Hbad);
    [|reflexivity].
  now rewrite <- !app_assoc.
Qed.

End PipelineRuns.

(** ** The [verbose] flag *)

Lemma same_result_bind {A B} (m1 m2 : Py A) (k1 k2 : A -> Py B) :
  same_result m1 m2 -> (forall x, same_result (k1 x) (k2 x)) ->
  same_result (bind m1 k1) (bind m2 k2).
Proof.
  intros Hm Hk out1 out2. py_run. specialize (Hm out1 out2).
  destruct (m1 out1) as [r1 o1], (m2 out2) as [r2 o2].
  cbn [fst] in Hm. subst r2. destruct r1 as [x|e]; [apply Hk | reflexivity].
Qed.

Lemma same_result_insensitive {A} (m : Py A) :
  insensitive m -> same_result m m.
Proof. intros (r & p & Hm) out1 out2. now rewrite !Hm. Qed.

Lemma same_result_logging (b1 b2 : bool) (m : Py unit) (p : stdout) :
  runs m tt p -> same_result (when b1 m) (when b2 m).
Proof.
  intros Hm out1 out2. destruct b1, b2; py_run; rewrite ?Hm; reflexivity.
Qed.

Section Verbose.

Context `{K : Kernels}.

Lemma preprocess_ecg_verbose (raw_signal : list Q) (fs : Q) (v1 v2 : bool) :
  same_result (preprocess_ecg raw_signal fs v1)
              (preprocess_ecg raw_signal fs v2).
Proof.
  unfold preprocess_ecg. apply same_result_bind.
  - eapply same_result_logging, runs_print.
  - intros _. apply same_result_insensitive. insensitive_steps.
Qed.

Lemma pan_tompkins_detector_verbose (ecg_signal : list Q) (fs : Q)
  (v1 v2 : bool) :
  same_result (pan_tompkins_detector ecg_signal fs v1)
              (pan_tompkins_detector ecg_signal fs v2).
Proof.
  unfold pan_tompkins_detector. apply same_result_bind.
  - eapply same_result_logging, runs_print.
  - intros _. apply same_result_insensitive. insensitive_steps.
Qed.

Lemma process_ecg_complete_verbose (raw_voltages : list Q) (sample_rate : Q)
  (v1 v2 : bool) :
  same_result (process_ecg_complete raw_voltages sample_rate v1)
              (process_ecg_complete raw_voltages sample_rate v2).
Proof.
  unfold process_ecg_complete. apply same_result_bind.
  { eapply same_result_logging.
    eapply runs_bind; [apply runs_print|].
    eapply runs_bind; [apply runs_print|]. apply runs_print. }
  intros _. cbv beta zeta.
  apply same_result_bind; [apply preprocess_ecg_verbose | intros [c fm]].
  apply same_result_bind; [apply pan_tompkins_detector_verbose | intros [r dm]].
  change (detect_arrhythmia r sample_rate v2)
    with (detect_arrhythmia r sample_rate v1).
  change (measure_qrs_width c r sample_rate v2)
    with (measure_qrs_width c r sample_rate v1).
  change (calculate_qt_interval c r sample_rate v2)
    with (calculate_qt_interval c r sample_rate v1).
  change (calculate_hrv_metrics r sample_rate v2)
    with (calculate_hrv_metrics r sample_rate v1).
  destruct (detect_arrhythmia r sample_rate v1) as [rhythm am].
  apply same_result_bind;
    [apply same_result_insensitive, insensitive_lift | intros qrs].
  apply same_result_bind;
    [apply same_result_insensitive, insensitive_lift | intros qt].
  cbv zeta.
  destruct (clinical_interpretation rhythm dm qrs qt
              (calculate_hrv_metrics r sample_rate v1)) as [label ws].
  apply same_result_bind.
  - eapply same_result_logging.
    eapply runs_bind; [apply runs_print|].
    eapply runs_bind; [apply runs_print|].
    eapply runs_bind; [apply runs_print|].
    eapply runs_bind; [apply runs_print|].
    eapply runs_bind; [apply runs_print|]. apply runs_print.
  - intros _. apply same_result_insensitive, insensitive_ret.
Qed.

End Verbose.

(** X10.  On accepted arguments (sampling rate of at least 120 Hz, more
    than 27 samples) [process_ecg_complete] returns, and its result is
    consistent: the cleaned signal has as many samples as the input and
    as [num_samples] says, the peak indices are strictly increasing
    indices of the cleaned signal, [num_peaks] counts them, and the
    rate shown to the user is the detector's average rate. *)
Theorem process_ecg_complete_result `{Kernels} (raw_voltages : list Q)
  (sample_rate : Q) (verbose : bool) (out : stdout) :
  120 <= sample_rate -> (27 < len raw_voltages)%Z ->
  exists res out',
    process_ecg_complete raw_voltages sample_rate verbose out = (Ok res, out')
    /\ len (res_cleaned_signal res) = len raw_voltages
    /\ res_num_samples res = len raw_voltages
    /\ res_sample_rate res = sample_rate
    /\ Forall (fun p => (0 <= p < len (res_cleaned_signal res))%Z)
              (res_r_peak_indices res)
    /\ Sorted Z.lt (res_r_peak_indices res)
    /\ num_peaks (res_detection_metrics res) = len (res_r_peak_indices res)
    /\ bpm (res_metrics res) = avg_heart_rate_bpm (res_detection_metrics res).
Proof.
  intros Hfs Hlen.
  destruct (process_ecg_complete_runs raw_voltages sample_rate verbose
              Hfs Hlen)
    as (res & Hrun & Hc & Hg & Hd & [t Hdm] & _ & _ & _ & _ & Hui & Hsr & Hn).
  exists res. eexists. split; [apply Hrun|].
  assert (Hl : len (res_cleaned_signal res) = len raw_voltages)
    by (rewrite Hc; apply preprocess_cleaned_length).
  repeat match goal with |- _ /\ _ => split end; try assumption.
  - eapply Forall_impl; [|exact Hg]. now intros p [Hp _].
  - now apply np_diffZ_pos_sorted.
  - rewrite Hdm. apply heart_rate_metrics_num_peaks.
  - now rewrite Hui.
Qed.

Lemma process_ecg_complete_result_witness :
  exists res out',
    @process_ecg_complete passthrough flat_line 250 false [] = (Ok res, out')
    /\ len (res_cleaned_signal res) = len flat_line
    /\ res_num_samples res = len flat_line
    /\ res_sample_rate res = 250
    /\ Forall (fun p => (0 <= p < len (res_cleaned_signal res))%Z)
              (res_r_peak_indices res)
    /\ Sorted Z.lt (res_r_peak_indices res)
    /\ num_peaks (res_detection_metrics res) = len (res_r_peak_indices res)
    /\ bpm (res_metrics res) = avg_heart_rate_bpm (res_detection_metrics res).
Proof.
  apply (@process_ecg_complete_result passthrough flat_line 250 false []).
  - vm_compute. discriminate.
  - vm_compute. reflexivity.
Defined.

(** X11.  [process_ecg_complete] raises exactly on rejected arguments
    (sampling rate below 120 Hz, or at most 27 samples), in the
    preprocessing stage and before any detection: the error is then
    [ValueError], or [ZeroDivisionError] at a zero rate, never an
    [IndexError] or another error of a later stage, and a verbose run
    has printed the banner and the preprocessing line only. *)
Theorem process_ecg_complete_rejects `{Kernels} (raw_voltages : list Q)
  (sample_rate : Q) (verbose : bool) (out : stdout) :
  ((exists e,
       fst (process_ecg_complete raw_voltages sample_rate verbose out)
       = Raise e)
   <-> sample_rate < 120 \/ (len raw_voltages <= 27)%Z)
  /\ (forall e out',
        process_ecg_complete raw_voltages sample_rate verbose out
        = (Raise e, out') ->
        e = (if Qeq_bool sample_rate 0 then ZeroDivisionError
             else ValueError)
        /\ out' = (if verbose
                   then out ++ [LogBanner; LogTitle; LogBanner;
                                LogPreprocessInput (len raw_voltages)
                                  sample_rate]
                   else out)).
Proof.
  assert (Hcases :
    (sample_rate < 120 \/ (len raw_voltages <= 27)%Z)
    \/ (120 <= sample_rate /\ (27 < len raw_voltages)%Z)).
  { destruct (Qlt_le_dec sample_rate 120); [left; now left|].
    destruct (Z_le_gt_dec (len raw_voltages) 27); [left; now right|].
    right. split; [assumption | lia]. }
  destruct Hcases as [Hbad | [Hfs Hlen]].
  - pose proof (process_ecg_complete_fails raw_voltages sample_rate verbose
                  out Hbad) as Hrun.
    rewrite Hrun. cbn [fst]. split.
    + split; [intros _; exact Hbad | intros _; eexists; reflexivity].
    + intros e out' [= <- <-]. now split.
  - destruct (process_ecg_complete_runs raw_voltages sample_rate verbose
                Hfs Hlen) as (res & Hrun & _).
    rewrite Hrun. cbn [fst]. split.
    + split; [intros [e He]; discriminate He | intros [Hlow | Hshort]].
      * exfalso. lra.
      * lia.
    + intros e out' He. discriminate He.
Qed.

(** X12.  The texts of a returned result come from a closed set: the
    final rhythm label is one of the seven labels the script has
    literals for, every clinical warning is one of five texts, and the
    dictionary formatted for the UI carries the same label and the same
    warnings as the full result. *)
Theorem process_ecg_complete_texts `{Kernels} (raw_voltages : list Q)
  (sample_rate : Q) (verbose : bool) (out : stdout) :
  120 <= sample_rate -> (27 < len raw_voltages)%Z ->
  exists res out',
    process_ecg_complete raw_voltages sample_rate verbose out = (Ok res, out')
    /\ In (res_rhythm_status res) rhythm_labels
    /\ incl (res_clinical_warnings res) warning_texts
    /\ rhythmStatus (res_metrics res) = res_rhythm_status res
    /\ clinicalWarnings (res_metrics res) = res_clinical_warnings res.
Proof.
  intros Hfs Hlen.
  destruct (process_ecg_complete_runs raw_voltages sample_rate verbose
              Hfs Hlen)
    as (res & Hrun & _ & _ & _ & _ & Hqrs & Hqt & _ & Hci & Hui & _).
  exists res. eexists. split; [apply Hrun|].
  destruct (clinical_interpretation_texts
              (fst (detect_arrhythmia (res_r_peak_indices res) sample_rate
                      verbose))
              (res_detection_metrics res) (res_qrs_metrics res)
              (res_qt_metrics res) (res_hrv_metrics res)) as [Hl Hw].
  - apply detect_arrhythmia_labels.
  - apply (measure_qrs_width_wide _ _ _ _ _ Hqrs).
  - apply (calculate_qt_interval_flag _ _ _ _ _ Hqt).
  - rewrite Hci in Hl, Hw. cbn [fst snd] in Hl, Hw. rewrite Hui.
    now repeat split.
Qed.

Lemma process_ecg_complete_texts_witness :
  exists res out',
    @process_ecg_complete passthrough flat_line 250 false [] = (Ok res, out')
    /\ In (res_rhythm_status res) rhythm_labels
    /\ incl (res_clinical_warnings res) warning_texts
    /\ rhythmStatus (res_metrics res) = res_rhythm_status res
    /\ clinicalWarnings (res_metrics res) = res_clinical_warnings res.
Proof.
  apply (@process_ecg_complete_texts passthrough flat_line 250 false []).
  - vm_compute. discriminate.
  - vm_compute. reflexivity.
Defined.

(** X13.  The [verbose] flag changes the log and nothing else: run on
    the same samples and rate, [process_ecg_complete] returns the same
    result, or raises the same error, whether verbose or not and
    whatever was printed before; and a run that is not verbose prints
    nothing. *)
Theorem verbose_only_logs `{Kernels} (raw_voltages : list Q)
  (sample_rate : Q) :
  (forall v1 v2 out1 out2,
      fst (process_ecg_complete raw_voltages sample_rate v1 out1)
      = fst (process_ecg_complete raw_voltages sample_rate v2 out2))
  /\ (forall out,
        snd (process_ecg_complete raw_voltages sample_rate false out) = out).
Proof.
  split.
  - intros v1 v2. apply process_ecg_complete_verbose.
  - intros out.
    destruct (Qlt_le_dec sample_rate 120) as [Hlow|Hfs].
    { now rewrite process_ecg_complete_fails by now left. }
    destruct (Z_le_gt_dec (len raw_voltages) 27) as [Hshort|Hlen].
    { now rewrite process_ecg_complete_fails by now right. }
    destruct (process_ecg_complete_runs raw_voltages sample_rate false Hfs)
      as (res & Hrun & _); [lia|].
    rewrite Hrun. cbn [snd]. apply app_nil_r.
Qed.

(** * Properties of the TypeScript side *)

(** ** [validateECGData] *)

Lemma forallb_push_if (f : string -> bool) (c : bool) (w : string)
  (warnings : list string) :
  forallb f (push_if c w warnings) = forallb f warnings && (negb c || f w).
Proof.
  unfold push_if. destruct c; cbn [negb orb].
  - rewrite forallb_app. cbn [forallb]. now rewrite andb_true_r.
  - now rewrite andb_true_r.
Qed.

Lemma In_push_if (x : string) (c : bool) (w : string)
  (warnings : list string) :
  In x (push_if c w warnings) <-> In x warnings \/ (c = true /\ x = w).
Proof.
  unfold push_if. destruct c.
  - rewrite in_app_iff. cbn [In]. intuition congruence.
  - intuition congruence.
Qed.

Lemma empty_or_forallb (f : string -> bool) (warnings : list string) :
  (len warnings =? 0)%Z || forallb f warnings = forallb f warnings.
Proof. destruct warnings; reflexivity. Qed.

Lemma validateECGData_warnings (data : ParsedECGData) (w : string) :
  In w (snd (validateECGData data)) <->
  (w = warn_short /\ (len (voltages data) < 100)%Z)
  \/ (w = warn_large
      /\ js_ltb (Finite 100) (fst (amplitude_range (voltages data)))
         || js_ltb (snd (amplitude_range (voltages data))) (Finite (-100))
         = true)
  \/ (w = warn_small
      /\ js_ltb (fst (amplitude_range (voltages data))) (Finite 0.1)
         && js_ltb (Finite (-0.1)) (snd (amplitude_range (voltages data)))
         && js_neqb (fst (amplitude_range (voltages data)))
                    (snd (amplitude_range (voltages data))) = true)
  \/ (w = warn_flat
      /\ js_ltb (js_sub (fst (amplitude_range (voltages data)))
                        (snd (amplitude_range (voltages data))))
                (Finite 0.001) = true)
  \/ (w = warn_rate_low /\ sampleRate data < 100)
  \/ (w = warn_rate_high /\ 1000 < sampleRate data)
  \/ (w = warn_duration /\ js_ltb (duration data) (Finite 2) = true).
Proof.
  unfold validateECGData.
  destruct (amplitude_range (voltages data)) as [max min].
  cbv zeta. cbn [fst snd]. rewrite !In_push_if. cbn [In].
  rewrite Z.ltb_lt.
  assert (Hlow : Qltb (sampleRate data) 100 = true <-> sampleRate data < 100).
  { split; [apply Qltb_lt|]. intros Hlt.
    destruct (Qltb (sampleRate data) 100) eqn:E; [reflexivity|].
    apply Qltb_ge in E. lra. }
  assert (Hhigh : Qltb 1000 (sampleRate data) = true
                  <-> 1000 < sampleRate data).
  { split; [apply Qltb_lt|]. intros Hlt.
    destruct (Qltb 1000 (sampleRate data)) eqn:E; [reflexivity|].
    apply Qltb_ge in E. lra. }
  rewrite Hlow, Hhigh. intuition congruence.
Qed.

(** Only the warning about a low rate makes a recording invalid. *)
Lemma validateECGData_rate (data : ParsedECGData) :
  fst (validateECGData data) = true <-> 100 <= sampleRate data.
Proof.
  unfold validateECGData.
  destruct (amplitude_range (voltages data)) as [max min].
  cbv zeta. cbn [fst]. rewrite empty_or_forallb, !forallb_push_if.
  change (negb (contains "requires" warn_short)) with true.
  change (negb (contains "requires" warn_large)) with true.
  change (negb (contains "requires" warn_small)) with true.
  change (negb (contains "requires" warn_flat)) with true.
  change (negb (contains "requires" warn_rate_low)) with false.
  change (negb (contains "requires" warn_rate_high)) with true.
  change (negb (contains "requires" warn_duration)) with true.
  cbn [forallb]. rewrite !orb_true_r, orb_false_r. cbn [andb].
  unfold Qltb. rewrite negb_involutive, ?andb_true_r.
  apply Qle_bool_iff.
Qed.

(** X14.  [validateECGData] accepts a recording exactly when its
    sampling rate is at least 100 Hz: of the seven warnings only the one
    about a low rate contains "requires", so a short, flat, small, large
    or brief recording is still valid; every warning is one of the
    seven texts, and the low-rate warning is there exactly when the
    recording is not valid. *)
Theorem validateECGData_valid (data : ParsedECGData) :
  (fst (validateECGData data) = true <-> 100 <= sampleRate data)
  /\ incl (snd (validateECGData data)) validation_texts
  /\ (In warn_rate_low (snd (validateECGData data))
      <-> fst (validateECGData data) = false).
Proof.
  split; [apply validateECGData_rate|]. split.
  - intros w Hw. apply validateECGData_warnings in Hw.
    unfold validation_texts. cbn [In]. intuition congruence.
  - rewrite validateECGData_warnings.
    pose proof (validateECGData_rate data) as Hrate.
    destruct (fst (validateECGData data)).
    + assert (Hfs : 100 <= sampleRate data) by now apply Hrate.
      split; [|discriminate]. unfold warn_rate_low, warn_short, warn_large,
        warn_small, warn_flat, warn_rate_high, warn_duration.
      intros [[E _]|[[E _]|[[E _]|[[E _]|[[_ Hlow]|[[E _]|[E _]]]]]]];
        try discriminate E. lra.
    + split; [reflexivity|]. intros _.
      do 4 right. left. split; [reflexivity|].
      apply Qnot_le_lt. intros Hle. apply Hrate in Hle. discriminate.
Qed.

Lemma mitbih_voltage_range (voltage : Q) :
  -5 <= mitbih_voltage voltage /\ mitbih_voltage voltage <= 5.
Proof.
  unfold mitbih_voltage. cbv zeta.
  generalize (if Qltb 100 voltage then (voltage - 1024) / 200 else voltage).
  intros v.
  destruct (Qltb 5 v) eqn:E5.
  - destruct (Qltb 5 (-5)) eqn:E; [apply Qltb_lt in E; lra|]. lra.
  - apply Qltb_ge in E5.
    destruct (Qltb v (-5)) eqn:Em; [lra|]. apply Qltb_ge in Em. lra.
Qed.

Lemma amplitude_range_step (lo hi : Q) (l : list Q) :
  Forall (fun v => lo <= v /\ v <= hi) l ->
  forall a b, lo <= b -> b <= a -> a <= hi ->
    exists a' b',
      fold_left
        (fun '(max, min) v =>
           (if js_ltb max (Finite v) then Finite v else max,
            if js_ltb (Finite v) min then Finite v else min))
        l (Finite a, Finite b) = (Finite a', Finite b')
      /\ lo <= b' /\ b' <= a' /\ a' <= hi.
Proof.
  induction 1 as [|v t [Hv1 Hv2] Ht IH]; intros a b Hb Hab Ha.
  - exists a, b. now repeat split.
  - cbn [fold_left js_ltb].
    destruct (Qltb a v) eqn:Ea; destruct (Qltb v b) eqn:Eb;
      try apply Qltb_lt in Ea; try apply Qltb_ge in Ea;
      try apply Qltb_lt in Eb; try apply Qltb_ge in Eb;
      apply IH; lra.
Qed.

Lemma amplitude_range_within (lo hi : Q) (l : list Q) :
  l <> [] -> Forall (fun v => lo <= v /\ v <= hi) l ->
  exists a b, amplitude_range l = (Finite a, Finite b)
              /\ lo <= b /\ b <= a /\ a <= hi.
Proof.
  intros Hne Hall. destruct l as [|v t]; [congruence|].
  inversion Hall as [|? ? [Hv1 Hv2] Ht]; subst.
  unfold amplitude_range. cbn [fold_left js_ltb].
  apply (amplitude_range_step lo hi t Ht); lra.
Qed.

(** X15.  Whatever the rows of the file, a recording [parseMITBIH_CSV]
    produces has every voltage between -5 and 5 mV and the fixed rate
    of 360 Hz; [validateECGData] therefore always accepts it, and never
    warns that its values look like raw ADC units. *)
Theorem parseMITBIH_rows_valid (lead_values : list (option Q))
  (data : ParsedECGData) :
  parseMITBIH_rows lead_values = Some data ->
  Forall (fun v => -5 <= v /\ v <= 5) (voltages data)
  /\ sampleRate data = 360
  /\ fst (validateECGData data) = true
  /\ ~ In warn_large (snd (validateECGData data)).
Proof.
  unfold parseMITBIH_rows. cbv zeta.
  set (vs := flat_map _ lead_values).
  assert (Hvs : Forall (fun v => -5 <= v /\ v <= 5) vs).
  { apply Forall_forall. intros v Hv. apply in_flat_map in Hv.
    destruct Hv as ([x|] & _ & Hx); [|contradiction].
    destruct Hx as [<- | []]. apply mitbih_voltage_range. }
  destruct (len vs =? 0)%Z eqn:E; [discriminate|]. intros [= <-].
  apply Z.eqb_neq in E. cbn [voltages sampleRate].
  split; [exact Hvs|]. split; [reflexivity|]. split.
  - apply validateECGData_rate. cbn [sampleRate]. lra.
  - rewrite validateECGData_warnings. cbn [voltages].
    destruct (amplitude_range_within (-5) 5 vs) as (a & b & Hr & Hb & _ & Ha);
      [intros Hnil; rewrite Hnil in E; now apply E | exact Hvs |].
    rewrite Hr. cbn [fst snd js_ltb].
    destruct (Qltb 100 a) eqn:E1; [apply Qltb_lt in E1; lra|].
    destruct (Qltb b (-100)) eqn:E2; [apply Qltb_lt in E2; lra|].
    cbn [orb]. unfold warn_large, warn_short, warn_small, warn_flat,
      warn_rate_low, warn_rate_high, warn_duration.
    intuition discriminate.
Qed.
Lemma parseMITBIH_rows_valid_witness :
  Forall (fun v => -5 <= v /\ v <= 5) (voltages mitbih_sample)
  /\ sampleRate mitbih_sample = 360
  /\ fst (validateECGData mitbih_sample) = true
  /\ ~ In warn_large (snd (validateECGData mitbih_sample)).
Proof.
  apply (parseMITBIH_rows_valid [Some 1000; None; Some 50]). reflexivity.
Defined.

(** ** From a request to the pipeline *)

Lemma sampleRate_or_nonzero (config : ProcessingConfig) :
  ~ sampleRate_or config 250 == 0.
Proof.
  unfold sampleRate_or. destruct (cfg_sampleRate config) as [fs|].
  - destruct (Qeq_bool fs 0) eqn:E; [discriminate|].
    intros H0. apply Qeq_bool_iff in H0. congruence.
  - discriminate.
Qed.

Lemma argument_error_nonzero (fs : Q) :
  ~ fs == 0 -> argument_error fs = ValueError.
Proof.
  intros Hfs. unfold argument_error.
  destruct (Qeq_bool fs 0) eqn:E; [|reflexivity].
  apply Qeq_bool_iff in E. contradiction.
Qed.

Lemma worker_processECG_error `{Kernels} (rawVoltages : list Q)
  (config : ProcessingConfig) (requestId : string) (out : stdout) :
  sampleRate_or config 250 < 120 \/ (len rawVoltages <= 27)%Z ->
  fst (worker_processECG rawVoltages config requestId out)
  = ERROR ValueError requestId.
Proof.
  intros Hbad. unfold worker_processECG.
  rewrite process_ecg_complete_fails by exact Hbad.
  cbn [fst]. now rewrite argument_error_nonzero
    by apply sampleRate_or_nonzero.
Qed.

Lemma worker_processECG_processed `{Kernels} (rawVoltages : list Q)
  (config : ProcessingConfig) (requestId : string) (out : stdout) :
  120 <= sampleRate_or config 250 -> (27 < len rawVoltages)%Z ->
  exists results,
    fst (worker_processECG rawVoltages config requestId out)
    = ECG_PROCESSED results requestId
    /\ res_sample_rate results = sampleRate_or config 250
    /\ res_num_samples results = len rawVoltages.
Proof.
  intros Hfs Hlen. unfold worker_processECG.
  destruct (process_ecg_complete_runs rawVoltages (sampleRate_or config 250)
              (verbose_or_false config) Hfs Hlen)
    as (res & Hrun & Hrest).
  rewrite Hrun. cbn [fst]. exists res. split; [reflexivity|].
  decompose [and] Hrest. now split.
Qed.

(** X16.  Through the worker the pipeline never sees a zero sampling
    rate: a missing or zero [sampleRate] becomes 250.  So the only
    Python error the worker reports is [ValueError], never
    [ZeroDivisionError]: it posts [ERROR], for the request it was given,
    exactly when the rate in effect is below 120 Hz or there are at most
    27 samples, and [ECG_PROCESSED], with results for that rate and that
    many samples, otherwise. *)
Theorem worker_processECG_outcome `{Kernels} (rawVoltages : list Q)
  (config : ProcessingConfig) (requestId : string) (out : stdout) :
  (forall e id,
      fst (worker_processECG rawVoltages config requestId out) = ERROR e id
      <-> (e = ValueError /\ id = requestId
           /\ (sampleRate_or config 250 < 120
               \/ (len rawVoltages <= 27)%Z)))
  /\ (120 <= sampleRate_or config 250 -> (27 < len rawVoltages)%Z ->
      exists results,
        fst (worker_processECG rawVoltages config requestId out)
        = ECG_PROCESSED results requestId
        /\ res_sample_rate results = sampleRate_or config 250
        /\ res_num_samples results = len rawVoltages).
Proof.
  split; [|apply worker_processECG_processed].
  intros e id. split.
  - intros Hmsg.
    destruct (Qlt_le_dec (sampleRate_or config 250) 120) as [Hlow|Hfs].
    { rewrite worker_processECG_error in Hmsg by now left.
      injection Hmsg as <- <-. repeat split. now left. }
    destruct (Z_le_gt_dec (len rawVoltages) 27) as [Hshort|Hlen].
    { rewrite worker_processECG_error in Hmsg by now right.
      injection Hmsg as <- <-. repeat split. now right. }
    destruct (worker_processECG_processed rawVoltages config requestId out
                Hfs) as (res & Hres & _); [lia|].
    rewrite Hres in Hmsg. discriminate Hmsg.
  - intros (-> & -> & Hbad). now apply worker_processECG_error.
Qed.

(** X17.  A recording that [validateECGData] accepts can still fail in
    Python.  Sent the way [processECGFile] sends it, a valid recording
    is processed at its own sampling rate; it comes back as [ERROR]
    with a [ValueError] whenever that rate is below 120 Hz (rates from
    100 Hz on are valid) or it has at most 27 samples (shortness only
    warns), and as [ECG_PROCESSED] otherwise. *)
Theorem valid_recording_outcome `{Kernels} (parsedData : ParsedECGData)
  (requestId : string) (out : stdout) :
  fst (validateECGData parsedData) = true ->
  let message :=
    fst (worker_processECG (voltages parsedData)
           (posted_config (file_config parsedData)) requestId out) in
  (sampleRate parsedData < 120 \/ (len (voltages parsedData) <= 27)%Z ->
   message = ERROR ValueError requestId)
  /\ (120 <= sampleRate parsedData -> (27 < len (voltages parsedData))%Z ->
      exists results,
        message = ECG_PROCESSED results requestId
        /\ res_sample_rate results = sampleRate parsedData
        /\ res_num_samples results = len (voltages parsedData)).
Proof.
  intros Hvalid. apply validateECGData_rate in Hvalid. cbv zeta.
  assert (Hfs : sampleRate_or (posted_config (file_config parsedData)) 250
                = sampleRate parsedData).
  { unfold posted_config, file_config. unfold sampleRate_or.
    cbn [cfg_sampleRate].
    destruct (Qeq_bool (sampleRate parsedData) 0) eqn:E.
    - apply Qeq_bool_iff in E. lra.
    - rewrite ?E. reflexivity. }
  split.
  - intros Hbad. apply worker_processECG_error. now rewrite Hfs.
  - intros Hrate Hlen.
    destruct (worker_processECG_processed (voltages parsedData)
                (posted_config (file_config parsedData)) requestId out)
      as (res & Hres & Hsr & Hn); [now rewrite Hfs | exact Hlen |].
    exists res. rewrite Hfs in Hsr. now repeat split.
Qed.

Lemma valid_recording_outcome_witness :
  (sampleRate slow_recording < 120
   \/ (len (voltages slow_recording) <= 27)%Z ->
   fst (@worker_processECG passthrough (voltages slow_recording)
          (posted_config (file_config slow_recording)) "req_1" [])
   = ERROR ValueError "req_1")
  /\ (120 <= sampleRate slow_recording ->
      (27 < len (voltages slow_recording))%Z ->
      exists results,
        fst (@worker_processECG passthrough (voltages slow_recording)
               (posted_config (file_config slow_recording)) "req_1" [])
        = ECG_PROCESSED results "req_1"
        /\ res_sample_rate results = sampleRate slow_recording
        /\ res_num_samples results = len (voltages slow_recording)).
Proof.
  apply (@valid_recording_outcome passthrough slow_recording "req_1" []).
  vm_compute. reflexivity.
Defined.

(** ** [normalizeRhythmStatus] and [calculateConfidence] *)

Lemma normalizeRhythmStatus_cases (status : string) :
  In (normalizeRhythmStatus status) rhythm_statuses.
Proof.
  unfold normalizeRhythmStatus, rhythm_statuses.
  repeat match goal with
         | |- context [if ?c then _ else _] => destruct c
         end; cbn [In]; tauto.
Qed.

(** X18.  [normalizeRhythmStatus] always yields one of the six values of
    the type [PatientMetrics['rhythmStatus']], and leaves each of them
    unchanged: normalising twice is normalising once. *)
Theorem normalizeRhythmStatus_idempotent (status : string) :
  In (normalizeRhythmStatus status) rhythm_statuses
  /\ normalizeRhythmStatus (normalizeRhythmStatus status)
     = normalizeRhythmStatus status.
Proof.
  split; [apply normalizeRhythmStatus_cases|].
  pose proof (normalizeRhythmStatus_cases status) as Hin.
  unfold rhythm_statuses in Hin. cbn [In] in Hin.
  decompose [or] Hin; try contradiction;
    match goal with H : _ = normalizeRhythmStatus status |- _ =>
      rewrite <- H; reflexivity
    end.
Qed.

Lemma detect_arrhythmia_insufficient (r_peaks : list Z) (fs : Q)
  (verbose : bool) :
  fst (detect_arrhythmia r_peaks fs verbose) = "Insufficient data"%string ->
  (len r_peaks < 3)%Z.
Proof.
  unfold detect_arrhythmia, rate_tier.
  destruct (len r_peaks <? 3)%Z eqn:E; [intros _; now apply Z.ltb_lt|].
  cbv zeta. cbn [fst].
  destruct (surd_geb _ 0.15); [discriminate|].
  destruct (Qltb _ 60); [|destruct (Qltb 100 _)];
    destruct (surd_geb _ 0.08); cbn; discriminate.
Qed.

Lemma clinical_interpretation_label (rhythm_status : string)
  (detection : detection_metrics) (qrs : qrs_metrics) (qt : qt_metrics)
  (hrv : hrv_metrics) :
  fst (clinical_interpretation rhythm_status detection qrs qt hrv)
  = rhythm_status
  \/ fst (clinical_interpretation rhythm_status detection qrs qt hrv)
     = wct_label.
Proof.
  unfold clinical_interpretation. cbv zeta.
  destruct (Qltb 120 _); [destruct (Qltb 100 _)|]; cbn [fst]; tauto.
Qed.

(** X19.  What the application shows for the rhythm of a processed
    recording is one of the six values of its type; it is "Analyzing..."
    only when fewer than three beats were detected; and the label
    "Borderline: Mild Irregularity" of the script is shown as "Flagged:
    Irregular Rhythm". *)
Theorem shown_rhythm_status `{Kernels} (raw_voltages : list Q)
  (sample_rate : Q) (verbose : bool) (out : stdout) :
  120 <= sample_rate -> (27 < len raw_voltages)%Z ->
  exists res out',
    process_ecg_complete raw_voltages sample_rate verbose out = (Ok res, out')
    /\ In (pm_rhythmStatus (pr_metrics (transformResults res)))
          rhythm_statuses
    /\ (pm_rhythmStatus (pr_metrics (transformResults res))
        = "Analyzing..."%string ->
        (len (res_r_peak_indices res) < 3)%Z)
    /\ (res_rhythm_status res = "Borderline: Mild Irregularity"%string ->
        pm_rhythmStatus (pr_metrics (transformResults res))
        = "Flagged: Irregular Rhythm"%string).
Proof.
  intros Hfs Hlen.
  destruct (process_ecg_complete_runs raw_voltages sample_rate verbose
              Hfs Hlen)
    as (res & Hrun & _ & _ & _ & _ & _ & _ & _ & Hci & _).
  exists res. eexists. split; [apply Hrun|].
  cbn [transformResults pr_metrics pm_rhythmStatus].
  split; [apply normalizeRhythmStatus_cases|]. split.
  - intros Hshown.
    apply (detect_arrhythmia_insufficient _ sample_rate verbose).
    pose proof (detect_arrhythmia_labels (res_r_peak_indices res)
                  sample_rate verbose) as Hlabel.
    destruct (clinical_interpretation_label
                (fst (detect_arrhythmia (res_r_peak_indices res) sample_rate
                        verbose))
                (res_detection_metrics res) (res_qrs_metrics res)
                (res_qt_metrics res) (res_hrv_metrics res)) as [Hl|Hl];
      rewrite Hci in Hl; cbn [fst] in Hl.
    + rewrite <- Hl in *. unfold rhythm_labels in Hlabel.
      cbn [In] in Hlabel.
      decompose [or] Hlabel; try contradiction;
        match goal with
        | Heq : _ = res_rhythm_status res |- _ =>
            rewrite <- Heq in Hshown |- *;
            first [reflexivity | discriminate Hshown]
        end.
    + rewrite Hl in Hshown. discriminate Hshown.
  - intros ->. reflexivity.
Qed.

Lemma shown_rhythm_status_witness :
  exists res out',
    @process_ecg_complete passthrough flat_line 250 false [] = (Ok res, out')
    /\ In (pm_rhythmStatus (pr_metrics (transformResults res)))
          rhythm_statuses
    /\ (pm_rhythmStatus (pr_metrics (transformResults res))
        = "Analyzing..."%string ->
        (len (res_r_peak_indices res) < 3)%Z)
    /\ (res_rhythm_status res = "Borderline: Mild Irregularity"%string ->
        pm_rhythmStatus (pr_metrics (transformResults res))
        = "Flagged: Irregular Rhythm"%string).
Proof.
  apply (@shown_rhythm_status passthrough flat_line 250 false []).
  - vm_compute. discriminate.
  - vm_compute. reflexivity.
Defined.

Ltac confidence_cases :=
  repeat match goal with
         | |- context [Qle_bool ?c ?z] =>
             let E := fresh "E" in
             destruct (Qle_bool c z) eqn:E;
             [apply Qle_bool_iff in E
             |assert (z < c)
                by (apply Qnot_le_lt; intros Hle;
                    apply Qle_bool_iff in Hle; congruence);
              clear E]
         | |- context [Qltb (60 + ?z * 2) 95] =>
             let E := fresh "E" in
             destruct (Qltb (60 + z * 2) 95) eqn:E;
             [apply Qltb_lt in E | apply Qltb_ge in E]
         | |- context [Qltb 60 ?z] =>
             let E := fresh "E" in
             destruct (Qltb 60 z) eqn:E;
             [apply Qltb_lt in E | apply Qltb_ge in E]
         end.

Lemma calculateConfidence_bounds (filterMetrics : filter_metrics) :
  60 <= calculateConfidence filterMetrics
  /\ calculateConfidence filterMetrics <= 98.
Proof.
  unfold calculateConfidence, Math_max, Math_min. cbv zeta.
  generalize (snr_db filterMetrics). intros x.
  confidence_cases; split; lra.
Qed.

Lemma calculateConfidence_low (filterMetrics : filter_metrics) :
  snr_db filterMetrics <= 5 -> calculateConfidence filterMetrics <= 70.
Proof.
  unfold calculateConfidence, Math_max, Math_min. cbv zeta.
  generalize (snr_db filterMetrics). intros x Hx.
  confidence_cases; lra.
Qed.

(** X20.  For a finite [snr_db], [calculateConfidence] stays between 60
    and 98 and never decreases when the signal-to-noise ratio grows;
    below 10 dB it is [max(60, 60 + 2 * snr_db)], the cap at 95 never
    being reached. *)
Theorem calculateConfidence_range (a b : filter_metrics) :
  (60 <= calculateConfidence a /\ calculateConfidence a <= 98)
  /\ (snr_db a <= snr_db b -> calculateConfidence a <= calculateConfidence b)
  /\ (snr_db a < 10 ->
      calculateConfidence a = Math_max 60 (60 + snr_db a * 2)).
Proof.
  unfold calculateConfidence, Math_max, Math_min. cbv zeta.
  generalize (snr_db a) (snr_db b). intros x y.
  confidence_cases;
    repeat split; intros; try reflexivity; try lra; exfalso; lra.
Qed.

(** ** [transformResults] *)

(** The time stamp is cut from the double [i / sample_rate].  Sample 3
    at 400 Hz: the double nearest to 0.0075 is below it, and the stamp
    is 0.007; sample 9 is stamped 0.022. *)
Example time_stamp_of_the_double :
  toFixed3 (Binary64.fdiv 3 400) == 0.007
  /\ toFixed3 (3 / 400) == 0.008
  /\ toFixed3 (Binary64.fdiv 9 400) == 0.022.
Proof.
  split; [vm_compute; reflexivity|]. split; vm_compute; reflexivity.
Qed.

Lemma In_range (n i : Z) : In i (range n) <-> (0 <= i < n)%Z.
Proof.
  unfold range. rewrite in_map_iff. split.
  - intros (k & <- & Hk). apply in_seq in Hk. lia.
  - intros Hi. exists (Z.to_nat i). split; [lia|]. apply in_seq. lia.
Qed.

Lemma NoDup_range (n : Z) : NoDup (range n).
Proof.
  unfold range. generalize (seq_NoDup (Z.to_nat n) 0).
  generalize (seq 0 (Z.to_nat n)). intros l.
  induction 1 as [|k t Hk Ht IH]; cbn [map]; constructor; [|exact IH].
  rewrite in_map_iff. intros (j & Hj & Hin).
  apply Nat2Z.inj in Hj. now subst.
Qed.

Lemma has_In (peakSet : list Z) (i : Z) :
  has peakSet i = true <-> In i peakSet.
Proof.
  unfold has. rewrite existsb_exists. split.
  - intros (p & Hp & Heq). apply Z.eqb_eq in Heq. now subst.
  - intros Hi. exists i. split; [exact Hi | apply Z.eqb_refl].
Qed.

Lemma Sorted_lt_NoDup (l : list Z) : Sorted Z.lt l -> NoDup l.
Proof.
  intros Hs. apply Sorted_StronglySorted in Hs; [|intros x y z; lia].
  induction Hs as [|a l Hs IH Hall]; constructor; [|exact IH].
  intros Hin. rewrite Forall_forall in Hall. specialize (Hall a Hin). lia.
Qed.

Lemma filter_map_swap' {A B} (f : B -> bool) (g : A -> B) (l : list A) :
  filter f (map g l) = map g (filter (fun x => f (g x)) l).
Proof.
  induction l as [|x t IH]; [reflexivity|]. cbn [map filter].
  destruct (f (g x)); cbn [map]; now rewrite IH.
Qed.

(** As many indices below [n] are in the peak set as there are peaks,
    when the peaks are distinct indices below [n]. *)
Lemma peak_count (peaks : list Z) (n : Z) :
  NoDup peaks -> Forall (fun p => (0 <= p < n)%Z) peaks ->
  List.length (filter (has peaks) (range n)) = List.length peaks.
Proof.
  intros Hnd Hall. apply Nat.le_antisymm.
  - apply NoDup_incl_length; [apply NoDup_filter, NoDup_range|].
    intros i Hi. apply filter_In in Hi. now apply has_In.
  - apply NoDup_incl_length; [exact Hnd|].
    intros p Hp. apply filter_In. split; [|now apply has_In].
    apply In_range. rewrite Forall_forall in Hall. now apply Hall.
Qed.

Lemma transformResults_data_length (pythonResults : results) :
  len (pr_data (transformResults pythonResults))
  = len (res_cleaned_signal pythonResults).
Proof.
  unfold transformResults. cbv zeta. cbn [pr_data]. unfold len.
  rewrite length_map, range_length. lia.
Qed.

Lemma transformResults_peaks (pythonResults : results) :
  Sorted Z.lt (res_r_peak_indices pythonResults) ->
  Forall (fun p => (0 <= p < len (res_cleaned_signal pythonResults))%Z)
         (res_r_peak_indices pythonResults) ->
  len (filter isPeak (pr_data (transformResults pythonResults)))
  = len (res_r_peak_indices pythonResults).
Proof.
  intros Hs Hall. unfold transformResults. cbv zeta. cbn [pr_data].
  rewrite filter_map_swap'. cbn [isPeak]. unfold len. f_equal.
  rewrite length_map. apply peak_count; [now apply Sorted_lt_NoDup|].
  exact Hall.
Qed.

Lemma transformResults_point (pythonResults : results) (i : nat) :
  (Z.of_nat i < len (res_cleaned_signal pythonResults))%Z ->
  exists point,
    nth_error (pr_data (transformResults pythonResults)) i = Some point
    /\ voltage point = at_ (res_cleaned_signal pythonResults) (Z.of_nat i)
    /\ clean point = voltage point
    /\ (isPeak point = true
        <-> In (Z.of_nat i) (res_r_peak_indices pythonResults)).
Proof.
  intros Hi. unfold transformResults. cbv zeta. cbn [pr_data].
  unfold range. rewrite map_map.
  rewrite nth_error_map.
  rewrite (nth_error_nth' _ 0%nat) by (rewrite length_seq; unfold len in *; lia).
  rewrite seq_nth by (unfold len in *; lia).
  cbn [option_map Nat.add]. eexists. split; [reflexivity|].
  cbn [voltage clean isPeak]. split; [reflexivity|].
  split; [reflexivity|]. apply has_In.
Qed.

(** X21.  What the application draws for a processed recording: one
    point per input sample, each with the cleaned sample as both
    [voltage] and [clean]; a point is marked [isPeak] exactly when its
    index is a detected peak, so the marked points are as many as
    [num_peaks] says; and the rate shown is the detector's. *)
Theorem transformResults_points `{Kernels} (raw_voltages : list Q)
  (sample_rate : Q) (verbose : bool) (out : stdout) :
  120 <= sample_rate -> (27 < len raw_voltages)%Z ->
  exists res out',
    process_ecg_complete raw_voltages sample_rate verbose out = (Ok res, out')
    /\ len (pr_data (transformResults res)) = len raw_voltages
    /\ len (filter isPeak (pr_data (transformResults res)))
       = num_peaks (pr_detection_metrics (transformResults res))
    /\ (forall i, (Z.of_nat i < len raw_voltages)%Z ->
          exists point,
            nth_error (pr_data (transformResults res)) i = Some point
            /\ voltage point = at_ (res_cleaned_signal res) (Z.of_nat i)
            /\ clean point = voltage point
            /\ (isPeak point = true
                <-> In (Z.of_nat i) (res_r_peak_indices res)))
    /\ pm_bpm (pr_metrics (transformResults res)) = bpm (res_metrics res).
Proof.
  intros Hfs Hlen.
  destruct (process_ecg_complete_runs raw_voltages sample_rate verbose
              Hfs Hlen)
    as (res & Hrun & Hc & Hg & Hd & [t Hdm] & _ & _ & _ & _ & Hui & _).
  assert (Hl : len (res_cleaned_signal res) = len raw_voltages)
    by (rewrite Hc; apply preprocess_cleaned_length).
  exists res. eexists. split; [apply Hrun|].
  split; [now rewrite transformResults_data_length|]. split; [|split].
  - rewrite transformResults_peaks.
    + change (pr_detection_metrics (transformResults res))
        with (res_detection_metrics res).
      rewrite Hdm. symmetry. apply heart_rate_metrics_num_peaks.
    + now apply np_diffZ_pos_sorted.
    + eapply Forall_impl; [|exact Hg]. now intros p [Hp _].
  - intros i Hi. apply transformResults_point. now rewrite Hl.
  - rewrite Hui. reflexivity.
Qed.

Lemma transformResults_points_witness :
  exists res out',
    @process_ecg_complete passthrough flat_line 250 false [] = (Ok res, out')
    /\ len (pr_data (transformResults res)) = len flat_line
    /\ len (filter isPeak (pr_data (transformResults res)))
       = num_peaks (pr_detection_metrics (transformResults res))
    /\ (forall i, (Z.of_nat i < len flat_line)%Z ->
          exists point,
            nth_error (pr_data (transformResults res)) i = Some point
            /\ voltage point = at_ (res_cleaned_signal res) (Z.of_nat i)
            /\ clean point = voltage point
            /\ (isPeak point = true
                <-> In (Z.of_nat i) (res_r_peak_indices res)))
    /\ pm_bpm (pr_metrics (transformResults res)) = bpm (res_metrics res).
Proof.
  apply (@transformResults_points passthrough flat_line 250 false []).
  - vm_compute. discriminate.
  - vm_compute. reflexivity.
Defined.

(** ** The state of the processor *)

Lemma Map_delete_has (m : list string) (k : string) :
  Map_has (Map_delete m k) k = false.
Proof.
  unfold Map_has, Map_delete. induction m as [|k' t IH]; [reflexivity|].
  cbn [filter]. destruct (String.eqb k k') eqn:E; cbn [negb]; [exact IH|].
  cbn [existsb]. now rewrite E, IH.
Qed.

Lemma sampleRate_or_posted (config : ProcessingConfig) :
  sampleRate_or (posted_config config) 250 = sampleRate_or config 250.
Proof.
  unfold posted_config. unfold sampleRate_or at 1. cbn [cfg_sampleRate].
  destruct (Qeq_bool (sampleRate_or config 250) 0) eqn:E; [|reflexivity].
  apply Qeq_bool_iff in E. now apply sampleRate_or_nonzero in E.
Qed.

(** In the state [error], with the initialisation promise in place,
    every call is refused and changes nothing. *)
Lemma run_calls_error (cs : list api_call) (p : ECGProcessor) :
  status p = error -> initializationPromise p = true ->
  snd (run_calls cs p) = p /\ Forall refused (fst (run_calls cs p)).
Proof.
  intros Hst Hinit. induction cs as [|c rest [IHp IHo]]; [now split|].
  assert (Hcall : snd (run_call c p) = p /\ refused (fst (run_call c p))).
  { destruct c as [ok|config id|config id]; cbn [run_call].
    - unfold initialize. rewrite Hinit. now split.
    - unfold processECG, isReady. rewrite Hst. now split.
    - unfold preprocessOnly, isReady. rewrite Hst. now split. }
  destruct Hcall as [Hp Ho]. cbn [run_calls].
  destruct (run_call c p) as [o p']. cbn [fst snd] in Hp, Ho. subst p'.
  destruct (run_calls rest p) as [os p'']. cbn [fst snd] in *.
  split; [exact IHp | now constructor].
Qed.

(** X22.  One request on a ready processor.  If Python accepts the
    recording, the reply leaves the processor [ready] with the request
    no longer pending.  If Python rejects it (rate in effect below
    120 Hz, or at most 27 samples), the reply leaves the processor in
    the state [error], and from then on no sequence of [initialize],
    [processECG] and [preprocessOnly] calls changes the processor or
    posts anything to the worker: [initialize] returns the old promise
    and the other two throw. *)
Theorem process_round_trip_outcome `{Kernels} (rawVoltages : list Q)
  (config : ProcessingConfig) (requestId : string) (out : stdout)
  (p : ECGProcessor) :
  status p = ready -> worker p = true -> initializationPromise p = true ->
  (120 <= sampleRate_or config 250 -> (27 < len rawVoltages)%Z ->
   status (process_round_trip rawVoltages config requestId out p) = ready
   /\ Map_has (pendingRequests
                 (process_round_trip rawVoltages config requestId out p))
              requestId = false)
  /\ (sampleRate_or config 250 < 120 \/ (len rawVoltages <= 27)%Z ->
      status (process_round_trip rawVoltages config requestId out p) = error
      /\ forall cs,
           snd (run_calls cs
                  (process_round_trip rawVoltages config requestId out p))
           = process_round_trip rawVoltages config requestId out p
           /\ Forall refused
                (fst (run_calls cs
                        (process_round_trip rawVoltages config requestId
                           out p)))).
Proof.
  intros Hst Hw Hinit. unfold process_round_trip, processECG, isReady.
  rewrite Hst, Hw. cbn [negb].
  split.
  - intros Hfs Hlen.
    destruct (worker_processECG_processed rawVoltages (posted_config config)
                requestId out) as (res & Hmsg & _);
      [now rewrite sampleRate_or_posted | exact Hlen |].
    rewrite Hmsg. cbn [handleWorkerMessage status pendingRequests].
    split; [reflexivity | apply Map_delete_has].
  - intros Hrej.
    rewrite worker_processECG_error by now rewrite sampleRate_or_posted.
    cbn [handleWorkerMessage]. split; [reflexivity|].
    intros cs. apply run_calls_error; [reflexivity | exact Hinit].
Qed.

Lemma process_round_trip_outcome_witness :
  (120 <= sampleRate_or (file_config brief_recording) 250 ->
   (27 < len (voltages brief_recording))%Z ->
   status (@process_round_trip passthrough (voltages brief_recording)
             (file_config brief_recording) "req_1" [] ready_processor)
   = ready
   /\ Map_has (pendingRequests
                 (@process_round_trip passthrough (voltages brief_recording)
                    (file_config brief_recording) "req_1" []
                    ready_processor))
              "req_1" = false)
  /\ (sampleRate_or (file_config brief_recording) 250 < 120
      \/ (len (voltages brief_recording) <= 27)%Z ->
      status (@process_round_trip passthrough (voltages brief_recording)
                (file_config brief_recording) "req_1" [] ready_processor)
      = error
      /\ forall cs,
           snd (run_calls cs
                  (@process_round_trip passthrough
                     (voltages brief_recording)
                     (file_config brief_recording) "req_1" []
                     ready_processor))
           = @process_round_trip passthrough (voltages brief_recording)
               (file_config brief_recording) "req_1" [] ready_processor
           /\ Forall refused
                (fst (run_calls cs
                        (@process_round_trip passthrough
                           (voltages brief_recording)
                           (file_config brief_recording) "req_1" []
                           ready_processor)))).
Proof.
  apply (@process_round_trip_outcome passthrough (voltages brief_recording)
           (file_config brief_recording) "req_1" [] ready_processor);
    reflexivity.
Defined.

(** ** Bounds on what is reported *)

Lemma np_mean_ge (lo : Q) (l : list Q) :
  l <> [] -> Forall (fun x => lo <= x) l -> lo <= np_mean l.
Proof.
  intros Hne Hall.
  assert (Hsum : inject_Z (len l) * lo <= Qsum l).
  { clear Hne. induction Hall as [|x t Hx Ht IH].
    - change (inject_Z (len (@nil Q))) with 0. simpl. lra.
    - rewrite Qsum_cons, len_cons, inject_Z_plus.
      change (inject_Z 1) with 1. lra. }
  assert (Hlen : 0 < inject_Z (len l)).
  { destruct l; [congruence|]. rewrite len_cons.
    change 0 with (inject_Z 0). rewrite <- Zlt_Qlt. unfold len. lia. }
  unfold np_mean. apply Qle_shift_div_l; [exact Hlen | lra].
Qed.

(** The least gap the loop leaves between two peaks is more than 0.12
    seconds. *)
Lemma refractory_minus_window (fs : Q) :
  0 <= fs ->
  0.12 * fs < inject_Z (refractory_samples fs - search_window fs + 1).
Proof.
  intros Hfs. unfold refractory_samples, search_window.
  rewrite !py_int_floor by lra.
  pose proof (Qlt_floor (0.2 * fs)) as Hr.
  pose proof (Qfloor_le (0.08 * fs)) as Hw.
  rewrite inject_Z_plus in Hr.
  unfold Z.sub. rewrite !inject_Z_plus, inject_Z_opp.
  change (inject_Z 1) with 1 in *. lra.
Qed.

Lemma heart_rate_metrics_below_500 (r_peaks : list Z) (fs threshold : Q) :
  0 < fs -> spaced fs r_peaks ->
  0 <= avg_heart_rate_bpm (heart_rate_metrics r_peaks fs threshold)
  /\ avg_heart_rate_bpm (heart_rate_metrics r_peaks fs threshold) < 500.
Proof.
  intros Hfs Hsp.
  assert (Hpos : Forall (fun d => (0 < d)%Z) (np_diffZ r_peaks)).
  { eapply Forall_impl; [|exact Hsp]. intros d Hd. cbv beta in Hd.
    assert (H0 : 0 <= fs) by lra.
    pose proof (search_window_le_refractory fs H0). lia. }
  destruct (heart_rate_metrics_bpm r_peaks fs threshold Hfs Hpos)
    as [Hmany Hfew].
  destruct (Z_lt_ge_dec (len r_peaks) 2) as [Hlt|Hge].
  { rewrite (Hfew Hlt). split; lra. }
  assert (Hlen : (2 <= len r_peaks)%Z) by lia.
  rewrite (Hmany Hlen).
  pose proof (refractory_minus_window fs ltac:(lra)) as Hgap.
  assert (Hmd : inject_Z (refractory_samples fs - search_window fs + 1)
                <= mean_diff r_peaks).
  { unfold mean_diff. apply np_mean_ge.
    - intros Hnil. apply (f_equal (@List.length Q)) in Hnil.
      rewrite length_map, np_diffZ_length in Hnil.
      unfold len in Hlen. simpl in Hnil. lia.
    - apply Forall_map. eapply Forall_impl; [|exact Hsp].
      intros d Hd. cbv beta in Hd |- *. rewrite <- Zle_Qle. lia. }
  assert (Hmd0 : 0 < mean_diff r_peaks) by lra.
  split.
  - apply Qle_shift_div_l; [exact Hmd0 | nra].
  - apply Qlt_shift_div_r; [exact Hmd0 | nra].
Qed.

(** X23.  The average heart rate the detector reports is never
    negative and always below 500 beats per minute: the thresholding
    loop leaves more than 0.12 seconds between consecutive peaks. *)
Theorem detector_rate_below_500 `{Kernels} (ecg_signal : list Q) (fs : Q)
  (verbose : bool) (out : stdout) :
  30 < fs -> (15 < len ecg_signal)%Z ->
  exists r_peaks metrics out',
    pan_tompkins_detector ecg_signal fs verbose out
    = (Ok (r_peaks, metrics), out')
    /\ 0 <= avg_heart_rate_bpm metrics
    /\ avg_heart_rate_bpm metrics < 500.
Proof.
  intros Hfs Hlen.
  destruct (pan_tompkins_detector_run ecg_signal fs verbose out Hfs Hlen)
    as (st & _ & Hsp & Hrun).
  eexists _, _, _. split; [exact Hrun|].
  apply heart_rate_metrics_below_500; [lra | exact Hsp].
Qed.

Lemma detector_rate_below_500_witness :
  exists r_peaks metrics out',
    @pan_tompkins_detector passthrough close_beats 250 false []
    = (Ok (r_peaks, metrics), out')
    /\ 0 <= avg_heart_rate_bpm metrics
    /\ avg_heart_rate_bpm metrics < 500.
Proof.
  apply (@detector_rate_below_500 passthrough close_beats 250 false []).
  - reflexivity.
  - vm_compute. reflexivity.
Defined.

Lemma clamp_0_100_range (x : Q) :
  0 <= clamp_0_100 x /\ clamp_0_100 x <= 100.
Proof.
  unfold clamp_0_100. cbv zeta.
  destruct (Qltb x 100) eqn:E1;
    [apply Qltb_lt in E1 | apply Qltb_ge in E1];
    match goal with
    | |- context [Qltb 0 ?m] =>
        destruct (Qltb 0 m) eqn:E2;
        [apply Qltb_lt in E2 | apply Qltb_ge in E2]
    end; lra.
Qed.

Lemma clamp_0_100_low (x : Q) : x <= 0 -> clamp_0_100 x = 0.
Proof.
  intros Hx. unfold clamp_0_100. cbv zeta.
  destruct (Qltb x 100) eqn:E1; [|apply Qltb_ge in E1; lra].
  destruct (Qltb 0 x) eqn:E2; [apply Qltb_lt in E2; lra | reflexivity].
Qed.

Section Confidence.

Context `{K : Kernels}.

Lemma preprocess_ecg_confidence (raw_signal : list Q) (fs : Q)
  (verbose : bool) (out : stdout) (cleaned : list Q) (metrics : filter_metrics)
  (out' : stdout) :
  preprocess_ecg raw_signal fs verbose out = (Ok (cleaned, metrics), out') ->
  confidence_score metrics = clamp_0_100 ((snr_db metrics - 5) * 5).
Proof.
  unfold preprocess_ecg. intros Hrun.
  assert (Hrest : exists o,
    (low_cutoff <- lift (py_div 0.5 (fs / 2)) ;;
     high_cutoff <- lift (py_div 40 (fs / 2)) ;;
     ba_band <- lift (butter 4 low_cutoff high_cutoff) ;;
     filtered <- lift (filtfilt ba_band raw_signal) ;;
     w0 <- lift (py_div 60 (fs / 2)) ;;
     ba_notch <- lift (iirnotch w0 30) ;;
     notched <- lift (filtfilt ba_notch filtered) ;;
     baseline <- lift (uniform_filter1d notched (py_int (0.2 * fs))) ;;
     let cleaned := np_sub notched baseline in
     let signal_power := np_var cleaned in
     let noise_removed := np_sub raw_signal cleaned in
     let noise_power := np_var noise_removed in
     let snr_db := if Qeq_bool noise_power 0 then 100
                   else 10 * np_log10 (signal_power / noise_power) in
     let quality_percent := clamp_0_100 ((snr_db - 5) * 5) in
     ret (cleaned,
          {| snr_db := snr_db; confidence_score := quality_percent;
             signal_std := np_std cleaned |})) o
    = (Ok (cleaned, metrics), out')).
  { destruct verbose; py_run in Hrun; eexists; exact Hrun. }
  clear Hrun. destruct Hrest as [o Hrun].
  apply bind_lift_ok in Hrun. destruct Hrun as (low & _ & Hrun).
  apply bind_lift_ok in Hrun. destruct Hrun as (high & _ & Hrun).
  apply bind_lift_ok in Hrun. destruct Hrun as (ba & _ & Hrun).
  apply bind_lift_ok in Hrun. destruct Hrun as (filtered & _ & Hrun).
  apply bind_lift_ok in Hrun. destruct Hrun as (w0 & _ & Hrun).
  apply bind_lift_ok in Hrun. destruct Hrun as (ban & _ & Hrun).
  apply bind_lift_ok in Hrun. destruct Hrun as (notched & _ & Hrun).
  apply bind_lift_ok in Hrun. destruct Hrun as (baseline & _ & Hrun).
  cbv zeta in Hrun. py_run in Hrun. injection Hrun as _ <- _.
  reflexivity.
Qed.

Lemma process_ecg_complete_filter_metrics (raw_voltages : list Q)
  (sample_rate : Q) (verbose : bool) (out : stdout) (res : results)
  (out' : stdout) :
  process_ecg_complete raw_voltages sample_rate verbose out = (Ok res, out') ->
  exists cleaned o1 o2,
    preprocess_ecg raw_voltages sample_rate verbose o1
    = (Ok (cleaned, res_filter_metrics res), o2).
Proof.
  unfold process_ecg_complete. intros Hrun.
  assert (Hrest : exists o,
    match preprocess_ecg raw_voltages sample_rate verbose o with
    | (Ok (cleaned, fm), o2) => fm = res_filter_metrics res
    | (Raise _, _) => False
    end).
  { destruct verbose; py_run in Hrun;
      match type of Hrun with
      | context [preprocess_ecg ?a ?b ?c ?o] =>
          exists o;
          destruct (preprocess_ecg a b c o) as [[[cl fm]|e] o2];
          [|discriminate Hrun]
      end;
      match type of Hrun with
      | context [pan_tompkins_detector ?a ?b ?c ?o] =>
          destruct (pan_tompkins_detector a b c o) as [[[r dm]|e] o3];
          [|discriminate Hrun]
      end;
      destruct (detect_arrhythmia r sample_rate _) as [rs am];
      py_run in Hrun;
      (destruct (measure_qrs_width cl r sample_rate _) as [qrs|e];
       [|discriminate Hrun]);
      (destruct (calculate_qt_interval cl r sample_rate _) as [qt|e];
       [|discriminate Hrun]);
      match type of Hrun with
      | context [clinical_interpretation ?a ?b ?c ?d ?e] =>
          destruct (clinical_interpretation a b c d e) as [label ws]
      end;
      injection Hrun as Hres _; rewrite <- Hres; reflexivity. }
  destruct Hrest as [o Hrest].
  destruct (preprocess_ecg raw_voltages sample_rate verbose o)
    as [[[cl fm]|e] o2] eqn:Hpre; [|contradiction].
  subst fm. now exists cl, o, o2.
Qed.

End Confidence.

(** X24.  Two confidences.  The [confidence] the script returns is a
    percentage between 0 and 100, computed from the signal-to-noise
    ratio; the confidence the application shows is recomputed from the
    same ratio by [calculateConfidence] and lies between 60 and 98.
    With a ratio of at most 5 dB the script's confidence is 0 while the
    one shown is between 60 and 70. *)
Theorem confidence_shown `{Kernels} (raw_voltages : list Q)
  (sample_rate : Q) (verbose : bool) (out : stdout) :
  120 <= sample_rate -> (27 < len raw_voltages)%Z ->
  exists res out',
    process_ecg_complete raw_voltages sample_rate verbose out = (Ok res, out')
    /\ (0 <= confidence (res_metrics res)
        /\ confidence (res_metrics res) <= 100)
    /\ (60 <= pm_confidence (pr_metrics (transformResults res))
        /\ pm_confidence (pr_metrics (transformResults res)) <= 98)
    /\ (snr_db (res_filter_metrics res) <= 5 ->
        confidence (res_metrics res) = 0
        /\ pm_confidence (pr_metrics (transformResults res)) <= 70).
Proof.
  intros Hfs Hlen.
  destruct (process_ecg_complete_runs raw_voltages sample_rate verbose
              Hfs Hlen)
    as (res & Hrun & _ & _ & _ & _ & _ & _ & _ & _ & Hui & _).
  exists res. eexists. split; [apply Hrun|].
  destruct (process_ecg_complete_filter_metrics _ _ _ _ _ _ (Hrun out))
    as (cl & o1 & o2 & Hpre).
  apply preprocess_ecg_confidence in Hpre.
  rewrite Hui. cbn [confidence]. rewrite Hpre.
  cbn [transformResults pr_metrics pm_confidence].
  split; [apply clamp_0_100_range|].
  split; [apply (calculateConfidence_bounds (res_filter_metrics res))|].
  intros Hsnr. split; [apply clamp_0_100_low; lra|].
  now apply calculateConfidence_low.
Qed.

Lemma confidence_shown_witness :
  exists res out',
    @process_ecg_complete passthrough flat_line 250 false [] = (Ok res, out')
    /\ (0 <= confidence (res_metrics res)
        /\ confidence (res_metrics res) <= 100)
    /\ (60 <= pm_confidence (pr_metrics (transformResults res))
        /\ pm_confidence (pr_metrics (transformResults res)) <= 98)
    /\ (snr_db (res_filter_metrics res) <= 5 ->
        confidence (res_metrics res) = 0
        /\ pm_confidence (pr_metrics (transformResults res)) <= 70).
Proof.
  apply (@confidence_shown passthrough flat_line 250 false []).
  - vm_compute. discriminate.
  - vm_compute. reflexivity.
Defined.

(** ** When nothing could be measured *)

Lemma zero_qt_surd (mean_rr : Q) :
  surd_ssq (if Qltb 0 mean_rr then Q_div_surd 0 (np_sqrt mean_rr)
            else surd_of_Q 0) == 0.
Proof.
  destruct (Qltb 0 mean_rr) eqn:E; [|reflexivity].
  apply Qltb_lt in E.
  unfold surd_ssq, signed_sq, Q_div_surd, np_sqrt. cbn [coef radicand].
  assert (H0 : 0 / (1 * mean_rr) == 0) by (field; lra).
  rewrite H0. reflexivity.
Qed.

(** X25.  When [calculate_qt_interval] retained no QT value (its
    [mean_qt_ms] is 0), it raises no flag, and it says "N/A" only for
    fewer than three peaks: with three peaks or more a recording on
    which no QT interval could be measured is reported as "Normal". *)
Theorem calculate_qt_interval_nothing_measured (ecg_signal : list Q)
  (r_peaks : list Z) (fs : Q) (verbose : bool) (m : qt_metrics) :
  calculate_qt_interval ecg_signal r_peaks fs verbose = Ok m ->
  mean_qt_ms m == 0 ->
  qt_risk_flag m = false
  /\ qt_interpretation m
     = (if (len r_peaks <? 3)%Z then "N/A" else "Normal")%string.
Proof.
  unfold calculate_qt_interval.
  destruct (len r_peaks <? 3)%Z; [intros [= <-] _; now split|].
  intros Hrun. apply result_bind_ok in Hrun.
  destruct Hrun as (qts & Hqts & Hrun). injection Hrun as <-.
  cbn [qt_risk_flag qt_interpretation mean_qt_ms]. intros Hzero.
  apply qt_loop_range in Hqts. destruct qts as [|q qs].
  2: { destruct (np_mean_between 200 600 (q :: qs)) as [Hlo _];
         [discriminate | exact Hqts | lra]. }
  pose proof (zero_qt_surd
                (if (0 <? len (rr_intervals_s r_peaks fs))%Z
                 then np_mean (rr_intervals_s r_peaks fs) else 1)) as Hs.
  unfold surd_gtb, surd_ltb.
  assert (H450 : signed_sq 450 == 202500) by reflexivity.
  assert (H470 : signed_sq 470 == 220900) by reflexivity.
  generalize dependent (signed_sq 450). generalize dependent (signed_sq 470).
  intros c470 H470 c450 H450.
  match goal with
  | |- Qltb c470 ?s = false /\ _ =>
      assert (Hflag : Qltb c470 s = false) by (apply Qltb_ge; lra);
      assert (Hnormal : Qltb s c450 = true) by (apply Qltb_lt; lra)
  end.
  rewrite Hflag, Hnormal. now split.
Qed.

Lemma calculate_qt_interval_nothing_measured_witness :
  qt_risk_flag qt_of_flat_line = false
  /\ qt_interpretation qt_of_flat_line
     = (if (len five_peaks <? 3)%Z then "N/A" else "Normal")%string.
Proof.
  apply (calculate_qt_interval_nothing_measured flat_line five_peaks 250
           false).
  - vm_compute. reflexivity.
  - vm_compute. reflexivity.
Defined.

Lemma clinical_interpretation_nothing (detection : detection_metrics)
  (fs : Q) (r_peaks : list Z) (verbose : bool) :
  (len r_peaks < 2)%Z ->
  clinical_interpretation "Insufficient data" detection qrs_insufficient
    qt_not_available (calculate_hrv_metrics r_peaks fs verbose)
  = ("Insufficient data"%string, []).
Proof.
  intros Hlen. unfold calculate_hrv_metrics.
  assert (E : (len r_peaks <? 3)%Z = true) by (apply Z.ltb_lt; lia).
  rewrite E. reflexivity.
Qed.

(** X26.  A recording on which fewer than two beats are detected: the
    script returns a heart rate of 0, the label "Insufficient data" and
    no clinical warning, and the application shows "Analyzing..." with
    no QRS width. *)
Theorem fewer_than_two_beats `{Kernels} (raw_voltages : list Q)
  (sample_rate : Q) (verbose : bool) (out : stdout) :
  120 <= sample_rate -> (27 < len raw_voltages)%Z ->
  exists res out',
    process_ecg_complete raw_voltages sample_rate verbose out = (Ok res, out')
    /\ ((len (res_r_peak_indices res) < 2)%Z ->
        bpm (res_metrics res) = 0
        /\ res_rhythm_status res = "Insufficient data"%string
        /\ res_clinical_warnings res = []
        /\ pm_rhythmStatus (pr_metrics (transformResults res))
           = "Analyzing..."%string
        /\ pm_qrsWidth (pr_metrics (transformResults res)) = None).
Proof.
  intros Hfs Hlen.
  destruct (process_ecg_complete_runs raw_voltages sample_rate verbose
              Hfs Hlen)
    as (res & Hrun & _ & _ & _ & [t Hdm] & Hqrs & Hqt & Hhrv & Hci & Hui & _).
  exists res. eexists. split; [apply Hrun|]. intros Hfew.
  assert (E2 : (len (res_r_peak_indices res) <? 2)%Z = true)
    by now apply Z.ltb_lt.
  assert (E3 : (len (res_r_peak_indices res) <? 3)%Z = true)
    by (apply Z.ltb_lt; lia).
  unfold measure_qrs_width in Hqrs. rewrite E2 in Hqrs.
  injection Hqrs as Hqrs.
  unfold calculate_qt_interval in Hqt. rewrite E3 in Hqt.
  injection Hqt as Hqt.
  assert (Hda : fst (detect_arrhythmia (res_r_peak_indices res) sample_rate
                       verbose) = "Insufficient data"%string)
    by (unfold detect_arrhythmia; now rewrite E3).
  rewrite Hda, <- Hqrs, <- Hqt, Hhrv in Hci.
  change {| mean_qrs_ms := 0; std_qrs_ms := surd_of_Q 0;
            qrs_interpretation := "Insufficient data" |}
    with qrs_insufficient in Hci.
  change {| mean_qt_ms := 0; mean_qtc_bazett_ms := surd_of_Q 0;
            qt_risk_flag := false; qt_interpretation := "N/A" |}
    with qt_not_available in Hci.
  rewrite clinical_interpretation_nothing in Hci by exact Hfew.
  injection Hci as Hlabel Hws.
  cbn [transformResults pr_metrics pm_rhythmStatus pm_qrsWidth].
  rewrite <- Hlabel, <- Hws, <- Hqrs, Hui. cbn [bpm mean_qrs_ms].
  repeat split.
  rewrite Hdm. unfold heart_rate_metrics.
  destruct (2 <=? len (res_r_peak_indices res))%Z eqn:E; [|reflexivity].
  apply Z.leb_le in E. lia.
Qed.

Lemma fewer_than_two_beats_witness :
  exists res out',
    @process_ecg_complete passthrough flat_line 250 false [] = (Ok res, out')
    /\ ((len (res_r_peak_indices res) < 2)%Z ->
        bpm (res_metrics res) = 0
        /\ res_rhythm_status res = "Insufficient data"%string
        /\ res_clinical_warnings res = []
        /\ pm_rhythmStatus (pr_metrics (transformResults res))
           = "Analyzing..."%string
        /\ pm_qrsWidth (pr_metrics (transformResults res)) = None).
Proof.
  apply (@fewer_than_two_beats passthrough flat_line 250 false []).
  - vm_compute. discriminate.
  - vm_compute. reflexivity.
Defined.
